(** * workerd-proxy-js: the tunnel multiplex engine

    A shallow embedding of the classes [Socketb] (socketb.js), [Request]
    and [ReqMgr] (request.js, reqmgr.js), [Tunnel] (tunnel.js) and [TunMgr]
    (tunmgr.js), and the properties of the request table, the keepalive
    counter, the outbound write serializer, the inbound frame dispatch, the
    events of the egress sockets and the manager's registry.

    JavaScript objects are records; a method is a function in a small
    state-and-exception monad over the [World] the objects live in.  An
    exception leaves every assignment made before it in place, so a
    computation returns its outcome together with the world it reached. *)

From Stdlib Require Import ZArith Lia.
From Stdlib.Strings Require Import Byte.
From stdpp Require Import base option list strings gmap pretty numbers.

Open Scope Z_scope.

(** ** JavaScript values the source depends on *)

(** A numeric property that the constructor may have left unset. *)
Inductive JsNum :=
| NUndefined
| NNaN
| NInt (z : Z).

(** [v > k]: [undefined] converts to [NaN], and every comparison with
    [NaN] is false. *)
Definition js_gt (v : JsNum) (k : Z) : bool :=
  match v with
  | NInt z => k <? z
  | NUndefined | NNaN => false
  end.

(** [v < k], under the same rule. *)
Definition js_lt (v : JsNum) (k : Z) : bool :=
  match v with
  | NInt z => z <? k
  | NUndefined | NNaN => false
  end.

(** [v++]. *)
Definition js_incr (v : JsNum) : JsNum :=
  match v with
  | NInt z => NInt (z + 1)
  | NUndefined | NNaN => NNaN
  end.

(** A boolean property that may be absent from the object. *)
Definition truthy (v : option bool) : bool :=
  match v with
  | Some b => b
  | None => false
  end.

(** The values stored in a send-queue entry: the two settling functions
    that the [Promise] constructor hands to its executor. *)
Inductive JsVal :=
| VUndefined
| VResolveFn (p : nat)
| VRejectFn (p : nat).

Inductive JsError :=
| RangeError
| ReferenceError (name : string)
| TypeError (what : string).

(** ** Buffers *)

Definition Bytes := list byte.

Definition u8 (b : byte) : Z := Z.of_N (Byte.to_N b).

Definition byte_of (z : Z) : byte := default Byte.x00 (Byte.of_N (Z.to_N z)).

(** An outbound buffer.  The ping body is the float64 image of a clock
    reading; it is kept symbolic. *)
Inductive Buf :=
| BufPing (timestamp : Z)
| BufBytes (bytes : Bytes).

(** ** Object layouts *)

(** Objects on the heap are named by position: a socket by its creation
    rank, a request by its place in [reqq]. *)
Abbreviation SockRef := nat (only parsing).
Abbreviation ReqRef := nat (only parsing).

Definition STATE_CONNECTING : Z := 0.
Definition STATE_CONNECTTED : Z := 1.
Definition STATE_CLOSED : Z := 2.

Module Socketb.
(** [evtCallback] is the closure [Request.proxy] builds; it is named by
    the request it captures. *)
Record t := mk {
  address : string;
  evtCallback : nat;
  state : Z;
  sock : option nat;
  chunks2Send : list Bytes;
  inSending : bool;
}.

Definition isConnected (s : t) : bool := state s =? STATE_CONNECTTED.
Definition isClosed (s : t) : bool := state s =? STATE_CLOSED.
Definition chunkCountWatingSend (s : t) : nat := length (chunks2Send s).

Definition set_state (v : Z) (s : t) : t :=
  mk (address s) (evtCallback s) v (sock s) (chunks2Send s) (inSending s).
Definition set_sock (v : option nat) (s : t) : t :=
  mk (address s) (evtCallback s) (state s) v (chunks2Send s) (inSending s).
Definition set_chunks2Send (q : list Bytes) (s : t) : t :=
  mk (address s) (evtCallback s) (state s) (sock s) q (inSending s).
End Socketb.

Module Request.
(** [inUsed] is written by the constructor; [isUsed] and [idx] come into
    existence when [ReqMgr.alloc] first assigns them. *)
Record t := mk {
  tag : Z;
  inUsed : bool;
  isUsed : option bool;
  idx : option Z;
  socketb : option SockRef;
}.

Definition new (tag : Z) : t := mk tag false None None None.

Definition set_tag (v : Z) (r : t) : t :=
  mk v (inUsed r) (isUsed r) (idx r) (socketb r).
Definition set_isUsed (v : option bool) (r : t) : t :=
  mk (tag r) (inUsed r) v (idx r) (socketb r).
Definition set_idx (v : option Z) (r : t) : t :=
  mk (tag r) (inUsed r) (isUsed r) v (socketb r).
Definition set_socketb (s : option SockRef) (r : t) : t :=
  mk (tag r) (inUsed r) (isUsed r) (idx r) s.
End Request.

Module ReqMgr.
Record t := mk {
  cap : Z;
  reqq : list Request.t;
}.

Definition new (cap : Z) : t := mk cap (Request.new <$> seqZ 0 cap).

Definition set_reqq (q : list Request.t) (m : t) : t := mk (cap m) q.
End ReqMgr.

Definition READY_STATE_OPEN : Z := 1.

Record WebSocket := mkWebSocket { readyState : Z }.

Record SendBuf := mkSendBuf {
  buf : Buf;
  resolve : JsVal;
  reject : JsVal;
}.

Module Tunnel.
Record t := mk {
  id : Z;
  reqCap : Z;
  reqMgr : ReqMgr.t;
  websocket : option WebSocket;
  lastActivate : Z;
  waitingPing : JsNum;
  inSending : bool;
  sendBufs : list SendBuf;
}.

Definition set_reqMgr (m : ReqMgr.t) (x : t) : t :=
  mk (id x) (reqCap x) m (websocket x) (lastActivate x) (waitingPing x)
     (inSending x) (sendBufs x).
Definition set_websocket (ws : option WebSocket) (x : t) : t :=
  mk (id x) (reqCap x) (reqMgr x) ws (lastActivate x) (waitingPing x)
     (inSending x) (sendBufs x).
Definition set_lastActivate (v : Z) (x : t) : t :=
  mk (id x) (reqCap x) (reqMgr x) (websocket x) v (waitingPing x)
     (inSending x) (sendBufs x).
Definition set_waitingPing (v : JsNum) (x : t) : t :=
  mk (id x) (reqCap x) (reqMgr x) (websocket x) (lastActivate x) v
     (inSending x) (sendBufs x).
Definition set_inSending (v : bool) (x : t) : t :=
  mk (id x) (reqCap x) (reqMgr x) (websocket x) (lastActivate x)
     (waitingPing x) v (sendBufs x).
Definition set_sendBufs (v : list SendBuf) (x : t) : t :=
  mk (id x) (reqCap x) (reqMgr x) (websocket x) (lastActivate x)
     (waitingPing x) (inSending x) v.
End Tunnel.

(** ** The world *)

(** What the host and the tunnel manager observe, oldest first.
    [EvEnqueue e] marks the [push] of entry [e] onto [sendBufs];
    [EvWsSend e] is the host call [websocket.send(e.buf)]. *)
Inductive Effect :=
| EvLog (msg : string)
| EvEnqueue (e : SendBuf)
| EvWsSend (e : SendBuf)
| EvWsClose
| EvConnect (s : SockRef) (address : string)
| EvSockClose (s : SockRef)
| EvTunnelClosed (id : Z).

(** A [sendLoop] activation parked at its [await]: the snapshot it is
    sending and the index of the entry whose send is in flight. *)
Record Activation := mkActivation {
  snapshot : list SendBuf;
  position : nat;
}.

Record World := mkWorld {
  tunnel : Tunnel.t;
  sockets : list Socketb.t;
  clock : Z;
  promises : nat;
  resolved : gset nat;
  drainers : list Activation;
  trace : list Effect;
}.

Definition set_tunnel (f : Tunnel.t -> Tunnel.t) (w : World) : World :=
  mkWorld (f (tunnel w)) (sockets w) (clock w) (promises w) (resolved w)
          (drainers w) (trace w).
Definition set_sockets (f : list Socketb.t -> list Socketb.t) (w : World) : World :=
  mkWorld (tunnel w) (f (sockets w)) (clock w) (promises w) (resolved w)
          (drainers w) (trace w).
Definition set_clock (t : Z) (w : World) : World :=
  mkWorld (tunnel w) (sockets w) t (promises w) (resolved w)
          (drainers w) (trace w).
Definition set_promises (n : nat) (w : World) : World :=
  mkWorld (tunnel w) (sockets w) (clock w) n (resolved w)
          (drainers w) (trace w).
Definition set_resolved (f : gset nat -> gset nat) (w : World) : World :=
  mkWorld (tunnel w) (sockets w) (clock w) (promises w) (f (resolved w))
          (drainers w) (trace w).
Definition set_drainers (f : list Activation -> list Activation) (w : World) : World :=
  mkWorld (tunnel w) (sockets w) (clock w) (promises w) (resolved w)
          (f (drainers w)) (trace w).
Definition emit (e : Effect) (w : World) : World :=
  mkWorld (tunnel w) (sockets w) (clock w) (promises w) (resolved w)
          (drainers w) (trace w ++ [e]).

Definition table (w : World) : list Request.t := ReqMgr.reqq (Tunnel.reqMgr (tunnel w)).

Definition cap_of (w : World) : Z := ReqMgr.cap (Tunnel.reqMgr (tunnel w)).

Definition set_table (f : list Request.t -> list Request.t) (w : World) : World :=
  set_tunnel (fun x => Tunnel.set_reqMgr
                         (ReqMgr.set_reqq (f (ReqMgr.reqq (Tunnel.reqMgr x)))
                                          (Tunnel.reqMgr x)) x) w.

(** ** The monad *)

Inductive Outcome (A : Type) :=
| Return (a : A)
| Throw (e : JsError).
Arguments Return {A} a.
Arguments Throw {A} e.

Definition M (A : Type) : Type := World -> Outcome A * World.

Definition ret {A} (a : A) : M A := fun w => (Return a, w).
Definition throw {A} (e : JsError) : M A := fun w => (Throw e, w).
Definition bind {A B} (m : M A) (k : A -> M B) : M B :=
  fun w => match m w with
           | (Return a, w') => k a w'
           | (Throw e, w') => (Throw e, w')
           end.
Definition try_catch {A} (m : M A) (handler : JsError -> M A) : M A :=
  fun w => match m w with
           | (Return a, w') => (Return a, w')
           | (Throw e, w') => handler e w'
           end.
Definition update (f : World -> World) : M unit := fun w => (Return tt, f w).
Definition gets {A} (f : World -> A) : M A := fun w => (Return (f w), w).

Notation "'let*' x ':=' c 'in' k" := (bind c (fun x => k))
  (at level 10, x name, c at level 100, k at level 200).
Notation "c ';;;' k" := (bind c (fun _ => k))
  (at level 100, k at level 200, right associativity).

Definition console_log (msg : string) : M unit := update (emit (EvLog msg)).

(** An identifier that no enclosing scope binds. *)
Definition unbound {A} (name : string) : M A := throw (ReferenceError name).

Definition exec {A} (m : M A) (w : World) : World := snd (m w).
Definition outcome {A} (m : M A) (w : World) : Outcome A := fst (m w).

(** ** socketb.js *)

Definition the_socket (s : SockRef) : M Socketb.t :=
  fun w => match sockets w !! s with
           | Some o => (Return o, w)
           | None => (Throw (TypeError "socketb"), w)
           end.

Definition modify_socket (s : SockRef) (f : Socketb.t -> Socketb.t) : M unit :=
  update (set_sockets (alter f s)).

(** [new Socketb(address, evtCallback)]: the host [connect] is issued and
    the object starts out connecting, with nothing queued. *)
Definition Socketb_new (address : string) (evtCallback : ReqRef) : M SockRef :=
  let* s := gets (fun w => length (sockets w)) in
  update (emit (EvConnect s address)) ;;;
  update (set_sockets (fun h =>
            h ++ [Socketb.mk address evtCallback STATE_CONNECTING (Some s) [] false])) ;;;
  ret s.

(** The call in the source is the bare identifier [writeLoop].  The module
    binds [connect], the three [STATE_] constants and [Socketb]; the method
    of that name is a property of the object, not a binding.  No other
    call of the method exists, so its body, the only code that sets
    [inSending] or writes to the stream, is never entered. *)
Definition Socketb_startSendLoop (s : SockRef) : M unit :=
  let* this := the_socket s in
  if Socketb.inSending this then ret tt
  else unbound "writeLoop".

Definition Socketb_write (s : SockRef) (chunk : Bytes) : M unit :=
  let* this := the_socket s in
  if Socketb.isClosed this then ret tt
  else
    modify_socket s (fun o =>
      Socketb.set_chunks2Send (Socketb.chunks2Send o ++ [chunk]) o) ;;;
    let* this := the_socket s in
    if negb (Socketb.inSending this) then Socketb_startSendLoop s
    else ret tt.

Definition Socketb_shutdownWrite (s : SockRef) : M unit := ret tt.

Definition Socketb_close (s : SockRef) : M unit :=
  try_catch
    (let* this := the_socket s in
     match Socketb.sock this with
     | Some _ => update (emit (EvSockClose s))
     | None => ret tt
     end)
    (fun _ => console_log "Socketb close exception:").

(** ** request.js *)

(** [this.reqq[i]]; a missing element is [undefined], and reading a
    property of it raises [TypeError]. *)
Definition the_request (r : ReqRef) : M Request.t :=
  fun w => match table w !! r with
           | Some o => (Return o, w)
           | None => (Throw (TypeError "req"), w)
           end.

Definition modify_request (r : ReqRef) (f : Request.t -> Request.t) : M unit :=
  update (set_table (alter f r)).

Definition Request_free (r : ReqRef) : M unit :=
  let* this := the_request r in
  match Request.socketb this with
  | Some s =>
      Socketb_close s ;;;
      modify_request r (Request.set_socketb None)
  | None => ret tt
  end.

(** [databuf.slice(offset, databuf.length)]. *)
Definition Request_onClientData (r : ReqRef) (databuf : Bytes) (offset : nat) : M unit :=
  let* this := the_request r in
  match Request.socketb this with
  | Some s => Socketb_write s (drop offset databuf)
  | None => ret tt
  end.

Definition Request_onClientFinished (r : ReqRef) : M unit :=
  let* this := the_request r in
  match Request.socketb this with
  | Some s => Socketb_shutdownWrite s
  | None => ret tt
  end.

Definition Request_proxy (r : ReqRef) (toAddr : string) : M unit :=
  let* this := the_request r in
  match Request.socketb this with
  | Some _ => console_log "Request.proxy failed: request already in proxying"
  | None =>
      let* s := Socketb_new toAddr r in
      modify_request r (Request.set_socketb (Some s))
  end.

(** ** reqmgr.js *)

Definition the_cap : M Z := gets cap_of.

Definition out_of_range (cap idx : Z) : bool := (cap <=? idx) || (idx <? 0).

Definition ReqMgr_alloc (idx tag : Z) : M (option ReqRef) :=
  let* cap := the_cap in
  if out_of_range cap idx then
    console_log "reqmgr.alloc idx exceed cap, idx:" ;;; ret None
  else
    let* req := the_request (Z.to_nat idx) in
    if Request.inUsed req then
      console_log "reqmgr.alloc request is in used, idx:" ;;; ret None
    else
      modify_request (Z.to_nat idx) (Request.set_tag tag) ;;;
      modify_request (Z.to_nat idx) (Request.set_idx (Some idx)) ;;;
      modify_request (Z.to_nat idx) (Request.set_isUsed (Some true)) ;;;
      ret (Some (Z.to_nat idx)).

(** The tail shared by [free] and [cleanup]:
    [req.tag++; req.isUsed = false; req.free()]. *)
Definition release (r : ReqRef) : M unit :=
  modify_request r (fun o => Request.set_tag (Request.tag o + 1) o) ;;;
  modify_request r (Request.set_isUsed (Some false)) ;;;
  Request_free r.

Definition ReqMgr_free (idx tag : Z) : M unit :=
  let* cap := the_cap in
  if out_of_range cap idx then
    console_log "reqmgr.free idx exceed cap, idx:"
  else
    let* req := the_request (Z.to_nat idx) in
    if negb (truthy (Request.isUsed req)) then
      console_log "reqmgr.free request is not in used, idx:"
    else if negb (Request.tag req =? tag) then
      console_log "reqmgr.free request tag is not match, idx:"
    else release (Z.to_nat idx).

Definition ReqMgr_get (idx tag : Z) : M (option ReqRef) :=
  let* cap := the_cap in
  if out_of_range cap idx then
    console_log "reqmgr.get idx exceed cap, idx:" ;;; ret None
  else
    let* req := the_request (Z.to_nat idx) in
    if negb (truthy (Request.isUsed req)) then
      console_log "reqmgr.get request is not in used, idx:" ;;; ret None
    else if negb (Request.tag req =? tag) then
      console_log "reqmgr.get request tag is not match, idx:" ;;; ret None
    else ret (Some (Z.to_nat idx)).

Fixpoint for_each {A} (l : list A) (body : A -> M unit) : M unit :=
  match l with
  | [] => ret tt
  | x :: l' => body x ;;; for_each l' body
  end.

Definition cleanup_slot (i : Z) : M unit :=
  let* req := the_request (Z.to_nat i) in
  if Request.inUsed req then release (Z.to_nat i)
  else ret tt.

Definition ReqMgr_cleanup : M unit :=
  let* cap := the_cap in
  for_each (seqZ 0 cap) cleanup_slot.

(** ** tunnel.js: constants and buffer reads *)

(** The period of the manager's ticker, which it also passes as the
    throttle of [keepalive]. *)
Definition KEEPALIVE_INTERVAL : Z := 10000.

Definition CMD_None : Z := 0.
Definition CMD_Ping : Z := 1.
Definition CMD_Pong : Z := 2.
Definition CMD_ReqBEGIN : Z := 3.
Definition CMD_ReqData : Z := 3.
Definition CMD_ReqCreated : Z := 4.
Definition CMD_ReqClientClosed : Z := 5.
Definition CMD_ReqClientFinished : Z := 6.
Definition CMD_ReqServerFinished : Z := 7.
Definition CMD_ReqServerClosed : Z := 8.
Definition CMD_ReqRefreshQuota : Z := 9.
Definition CMD_ReqEND : Z := 10.

Definition readUInt8 (b : Bytes) (offset : nat) : M Z :=
  match b !! offset with
  | Some x => ret (u8 x)
  | None => throw RangeError
  end.

Definition readUInt16LE (b : Bytes) (offset : nat) : M Z :=
  match b !! offset, b !! S offset with
  | Some lo, Some hi => ret (u8 lo + u8 hi * 2 ^ 8)
  | _, _ => throw RangeError
  end.

(** [v.resolve] for one of the values a send-queue entry holds: a function
    object has no property of that name. *)
Definition js_member_resolve (v : JsVal) : M JsVal :=
  match v with
  | VUndefined => throw (TypeError "undefined.resolve")
  | VResolveFn _ | VRejectFn _ => ret VUndefined
  end.

(** [v()]. *)
Definition js_call (v : JsVal) : M unit :=
  match v with
  | VResolveFn p => update (set_resolved (fun r => {[p]} ∪ r))
  | VRejectFn _ => ret tt
  | VUndefined => throw (TypeError "undefined()")
  end.

(** An [async] function hands its exception to its promise; the caller,
    which does not await it, sees none. *)
Definition async_call (m : M unit) : M unit := try_catch m (fun _ => ret tt).

(** ** tunnel.js: the write serializer *)

Definition the_tunnel {A} (f : Tunnel.t -> A) : M A := gets (fun w => f (tunnel w)).

(** The host's [send]: [this.websocket] must be an object, and the host
    refuses a socket that is not open. *)
Definition websocket_send (sendBuf : SendBuf) : M unit :=
  let* ws := the_tunnel Tunnel.websocket in
  match ws with
  | None => throw (TypeError "null.send")
  | Some h =>
      if readyState h =? READY_STATE_OPEN then update (emit (EvWsSend sendBuf))
      else throw (TypeError "send")
  end.

Definition Tunnel_callSendBufResolve (sendBuf : SendBuf) : M unit :=
  try_catch
    (let* f := js_member_resolve (resolve sendBuf) in js_call f)
    (fun _ => console_log "Tunnel.callSendBufResolve, resolve exception:").

Inductive Progress := Parked | Finished.

(** [await this.websocket.send(sendBuf.buf)] for entry [i] of the snapshot:
    the host call is made, then the activation parks. *)
Definition send_entry (snap : list SendBuf) (i : nat) : M Progress :=
  match snap !! i with
  | Some sendBuf =>
      websocket_send sendBuf ;;;
      update (set_drainers (fun d => d ++ [mkActivation snap i])) ;;;
      ret Parked
  | None => throw (TypeError "sendBuf.buf")
  end.

(** The test of the [while]: take the queue as the new snapshot. *)
Definition while_head : M Progress :=
  let* q := the_tunnel Tunnel.sendBufs in
  if bool_decide (0 < length q)%nat then
    update (set_tunnel (Tunnel.set_sendBufs [])) ;;;
    send_entry q 0
  else ret Finished.

(** The test of the [for] at index [i]. *)
Definition for_head (snap : list SendBuf) (i : nat) : M Progress :=
  if bool_decide (i < length snap)%nat then send_entry snap i
  else while_head.

(** [try { ... } catch { log } finally { this.inSending = false }]; the
    [finally] block runs when the activation leaves, not when it parks. *)
Definition guarded (body : M Progress) : M unit :=
  let* p := try_catch body
              (fun _ => console_log "Tunnel.sendLoop exception:" ;;; ret Finished) in
  match p with
  | Parked => ret tt
  | Finished => update (set_tunnel (Tunnel.set_inSending false))
  end.

Definition Tunnel_sendLoop : M unit :=
  update (set_tunnel (Tunnel.set_inSending true)) ;;;
  guarded while_head.

(** The continuation of a parked activation. *)
Definition resume (a : Activation) : M unit :=
  guarded
    (match snapshot a !! position a with
     | Some sendBuf => Tunnel_callSendBufResolve sendBuf
     | None => throw (TypeError "sendBuf.resolve")
     end ;;;
     for_head (snapshot a) (S (position a))).

Definition run_parked : M unit :=
  let* d := gets drainers in
  match d with
  | [] => ret tt
  | a :: rest => update (set_drainers (fun _ => rest)) ;;; resume a
  end.

Definition Tunnel_startSendLoop : M unit :=
  let* busy := the_tunnel Tunnel.inSending in
  if busy then ret tt else async_call Tunnel_sendLoop.

Definition Tunnel_pushSendRequest (sendBuf : SendBuf) : M unit :=
  update (set_tunnel (fun x => Tunnel.set_sendBufs (Tunnel.sendBufs x ++ [sendBuf]) x)) ;;;
  update (emit (EvEnqueue sendBuf)) ;;;
  Tunnel_startSendLoop.

Definition Tunnel_isWebsocketValid : M bool :=
  the_tunnel (fun x => bool_decide (is_Some (Tunnel.websocket x))).

(** The promise [send] returns: settled on the spot, or the one whose
    settling functions sit in the queue entry. *)
Inductive SendPromise := AlreadyResolved | Pending (p : nat).

Definition Tunnel_send (b : Buf) : M SendPromise :=
  let* ws := the_tunnel Tunnel.websocket in
  match ws with
  | None =>
      console_log "Tunnel.send, websocket isn't valid, id:" ;;; ret AlreadyResolved
  | Some h =>
      if negb (readyState h =? READY_STATE_OPEN) then
        console_log "Tunnel.send, websocket state isn't open, id:" ;;;
        ret AlreadyResolved
      else
        let* p := gets promises in
        update (set_promises (S p)) ;;;
        Tunnel_pushSendRequest (mkSendBuf b (VResolveFn p) (VRejectFn p)) ;;;
        ret (Pending p)
  end.

(** ** tunnel.js: keepalive and close *)

Definition Tunnel_close : M unit :=
  let* valid := Tunnel_isWebsocketValid in
  if negb valid then ret tt
  else
    try_catch
      (update (emit EvWsClose) ;;;
       update (set_tunnel (Tunnel.set_websocket None)))
      (fun _ => console_log "tunnel onClosed exception:").

Definition Tunnel_sendPingMessage : M unit :=
  let* now := gets clock in
  Tunnel_send (BufPing now) ;;; ret tt.

Definition Tunnel_sendPongMessage (origin : Bytes) : M unit :=
  match origin with
  | [] => throw RangeError
  | _ :: body => Tunnel_send (BufBytes (Byte.x02 :: body)) ;;; ret tt
  end.

Definition Tunnel_onPong : M unit :=
  update (set_tunnel (Tunnel.set_waitingPing (NInt 0))).

Definition Tunnel_keepalive (now throttle : Z) : M unit :=
  let* waiting := the_tunnel Tunnel.waitingPing in
  if js_gt waiting 3 then Tunnel_close
  else
    let* last := the_tunnel Tunnel.lastActivate in
    let th := now - last in
    if throttle <? th then
      async_call Tunnel_sendPingMessage ;;;
      update (set_tunnel (fun x =>
                Tunnel.set_waitingPing (js_incr (Tunnel.waitingPing x)) x))
    else ret tt.

Definition Tunnel_onClosed : M unit :=
  let* q := the_tunnel Tunnel.sendBufs in
  for_each q Tunnel_callSendBufResolve ;;;
  update (set_tunnel (Tunnel.set_sendBufs [])) ;;;
  ReqMgr_cleanup ;;;
  let* id := the_tunnel Tunnel.id in
  update (emit (EvTunnelClosed id)) ;;;
  Tunnel_close.

(** ** tunnel.js: inbound dispatch *)

(** [data.length] for the data of a message event.  The frames of the
    tunnel are binary, and the host hands a binary frame to the listener
    as an [ArrayBuffer], which has a [byteLength] and no [length]. *)
Definition ArrayBuffer_length (data : Bytes) : JsNum := NUndefined.

Definition isRequestCmd (cmd : Z) : bool :=
  (CMD_ReqBEGIN <=? cmd) && (cmd <? CMD_ReqEND).

(** *** [Buffer.toString()]

    A JavaScript string is kept as its UTF-8 encoding.  [toString()]
    decodes UTF-8 and puts U+FFFD in the place of every ill-formed
    sequence: a byte that cannot start a sequence, or a sequence cut short
    by a byte that cannot continue it (that byte is then looked at
    afresh) or by the end of the buffer.  What is well-formed is kept
    byte for byte. *)
Definition REPLACEMENT : Bytes := [Byte.xef; Byte.xbf; Byte.xbd].

(** For a lead byte: the number of continuation bytes it asks for and the
    bounds on the first of them, which exclude overlong forms, surrogates
    and code points above U+10FFFF. *)
Definition utf8_lead (b : byte) : option (nat * Z * Z) :=
  let v := u8 b in
  if (194 <=? v) && (v <=? 223) then Some (1%nat, 128, 191)
  else if (224 <=? v) && (v <=? 239) then
    Some (2%nat, if v =? 224 then 160 else 128, if v =? 237 then 159 else 191)
  else if (240 <=? v) && (v <=? 244) then
    Some (3%nat, if v =? 240 then 144 else 128, if v =? 244 then 143 else 191)
  else None.

(** A byte met while no sequence is under way: what it adds to the output,
    and the sequence it opens (bytes seen, bytes needed, bounds). *)
Definition utf8_start (b : byte) : Bytes * (Bytes * nat * Z * Z) :=
  if u8 b <=? 127 then ([b], ([], 0%nat, 128, 191))
  else
    match utf8_lead b with
    | Some (n, lo, hi) => ([], ([b], n, lo, hi))
    | None => (REPLACEMENT, ([], 0%nat, 128, 191))
    end.

Fixpoint utf8_decode (seen : Bytes) (needed : nat) (lower upper : Z) (l : Bytes)
  : Bytes :=
  match l with
  | [] => match needed with O => [] | S _ => REPLACEMENT end
  | b :: l' =>
      match needed with
      | O =>
          let '(out, (s, n, lo, hi)) := utf8_start b in
          out ++ utf8_decode s n lo hi l'
      | S n' =>
          if (lower <=? u8 b) && (u8 b <=? upper) then
            match n' with
            | O => seen ++ b :: utf8_decode [] 0 128 191 l'
            | S _ => utf8_decode (seen ++ [b]) n' 128 191 l'
            end
          else
            let '(out, (s, n, lo, hi)) := utf8_start b in
            REPLACEMENT ++ out ++ utf8_decode s n lo hi l'
      end
  end.

Definition Buffer_toString (b : Bytes) : string :=
  String.string_of_list_byte (utf8_decode [] 0 128 191 b).

(** [a + ":" + b + ...] over numbers: each prints in decimal. *)
Definition join_numbers (sep : string) (l : list Z) : string :=
  String.concat sep (pretty <$> l).

(** The address block of [onRequestCreated].  [Some (domain, port)] leaves
    the [switch] through a [break]; [None] is the [return] of the
    [default] branch.

    Case 0 opens with the identifier [message]; the function binds [idx],
    [tag], [databuf], [offset], [addressType], [port] and [domain], the
    module binds [ReqMgr], [Buffer], the [CMD_] constants and [Tunnel].

    Case 2 has no [break], so control runs on into [default]. *)
Definition address_block (databuf : Bytes) (addressType : Z) (offset : nat)
  : M (option (string * Z)) :=
  let unsupported :=
    console_log "onRequestCreated, unsupport addressType:" ;;; ret None in
  if addressType =? 0 then
    unbound "message"
  else if addressType =? 1 then
    let* domainLen := readUInt8 databuf offset in
    let offset := S offset in
    let domain :=
      Buffer_toString (take (Z.to_nat domainLen) (drop offset databuf)) in
    let offset := (offset + Z.to_nat domainLen)%nat in
    let* port := readUInt16LE databuf offset in
    ret (Some (domain, port))
  else if addressType =? 2 then
    let* p1 := readUInt16LE databuf offset in
    let* p2 := readUInt16LE databuf (offset + 2) in
    let* p3 := readUInt16LE databuf (offset + 4) in
    let* p4 := readUInt16LE databuf (offset + 6) in
    let* p5 := readUInt16LE databuf (offset + 8) in
    let* p6 := readUInt16LE databuf (offset + 10) in
    let* p7 := readUInt16LE databuf (offset + 12) in
    let* p8 := readUInt16LE databuf (offset + 14) in
    let domain := join_numbers ":" [p8; p7; p6; p5; p4; p3; p2; p1] in
    let* port := readUInt16LE databuf (offset + 16) in
    unsupported
  else unsupported.

(** In the failure branch the second argument of the log call is the
    identifier [err], bound nowhere in scope. *)
Definition Tunnel_onRequestCreated (idx tag : Z) (databuf : Bytes) (offset : nat) : M unit :=
  let* addressType := readUInt8 databuf offset in
  let* target := address_block databuf addressType (S offset) in
  match target with
  | None => ret tt
  | Some (domain, port) =>
      let* req := ReqMgr_alloc idx tag in
      match req with
      | None => unbound "err"
      | Some r => Request_proxy r (domain +:+ ":" +:+ pretty port)
      end
  end.

Definition Tunnel_onReqClientData (idx tag : Z) (databuf : Bytes) (offset : nat) : M unit :=
  let* req := ReqMgr_get idx tag in
  match req with
  | None => ret tt
  | Some r => Request_onClientData r databuf offset
  end.

Definition Tunnel_onReqClientFinished (idx tag : Z) : M unit :=
  let* req := ReqMgr_get idx tag in
  match req with
  | None => ret tt
  | Some r => Request_onClientFinished r
  end.

Definition Tunnel_onReqClientClosed (idx tag : Z) : M unit := ReqMgr_free idx tag.

Definition Tunnel_onRequestMessage (cmd : Z) (databuf : Bytes) : M unit :=
  let* idx := readUInt16LE databuf 1 in
  let* tag := readUInt16LE databuf 3 in
  if cmd =? CMD_ReqCreated then Tunnel_onRequestCreated idx tag databuf 5
  else if cmd =? CMD_ReqData then Tunnel_onReqClientData idx tag databuf 5
  else if cmd =? CMD_ReqClientFinished then Tunnel_onReqClientFinished idx tag
  else if cmd =? CMD_ReqClientClosed then Tunnel_onReqClientClosed idx tag
  else console_log "Tunnel.onRequestMessage, unknown cmd :".

Definition Tunnel_onTunnelMessage (data : Bytes) : M unit :=
  if js_lt (ArrayBuffer_length data) 1 then
    console_log "Tunnel got 0 length message"
  else
    let* cmd := readUInt8 data 0 in
    if isRequestCmd cmd then Tunnel_onRequestMessage cmd data
    else if cmd =? CMD_None then console_log "Tunnel.onTunnelMessage CMD_None, tunnel id:"
    else if cmd =? CMD_Ping then async_call (Tunnel_sendPongMessage data)
    else if cmd =? CMD_Pong then Tunnel_onPong
    else console_log "Tunnel.onTunnelMessage unknown cmd:".

(** The listeners installed by [setupWebsocket]. *)
Definition on_message (data : Bytes) : M unit :=
  let* now := gets clock in
  update (set_tunnel (Tunnel.set_lastActivate now)) ;;;
  Tunnel_onTunnelMessage data.

Definition closeHandler : M unit :=
  console_log "closeHandler, id:" ;;; Tunnel_onClosed.

Definition errorHandler : M unit := console_log "errorHandler, id:".

(** ** tunnel.js: what the egress side reports *)

(** [buf.writeUInt16LE(value, offset)] as far as the bytes written go.
    The value goes through unary plus first: [undefined] becomes [NaN],
    which passes the range check and is stored as zero. *)
Definition writeUInt16LE (value : option Z) : M Bytes :=
  match value with
  | None => ret [Byte.x00; Byte.x00]
  | Some v =>
      if (0 <=? v) && (v <=? 65535)
      then ret [byte_of (v mod 2 ^ 8); byte_of (v / 2 ^ 8)]
      else throw RangeError
  end.

(** The first statement sizes the frame with [len(data)], and nothing
    binds [len]. *)
Definition Tunnel_onReqServerData (r : ReqRef) (data : Bytes) : M unit :=
  unbound "len".

(** After the [await] the method goes on to [this.reqMgr.free(idx, tag)],
    where neither [idx] nor [tag] is bound; whenever that continuation
    runs it raises at once. *)
Definition Tunnel_onReqServerClosed (r : ReqRef) : M unit :=
  let* req := the_request r in
  let* idx := writeUInt16LE (Request.idx req) in
  let* tag := writeUInt16LE (Some (Request.tag req)) in
  Tunnel_send (BufBytes (Byte.x08 :: idx ++ tag)) ;;;
  unbound "idx".

(** ** request.js and socketb.js: events of the egress socket *)

Inductive SockEvent :=
| EvtConnected
| EvtError
| EvtClosed
| EvtData (data : Bytes)
| EvtFinish.

(** Both methods of the tunnel are [async] and are called here without
    [await]: what they raise goes to a promise nobody looks at. *)
Definition Request_onServerData (r : ReqRef) (data : Bytes) : M unit :=
  async_call (Tunnel_onReqServerData r data).

Definition Request_onServerClosed (r : ReqRef) : M unit :=
  async_call (Tunnel_onReqServerClosed r).

(** The closure of [Request.proxy], with [thisObj] the request [r]. *)
Definition Request_callback (r : ReqRef) (sock : SockRef) (ev : SockEvent) : M unit :=
  let* thisObj := the_request r in
  if negb (bool_decide (Request.socketb thisObj = Some sock)) then ret tt
  else
    match ev with
    | EvtData data => Request_onServerData r data
    | EvtClosed => Request_onServerClosed r
    | EvtConnected | EvtError | EvtFinish => ret tt
    end.

Definition Socketb_evtCallback (s : SockRef) (ev : SockEvent) : M unit :=
  let* this := the_socket s in
  Request_callback (Socketb.evtCallback this) s ev.

Definition Socketb_onConnected (s : SockRef) : M unit :=
  modify_socket s (Socketb.set_state STATE_CONNECTTED) ;;;
  async_call (Socketb_evtCallback s EvtConnected) ;;;
  Socketb_startSendLoop s.

Definition Socketb_onError (s : SockRef) : M unit :=
  async_call (Socketb_evtCallback s EvtError) ;;;
  modify_socket s (Socketb.set_sock None) ;;;
  modify_socket s (Socketb.set_chunks2Send []) ;;;
  modify_socket s (Socketb.set_state STATE_CLOSED).

Definition Socketb_onClosed (s : SockRef) : M unit :=
  modify_socket s (Socketb.set_state STATE_CLOSED) ;;;
  modify_socket s (Socketb.set_sock None) ;;;
  modify_socket s (Socketb.set_chunks2Send []) ;;;
  async_call (Socketb_evtCallback s EvtClosed).

(** One turn of [readLoop]: the callback is awaited inside the [try], so
    what it raises is caught and logged there. *)
Definition Socketb_readLoop_chunk (s : SockRef) (chunk : Bytes) : M unit :=
  try_catch (Socketb_evtCallback s (EvtData chunk))
            (fun _ => console_log "Socketb readLoop exception:").

(** The end of the readable stream. *)
Definition Socketb_readLoop_end (s : SockRef) : M unit :=
  let* this := the_socket s in
  if Socketb.isConnected this then async_call (Socketb_evtCallback s EvtFinish)
  else ret tt.

(** ** A tunnel at work *)

(** [new Tunnel(mgr, id, reqCap, websocket)] at clock reading [now], on a
    socket the manager has just accepted.  The constructor assigns no
    [waitingPing]. *)
Definition Tunnel_new (id reqCap : Z) (websocket : WebSocket) (now : Z) : Tunnel.t :=
  Tunnel.mk id reqCap (ReqMgr.new reqCap) (Some websocket) now NUndefined false [].

Definition boot (id reqCap now : Z) : World :=
  mkWorld (Tunnel_new id reqCap (mkWebSocket READY_STATE_OPEN) now)
          [] now 0 ∅ [] [].

(** What can happen to a tunnel between two returns to the event loop:
    the events of its WebSocket, a tick of the manager, the continuation
    of the parked [sendLoop], the events of its egress sockets, and the
    clock and the host moving on. *)
Inductive Op :=
| OpMessage (data : Bytes)
| OpClose
| OpError
| OpKeepalive (now throttle : Z)
| OpResume
| OpSockConnected (s : SockRef)
| OpSockError (s : SockRef)
| OpSockClosed (s : SockRef)
| OpSockData (s : SockRef) (chunk : Bytes)
| OpSockFinish (s : SockRef)
| OpClock (t : Z)
| OpReadyState (rs : Z).

(** The host moves a socket forward only, and past open: to closing (2)
    or closed (3). *)
Definition host_readyState (rs : Z) (x : Tunnel.t) : Tunnel.t :=
  match Tunnel.websocket x with
  | Some h =>
      if (READY_STATE_OPEN <? rs) && (readyState h <? rs)
      then Tunnel.set_websocket (Some (mkWebSocket rs)) x
      else x
  | None => x
  end.

Definition handler (o : Op) : M unit :=
  match o with
  | OpMessage data => on_message data
  | OpClose => closeHandler
  | OpError => errorHandler
  | OpKeepalive now throttle => Tunnel_keepalive now throttle
  | OpResume => run_parked
  | OpSockConnected s => Socketb_onConnected s
  | OpSockError s => Socketb_onError s
  | OpSockClosed s => Socketb_onClosed s
  | OpSockData s chunk => Socketb_readLoop_chunk s chunk
  | OpSockFinish s => Socketb_readLoop_end s
  | OpClock t => update (set_clock t)
  | OpReadyState rs => update (set_tunnel (host_readyState rs))
  end.

Definition step (w : World) (o : Op) : World := exec (handler o) w.

Definition run (ops : list Op) (w : World) : World := foldl step w ops.

(** ** Observations on the trace *)

Definition enqueued (t : list Effect) : list SendBuf :=
  omap (fun e => match e with EvEnqueue b => Some b | _ => None end) t.

Definition sent (t : list Effect) : list SendBuf :=
  omap (fun e => match e with EvWsSend b => Some b | _ => None end) t.

(** The entries a parked activation has still to send. *)
Definition unsent (a : Activation) : list SendBuf :=
  drop (S (position a)) (snapshot a).

Definition inflight (w : World) : list SendBuf :=
  mjoin (unsent <$> drainers w).

Definition queue (w : World) : list SendBuf := Tunnel.sendBufs (tunnel w).

Definition websocket_open (w : World) : bool :=
  match Tunnel.websocket (tunnel w) with
  | Some h => readyState h =? READY_STATE_OPEN
  | None => false
  end.

(** ** Sample frames *)

Definition frame (l : list Z) : Bytes := byte_of <$> l.

(** [ReqCreated(idx=0, tag=7, domain="a.b", port=80)] and the same slot
    with tag 9. *)
Definition created_domain_0_7 : Bytes :=
  frame [4; 0; 0; 7; 0; 1; 3; 97; 46; 98; 80; 0].
Definition created_domain_0_9 : Bytes :=
  frame [4; 0; 0; 9; 0; 1; 3; 97; 46; 98; 80; 0].
Definition created_domain_1_7 : Bytes :=
  frame [4; 1; 0; 7; 0; 1; 3; 97; 46; 98; 80; 0].

(** [ReqCreated(idx=0, tag=7, IPv6 groups 1..8, port=80)]. *)
Definition created_ipv6 : Bytes :=
  frame [4; 0; 0; 7; 0; 2;
         1; 0; 2; 0; 3; 0; 4; 0; 5; 0; 6; 0; 7; 0; 8; 0; 80; 0].

(** [ReqCreated(idx=0, tag=7, IPv4 bytes 1 2 3 4, port=80)]. *)
Definition created_ipv4 : Bytes :=
  frame [4; 0; 0; 7; 0; 0; 1; 2; 3; 4; 80; 0].

(** [ReqServerClosed(idx=0, tag=7)], as a peer might echo it. *)
Definition server_closed_0_7 : Bytes := frame [8; 0; 0; 7; 0].

Definition is_log (e : Effect) : bool :=
  match e with EvLog _ => true | _ => false end.

(** A tunnel of two slots, and the same tunnel once the peer has created
    request [(0, 7)] towards [a.b:80]. *)
Definition fresh : World := boot 0 2 1000.

Definition busy : World := run [OpMessage created_domain_0_7] fresh.

Definition reachable (w : World) : Prop :=
  exists ops id cap now, w = run ops (boot id cap now).

(** Requests [(0, 7)] and [(1, 7)] are created and their egress sockets
    close one after the other: the first [ReqServerClosed] frame is in
    flight, the second waits in the queue behind it, its promise
    (number 1) pending. *)
Definition two_closed : list Op :=
  [OpMessage created_domain_0_7; OpMessage created_domain_1_7;
   OpSockClosed 0; OpSockClosed 1].

Definition stalled : World := run two_closed fresh.

(** No inbound message, no close, no change of the socket by the host. *)
Definition silent (o : Op) : bool :=
  match o with
  | OpKeepalive _ _ | OpResume | OpClock _
  | OpSockConnected _ | OpSockError _ | OpSockClosed _
  | OpSockData _ _ | OpSockFinish _ => true
  | OpMessage _ | OpClose | OpError | OpReadyState _ => false
  end.

(** The counter holds no number, and the socket is in place and open. *)
Definition deaf (w : World) : Prop :=
  js_gt (Tunnel.waitingPing (tunnel w)) 3 = false /\
  js_incr (Tunnel.waitingPing (tunnel w)) = NNaN /\
  Tunnel.websocket (tunnel w) = Some (mkWebSocket READY_STATE_OPEN).

(** Six ticks of the manager on a tunnel built at clock 1000, each finding
    the tunnel idle for longer than the interval. *)
Definition six_ticks : list Op :=
  (fun now => OpKeepalive now KEEPALIVE_INTERVAL)
    <$> [11001; 21001; 31001; 41001; 51001; 61001].

(** No socket object has a drainer marked as running. *)
Definition idle_sockets (w : World) : Prop :=
  Forall (fun o => Socketb.inSending o = false) (sockets w).

(** ** The state of the write serializer *)

(** Everything enqueued and not yet handed to the host. *)
Definition pending (w : World) : list SendBuf := inflight w ++ queue w.

(** At most one [sendLoop] activation exists; [inSending] says whether one
    does, and a parked one points inside its snapshot. *)
Definition one_drainer (w : World) : Prop :=
  match drainers w with
  | [] => Tunnel.inSending (tunnel w) = false
  | [a] => Tunnel.inSending (tunnel w) = true /\
           (position a < length (snapshot a))%nat
  | _ => False
  end.

(** What was sent, followed by what is pending, reads in enqueue order. *)
Definition in_order (w : World) : Prop :=
  sublist (sent (trace w) ++ pending w) (enqueued (trace w)).

(** While the socket is open nothing has been skipped. *)
Definition lossless (w : World) : Prop :=
  websocket_open w = true ->
  enqueued (trace w) = sent (trace w) ++ pending w.

(** The entries enqueued so far hold the promises 0, 1, 2, ... in turn. *)
Definition numbered (w : World) : Prop :=
  resolve <$> enqueued (trace w) = VResolveFn <$> seq 0 (promises w).

Definition well_formed (w : World) : Prop :=
  length (table w) = Z.to_nat (cap_of w).

Definition serial (w : World) : Prop :=
  one_drainer w /\ in_order w /\ lossless w /\ numbered w.

(** Inside [sendLoop], about to look at entry [i] of snapshot [snap]: no
    activation is parked, the flag is up, and the rest of the snapshot
    stands for the entries in flight. *)
Definition in_loop (snap : list SendBuf) (i : nat) (w : World) : Prop :=
  drainers w = [] /\
  Tunnel.inSending (tunnel w) = true /\
  sublist (sent (trace w) ++ drop i snap ++ queue w) (enqueued (trace w)) /\
  (websocket_open w = true ->
   enqueued (trace w) = sent (trace w) ++ drop i snap ++ queue w) /\
  numbered w.

(** The order-keeping part of [serial]. *)
Definition orderly (w : World) : Prop :=
  one_drainer w /\ in_order w /\ numbered w.

(** From [stalled], a ping of the peer adds a pong to the queue; then the
    parked drainer runs to the end. *)
Definition three_frames : list Op :=
  two_closed ++ [OpMessage (frame [1; 0; 0; 0; 0; 0; 0; 0; 0]);
                 OpResume; OpResume; OpResume].

Definition drained : World := run three_frames fresh.

(** ** Invariants of computations *)

(** [m] keeps [P], whichever way it ends. *)
Definition preserves {A} (P : World -> Prop) (m : M A) : Prop :=
  forall w, P w -> P (snd (m w)).

(** [m] only reads. *)
Definition pure_read {A} (m : M A) : Prop := forall w, snd (m w) = w.

(** No slot carries the flag the constructor wrote. *)
Definition unflagged (w : World) : Prop :=
  Forall (fun r => Request.inUsed r = false) (table w).

(** The set of resolved promises is [R]. *)
Definition frozen (R : gset nat) (w : World) : Prop := resolved w = R.

(** What holds of every tunnel at work. *)
Definition sound (w : World) : Prop :=
  serial w /\ unflagged w /\ well_formed w.

(** ** Shorthands for stating what a handler leaves behind *)

(** [w] with the effects [t] added to its trace and nothing else changed. *)
Definition logged (t : list Effect) (w : World) : World :=
  mkWorld (tunnel w) (sockets w) (clock w) (promises w) (resolved w)
          (drainers w) (trace w ++ t).

(** [w] once the message listener has stamped the arrival. *)
Definition arrived (w : World) : World :=
  set_tunnel (Tunnel.set_lastActivate (clock w)) w.

(** The 16-bit little-endian value of two bytes. *)
Definition u16 (lo hi : byte) : Z := u8 lo + u8 hi * 2 ^ 8.

(** What the write serializer does not touch: [w] agrees with [w0] on the
    requests, the sockets, the keepalive state and the WebSocket. *)
Definition same_requests (w0 w : World) : Prop :=
  table w = table w0 /\ sockets w = sockets w0 /\
  Tunnel.waitingPing (tunnel w) = Tunnel.waitingPing (tunnel w0) /\
  Tunnel.websocket (tunnel w) = Tunnel.websocket (tunnel w0) /\
  Tunnel.lastActivate (tunnel w) = Tunnel.lastActivate (tunnel w0) /\
  resolved w = resolved w0.

(** The queue entry [send] builds for [b] in [w]. *)
Definition entry_for (b : Buf) (w : World) : SendBuf :=
  mkSendBuf b (VResolveFn (promises w)) (VRejectFn (promises w)).

(** The WebSocket is null or not open, and the frames sent and enqueued so
    far are [S] and [E]. *)
Definition gone (S E : list SendBuf) (w : World) : Prop :=
  websocket_open w = false /\
  sent (trace w) = S /\ enqueued (trace w) = E.

(** The manager's ticks at the clock readings [nows]. *)
Definition ticks (nows : list Z) : list Op :=
  (fun now => OpKeepalive now KEEPALIVE_INTERVAL) <$> nows.

(** A tunnel whose peer has answered: one [Pong] on the fresh tunnel. *)
Definition answered : World := run [OpMessage (frame [2])] fresh.

(** An egress socket object once [onClosed] or [onError] has been through
    it: closed, without host socket, nothing queued. *)
Definition closed_socket (o : Socketb.t) : Socketb.t :=
  Socketb.mk (Socketb.address o) (Socketb.evtCallback o) STATE_CLOSED None []
             (Socketb.inSending o).

(** [busy] once the peer has closed request [(0, 7)]. *)
Definition released : World := run [OpMessage (frame [5; 0; 0; 7; 0])] busy.

(** How slot [r] of the table relates to the heap of sockets: a stored
    [idx] is the slot's own position; a slot in use carries its position
    and a tag that fit sixteen bits; an attached socket exists, belongs to
    a slot in use, and calls back into this slot. *)
Definition tied (socks : list Socketb.t) (r : nat) (req : Request.t) : Prop :=
  (forall i, Request.idx req = Some i -> i = Z.of_nat r) /\
  (Request.isUsed req = Some true ->
     Request.idx req = Some (Z.of_nat r) /\ Z.of_nat r <= 65535 /\
     0 <= Request.tag req <= 65535) /\
  (forall s, Request.socketb req = Some s ->
     Request.isUsed req = Some true /\
     exists o, socks !! s = Some o /\ Socketb.evtCallback o = r).

Definition owned (w : World) : Prop :=
  forall r req, table w !! r = Some req -> tied (sockets w) r req.

(** The tunnel ids handed to [mgr.onTunnelClosed], and the number of
    [websocket.close()] calls made on the host. *)
Definition notified (t : list Effect) : list Z :=
  omap (fun e => match e with EvTunnelClosed id => Some id | _ => None end) t.

Definition host_closes (t : list Effect) : nat :=
  length (omap (fun e => match e with EvWsClose => Some tt | _ => None end) t).

(** ** tunmgr.js: the manager *)

(** [this.tunnels] is an object keyed by the tunnel index.  Its entries
    are enumerated in ascending key order, so it is kept as an association
    list in that order; a tunnel object is named by its creation rank. *)
Fixpoint js_put (k : Z) (v : nat) (l : list (Z * nat)) : list (Z * nat) :=
  match l with
  | [] => [(k, v)]
  | (k', v') :: l' =>
      if k <? k' then (k, v) :: l
      else if k =? k' then (k, v) :: l'
      else (k', v') :: js_put k v l'
  end.

Definition js_delete (k : Z) (l : list (Z * nat)) : list (Z * nat) :=
  filter (fun p => p.1 <> k) l.

Module TunMgr.
Record t := mk {
  tunnels : list (Z * nat);
  index : Z;
  keepalive : bool;
}.

Definition new : t := mk [] 0 false.
End TunMgr.

(** The manager, the tunnel objects constructed so far, each with the
    world of its requests and sockets, and the number of intervals the
    manager has asked the host for. *)
Record Scene := mkScene {
  mgr : TunMgr.t;
  objects : list World;
  intervals : nat;
}.

Definition start : Scene := mkScene TunMgr.new [] 0.

(** The responses of [TunMgr.fetch]: status 426, or status 101 carrying
    the client end of the pair whose server end went to tunnel [tun]. *)
Inductive Response :=
| Response426
| Response101 (tun : nat).

(** [fetch(request)], with [upgradeHeader] what [request.headers.get]
    returned and [now] the clock reading the [Tunnel] constructor takes. *)
Definition TunMgr_fetch (upgradeHeader : option string) (now : Z) (sc : Scene)
  : Response * Scene :=
  let refused :=
    match upgradeHeader with
    | None => true
    | Some h => bool_decide (h = "") || negb (bool_decide (h = "websocket"))
    end in
  if refused then (Response426, sc)
  else
    let m := mgr sc in
    let index := TunMgr.index m in
    let tun := length (objects sc) in
    (Response101 tun,
     mkScene (TunMgr.mk (js_put index tun (TunMgr.tunnels m)) (index + 1) true)
             (objects sc ++ [boot index 100 now])
             (if TunMgr.keepalive m then intervals sc else S (intervals sc))).

Definition TunMgr_onTunnelClosed (id : Z) (m : TunMgr.t) : TunMgr.t :=
  TunMgr.mk (js_delete id (TunMgr.tunnels m)) (TunMgr.index m) (TunMgr.keepalive m).

(** An event of tunnel object [r].  The calls of [mgr.onTunnelClosed] its
    handler made are carried out on the manager. *)
Definition deliver (r : nat) (o : Op) (sc : Scene) : Scene :=
  match objects sc !! r with
  | None => sc
  | Some w =>
      let w' := step w o in
      mkScene (foldl (fun m id => TunMgr_onTunnelClosed id m) (mgr sc)
                     (notified (drop (length (trace w)) (trace w'))))
              (<[r := w']> (objects sc))
              (intervals sc)
  end.

(** The body of the interval callback: [keepalive] on each entry in turn;
    an exception would leave the loop. *)
Fixpoint tick_loop (now : Z) (entries : list (Z * nat)) (objs : list World)
  : list World :=
  match entries with
  | [] => objs
  | (_, r) :: rest =>
      match objs !! r with
      | None => objs
      | Some w =>
          match Tunnel_keepalive now KEEPALIVE_INTERVAL w with
          | (Return _, w') => tick_loop now rest (<[r := w']> objs)
          | (Throw _, w') => <[r := w']> objs
          end
      end
  end.

Definition interval_callback (now : Z) (sc : Scene) : Scene :=
  mkScene (mgr sc) (tick_loop now (TunMgr.tunnels (mgr sc)) (objects sc))
          (intervals sc).

(** What the manager meets: a request, a firing of its interval, or an
    event of one of its tunnels (whose ticks come through the interval
    only). *)
Inductive MgrOp :=
| MFetch (upgradeHeader : option string) (now : Z)
| MTick (now : Z)
| MEvent (r : nat) (o : Op).

Definition mgr_step (sc : Scene) (o : MgrOp) : Scene :=
  match o with
  | MFetch h now => snd (TunMgr_fetch h now sc)
  | MTick now =>
      if bool_decide (0 < intervals sc)%nat then interval_callback now sc else sc
  | MEvent r (OpKeepalive _ _) => sc
  | MEvent r o => deliver r o sc
  end.

Definition mgr_run (ops : list MgrOp) (sc : Scene) : Scene := foldl mgr_step sc ops.

(** The registry files every tunnel under its creation rank, which is
    also its id; ranks are below [index], and the interval exists once
    the first tunnel does. *)
Definition registry_ok (sc : Scene) : Prop :=
  TunMgr.index (mgr sc) = Z.of_nat (length (objects sc)) /\
  (forall k r, (k, r) ∈ TunMgr.tunnels (mgr sc) ->
     k = Z.of_nat r /\ (r < length (objects sc))%nat) /\
  NoDup (TunMgr.tunnels (mgr sc)).*1 /\
  (forall r w, objects sc !! r = Some w ->
     Tunnel.id (tunnel w) = Z.of_nat r /\ Tunnel.reqCap (tunnel w) = 100 /\
     reachable w) /\
  TunMgr.keepalive (mgr sc) = bool_decide (0 < length (objects sc))%nat /\
  intervals sc = (if TunMgr.keepalive (mgr sc) then 1 else 0)%nat.

(** * Properties *)

Section Preservation.
Context (P : World -> Prop).

Lemma preserves_ret {A} (a : A) : preserves P (ret a).
Proof. intros w Hw. exact Hw. Qed.

Lemma preserves_throw {A} (e : JsError) : preserves P (@throw A e).
Proof. intros w Hw. exact Hw. Qed.

Lemma preserves_unbound {A} (name : string) : preserves P (@unbound A name).
Proof. apply preserves_throw. Qed.

Lemma preserves_gets {A} (f : World -> A) : preserves P (gets f).
Proof. intros w Hw. exact Hw. Qed.

Lemma preserves_read {A} (m : M A) : pure_read m -> preserves P m.
Proof. intros Hm w Hw. rewrite Hm. exact Hw. Qed.

Lemma preserves_update (f : World -> World) :
  (forall w, P w -> P (f w)) -> preserves P (update f).
Proof. intros Hf w Hw. apply Hf, Hw. Qed.

Lemma preserves_bind {A B} (m : M A) (k : A -> M B) :
  preserves P m -> (forall a, preserves P (k a)) -> preserves P (bind m k).
Proof.
  intros Hm Hk w Hw. unfold bind.
  specialize (Hm w Hw). destruct (m w) as [[a|e] w']; simpl in *.
  - apply Hk, Hm.
  - exact Hm.
Qed.

Lemma preserves_try_catch {A} (m : M A) (h : JsError -> M A) :
  preserves P m -> (forall e, preserves P (h e)) -> preserves P (try_catch m h).
Proof.
  intros Hm Hh w Hw. unfold try_catch.
  specialize (Hm w Hw). destruct (m w) as [[a|e] w']; simpl in *.
  - exact Hm.
  - apply Hh, Hm.
Qed.

Lemma preserves_for_each {A} (l : list A) (body : A -> M unit) :
  (forall x, preserves P (body x)) -> preserves P (for_each l body).
Proof.
  intros Hb. induction l as [|x l IH]; simpl.
  - apply preserves_ret.
  - apply preserves_bind; [apply Hb | intros _; exact IH].
Qed.
End Preservation.

Lemma the_request_read r : pure_read (the_request r).
Proof. intros w. unfold the_request. destruct (table w !! r); reflexivity. Qed.

Lemma the_socket_read s : pure_read (the_socket s).
Proof. intros w. unfold the_socket. destruct (sockets w !! s); reflexivity. Qed.

Lemma readUInt8_read b off : pure_read (readUInt8 b off).
Proof. intros w. unfold readUInt8. destruct (b !! off); reflexivity. Qed.

Lemma readUInt16LE_read b off : pure_read (readUInt16LE b off).
Proof.
  intros w. unfold readUInt16LE.
  destruct (b !! off); [destruct (b !! S off)|]; reflexivity.
Qed.

Lemma js_member_resolve_read v : pure_read (js_member_resolve v).
Proof. intros w. destruct v; reflexivity. Qed.

Create HintDb keeps discriminated.

(** Walks the syntax of a computation; what is left are the primitive
    updates and the calls registered in [keeps]. *)
Ltac keep_step :=
  lazymatch goal with
  | |- preserves _ (bind _ _) => apply preserves_bind; [| intros ?]
  | |- preserves _ (ret _) => apply preserves_ret
  | |- preserves _ (throw _) => apply preserves_throw
  | |- preserves _ (unbound _) => apply preserves_unbound
  | |- preserves _ (gets _) => apply preserves_gets
  | |- preserves _ (the_tunnel _) => apply preserves_gets
  | |- preserves _ the_cap => apply preserves_gets
  | |- preserves _ (the_request _) => apply preserves_read, the_request_read
  | |- preserves _ (the_socket _) => apply preserves_read, the_socket_read
  | |- preserves _ (readUInt8 _ _) => apply preserves_read, readUInt8_read
  | |- preserves _ (readUInt16LE _ _) => apply preserves_read, readUInt16LE_read
  | |- preserves _ (js_member_resolve _) =>
      apply preserves_read, js_member_resolve_read
  | |- preserves _ (try_catch _ _) => apply preserves_try_catch; [| intros ?]
  | |- preserves _ (async_call _) => apply preserves_try_catch; [| intros ?]
  | |- preserves _ (for_each _ _) => apply preserves_for_each; intros ?
  | |- preserves _ (if ?b then _ else _) => destruct b
  | |- preserves _ (match ?x with _ => _ end) => destruct x
  end.

Ltac head_of t :=
  lazymatch t with
  | ?f _ => head_of f
  | _ => t
  end.

Ltac keep_with tac :=
  repeat first
    [ keep_step
    | solve [eauto with keeps]
    | apply preserves_update; intros ? ?; solve [tac]
    | lazymatch goal with
      | |- preserves _ ?m => let h := head_of m in progress unfold h
      end ].

(** ** The constructor's flag is never set *)

Ltac unflagged_update :=
  unfold unflagged, table, host_readyState in *; cbn in *;
  repeat case_match; cbn;
  first [ assumption
        | apply Forall_alter; [assumption | intros [] ? ?; cbn in *; assumption] ].

Lemma handler_keeps_unflagged o : preserves unflagged (handler o).
Proof. destruct o; keep_with unflagged_update. Qed.

Lemma boot_unflagged id cap now : unflagged (boot id cap now).
Proof.
  unfold unflagged, table, boot; cbn.
  apply Forall_fmap, Forall_forall. intros; reflexivity.
Qed.

Lemma run_snoc ops o w : run (ops ++ [o]) w = step (run ops w) o.
Proof. unfold run. apply foldl_snoc. Qed.

Lemma run_invariant (P : World -> Prop) :
  (forall o, preserves P (handler o)) ->
  forall ops w, P w -> P (run ops w).
Proof.
  intros Hstep ops. induction ops as [|o ops IH]; intros w Hw; simpl.
  - exact Hw.
  - apply IH. apply (Hstep o w Hw).
Qed.

Lemma run_app ops ops' w : run (ops ++ ops') w = run ops' (run ops w).
Proof. unfold run. apply foldl_app. Qed.

Lemma reachable_run ops w : reachable w -> reachable (run ops w).
Proof.
  intros (ops0 & id & cap & now & ->).
  exists (ops0 ++ ops), id, cap, now. by rewrite run_app.
Qed.

Lemma reachable_boot id cap now : reachable (boot id cap now).
Proof. by exists [], id, cap, now. Qed.

Lemma reachable_unflagged ops id cap now : unflagged (run ops (boot id cap now)).
Proof. apply run_invariant; [apply handler_keeps_unflagged | apply boot_unflagged]. Qed.

(** ** The request table *)

Lemma alter_as_insert {A} (f : A -> A) (l : list A) (i : nat) (x : A) :
  l !! i = Some x -> alter f i l = <[i := f x]> l.
Proof.
  revert i. induction l as [|y l IH]; intros [|i] H; simplify_eq/=; try done.
  f_equal. by apply IH.
Qed.

Lemma alter_after_insert {A} (f : A -> A) (l : list A) (i : nat) (x : A) :
  (i < length l)%nat -> alter f i (<[i := x]> l) = <[i := f x]> l.
Proof.
  intros Hi. rewrite (alter_as_insert f _ i x) by by apply list_lookup_insert_eq.
  apply list_insert_insert_eq.
Qed.

(** [Socketb.close] swallows its own exceptions and touches neither the
    tunnel nor the socket objects. *)
Lemma Socketb_close_spec s w :
  exists t, Socketb_close s w =
            (Return tt, mkWorld (tunnel w) (sockets w) (clock w) (promises w)
                                (resolved w) (drainers w) (trace w ++ t)).
Proof.
  unfold Socketb_close, try_catch, bind, the_socket.
  destruct (sockets w !! s) as [o|]; cbn.
  - destruct (Socketb.sock o); cbn.
    + by exists [EvSockClose s].
    + exists []. rewrite app_nil_r. by destruct w.
  - by exists [EvLog "Socketb close exception:"].
Qed.

Lemma Request_free_spec r req w :
  table w !! r = Some req ->
  outcome (Request_free r) w = Return tt /\
  table (exec (Request_free r) w) = <[r := Request.set_socketb None req]> (table w) /\
  cap_of (exec (Request_free r) w) = cap_of w.
Proof.
  intros Hr. unfold outcome, exec, Request_free, bind, the_request. rewrite Hr.
  destruct (Request.socketb req) as [s|] eqn:Hs.
  - destruct (Socketb_close_spec s w) as [t ->]. cbn.
    repeat split. unfold table in *; cbn. by apply alter_as_insert.
  - cbn. repeat split. symmetry. apply list_insert_id.
    rewrite Hr. f_equal. destruct req; cbn in *; by subst.
Qed.

Lemma release_spec r req w :
  table w !! r = Some req ->
  outcome (release r) w = Return tt /\
  table (exec (release r) w) =
    <[r := Request.mk (Request.tag req + 1) (Request.inUsed req) (Some false)
                      (Request.idx req) None]> (table w) /\
  cap_of (exec (release r) w) = cap_of w.
Proof.
  intros Hr. unfold release, modify_request.
  set (w1 := set_table (alter (Request.set_isUsed (Some false)) r)
               (set_table (alter (fun o => Request.set_tag (Request.tag o + 1) o) r) w)).
  assert (Hw1 : table w1 =
                <[r := Request.mk (Request.tag req + 1) (Request.inUsed req)
                                  (Some false) (Request.idx req)
                                  (Request.socketb req)]> (table w)).
  { unfold w1, table in *; cbn.
    rewrite (alter_as_insert _ _ _ _ Hr).
    by rewrite alter_after_insert by (eapply lookup_lt_Some, Hr). }
  assert (Hl : table w1 !! r =
               Some (Request.mk (Request.tag req + 1) (Request.inUsed req)
                                (Some false) (Request.idx req)
                                (Request.socketb req))).
  { rewrite Hw1. apply list_lookup_insert_eq. eapply lookup_lt_Some, Hr. }
  destruct (Request_free_spec r _ w1 Hl) as (Ho & Ht & Hc).
  unfold outcome, exec, bind, update in *; cbn. fold w1.
  destruct (Request_free r w1) as [res w2]; cbn in *. subst res.
  repeat split; [|exact Hc].
  rewrite Ht, Hw1. by rewrite list_insert_insert_eq.
Qed.

(** [alloc] beyond the table: nothing but the log line. *)
Lemma alloc_out_of_range idx tag w :
  out_of_range (cap_of w) idx = true ->
  ReqMgr_alloc idx tag w =
    (Return None, emit (EvLog "reqmgr.alloc idx exceed cap, idx:") w).
Proof.
  intros H. unfold ReqMgr_alloc, bind, the_cap, gets; cbn.
  fold (cap_of w). by rewrite H.
Qed.

(** [alloc] inside the table, on a slot whose constructor flag is clear:
    the slot is taken, whatever [isUsed] says. *)
Lemma alloc_in_range idx tag req w :
  out_of_range (cap_of w) idx = false ->
  table w !! Z.to_nat idx = Some req ->
  Request.inUsed req = false ->
  outcome (ReqMgr_alloc idx tag) w = Return (Some (Z.to_nat idx)) /\
  table (exec (ReqMgr_alloc idx tag) w) =
    <[Z.to_nat idx := Request.mk tag false (Some true) (Some idx)
                                 (Request.socketb req)]> (table w) /\
  cap_of (exec (ReqMgr_alloc idx tag) w) = cap_of w.
Proof.
  intros Hrange Hr Hflag.
  unfold outcome, exec, ReqMgr_alloc, bind, the_cap, gets, the_request,
    modify_request, update; cbn.
  fold (cap_of w). rewrite Hrange, Hr, Hflag. cbn.
  repeat split. unfold table in *; cbn.
  rewrite (alter_as_insert _ _ _ _ Hr).
  rewrite !alter_after_insert by (eapply lookup_lt_Some, Hr).
  cbn. by rewrite <- Hflag.
Qed.

Lemma get_spec idx tag req w :
  out_of_range (cap_of w) idx = false ->
  table w !! Z.to_nat idx = Some req ->
  ReqMgr_get idx tag w =
    if negb (truthy (Request.isUsed req)) then
      (Return None, emit (EvLog "reqmgr.get request is not in used, idx:") w)
    else if negb (Request.tag req =? tag) then
      (Return None, emit (EvLog "reqmgr.get request tag is not match, idx:") w)
    else (Return (Some (Z.to_nat idx)), w).
Proof.
  intros Hrange Hr.
  unfold ReqMgr_get, bind, the_cap, gets, the_request; cbn.
  fold (cap_of w). rewrite Hrange, Hr.
  destruct (truthy (Request.isUsed req)); cbn; [|done].
  by destruct (Request.tag req =? tag).
Qed.

Lemma free_spec idx tag req w :
  out_of_range (cap_of w) idx = false ->
  table w !! Z.to_nat idx = Some req ->
  truthy (Request.isUsed req) = true ->
  Request.tag req = tag ->
  outcome (ReqMgr_free idx tag) w = Return tt /\
  table (exec (ReqMgr_free idx tag) w) =
    <[Z.to_nat idx := Request.mk (tag + 1) (Request.inUsed req) (Some false)
                                 (Request.idx req) None]> (table w) /\
  cap_of (exec (ReqMgr_free idx tag) w) = cap_of w.
Proof.
  intros Hrange Hr Hused Htag.
  destruct (release_spec _ _ w Hr) as (Ho & Ht & Hc).
  unfold outcome, exec, ReqMgr_free, bind, the_cap, gets, the_request in *; cbn.
  fold (cap_of w). rewrite Hrange, Hr, Hused, Htag, Z.eqb_refl. cbn.
  rewrite <- Htag. auto.
Qed.

Lemma reachable_is_unflagged w : reachable w -> unflagged w.
Proof. intros (ops & id & cap & now & ->). apply reachable_unflagged. Qed.

(** C1 (the code departs from it).  The claim has [alloc] return null on a
    slot that is in use.  [alloc] tests [inUsed], which only the
    constructor writes, and marks the slot through [isUsed]: on a slot in
    range that an earlier [alloc] has marked, it succeeds again, returns
    the slot and overwrites its tag, keeping the egress socket of the
    request it displaced. *)
Theorem alloc_takes_slot_in_use w idx tag req :
  out_of_range (cap_of w) idx = false ->
  table w !! Z.to_nat idx = Some req ->
  Request.inUsed req = false ->
  Request.isUsed req = Some true ->
  outcome (ReqMgr_alloc idx tag) w = Return (Some (Z.to_nat idx)) /\
  table (exec (ReqMgr_alloc idx tag) w) !! Z.to_nat idx =
    Some (Request.mk tag false (Some true) (Some idx) (Request.socketb req)).
Proof.
  intros Hrange Hr Hflag _.
  destruct (alloc_in_range idx tag req w Hrange Hr Hflag) as (Ho & Ht & _).
  split; [exact Ho|]. rewrite Ht.
  apply list_lookup_insert_eq. eapply lookup_lt_Some, Hr.
Qed.

Lemma alloc_takes_slot_in_use_at_busy :
  outcome (ReqMgr_alloc 0 9) busy = Return (Some 0%nat) /\
  table (exec (ReqMgr_alloc 0 9) busy) !! 0%nat =
    Some (Request.mk 9 false (Some true) (Some 0) (Some 0%nat)).
Proof.
  apply (alloc_takes_slot_in_use busy 0 9
           (Request.mk 7 false (Some true) (Some 0) (Some 0%nat)));
    reflexivity.
Defined.

(** The same through the wire: a second [ReqCreated] for slot 0 re-tags
    the live request from 7 to 9 and leaves it on its first socket. *)
Example second_created_retags_live_slot :
  table (run [OpMessage created_domain_0_9] busy) !! 0%nat =
    Some (Request.mk 9 false (Some true) (Some 0) (Some 0%nat)) /\
  sockets (run [OpMessage created_domain_0_9] busy) = sockets busy.
Proof. split; reflexivity. Qed.

(** ** [cleanup] *)

Lemma cleanup_slot_skips i w : unflagged w -> snd (cleanup_slot i w) = w.
Proof.
  intros Hw. unfold cleanup_slot, bind, the_request.
  destruct (table w !! Z.to_nat i) as [req|] eqn:Hr; cbn; [|done].
  unfold unflagged in Hw. rewrite Forall_lookup in Hw.
  by rewrite (Hw _ _ Hr).
Qed.

Lemma for_each_cleanup_slot l w :
  unflagged w -> snd (for_each l cleanup_slot w) = w.
Proof.
  intros Hw. induction l as [|i l IH]; cbn; [done|].
  unfold bind. pose proof (cleanup_slot_skips i w Hw) as Hi.
  destruct (cleanup_slot i w) as [[[]|e] w']; cbn in *; subst w'; done.
Qed.

Lemma cleanup_skips_all w : unflagged w -> exec ReqMgr_cleanup w = w.
Proof.
  intros Hw. unfold exec, ReqMgr_cleanup, bind, the_cap, gets; cbn.
  by apply for_each_cleanup_slot.
Qed.

(** C2 (the code departs from it).  The claim has [cleanup] bump the tag
    of every slot in use, clear its flag and close its socket.  The loop
    tests [inUsed], which no slot ever carries: on every table whose
    slots have that flag clear, [cleanup] changes nothing at all. *)
Theorem cleanup_frees_nothing w :
  unflagged w -> exec ReqMgr_cleanup w = w.
Proof. apply cleanup_skips_all. Qed.

Lemma cleanup_frees_nothing_at_busy :
  table busy !! 0%nat = Some (Request.mk 7 false (Some true) (Some 0) (Some 0%nat)) /\
  exec ReqMgr_cleanup busy = busy.
Proof.
  split; [reflexivity|].
  apply (cleanup_frees_nothing busy). repeat constructor.
Defined.

(** Through the close event: the request of [busy] outlives the tunnel,
    still marked in use under tag 7, and its socket is never closed. *)
Example close_leaves_request_open :
  table (run [OpClose] busy) = table busy /\
  trace (run [OpClose] busy) =
    [EvConnect 0 "a.b:80"; EvLog "closeHandler, id:"; EvTunnelClosed 0; EvWsClose].
Proof. split; reflexivity. Qed.

Lemma cleanup_idle_on_running_tunnel w :
  reachable w -> exec ReqMgr_cleanup w = w.
Proof. intros Hw. apply cleanup_skips_all, reachable_is_unflagged, Hw. Qed.

(** ** [free], then [get] and [alloc] *)

(** C8.  On the table of a running tunnel, after [free(idx, tag)] on a
    slot in range, in use and carrying [tag]: [get(idx, tag)] returns
    null; [alloc(idx, tag')] with [tag' <> tag] returns the slot, now in
    use under [tag'] and without a socket; and [get(idx, tag)] still
    returns null after that. *)
Theorem stale_tag_rejected_after_free w idx tag tag' req :
  reachable w ->
  out_of_range (cap_of w) idx = false ->
  table w !! Z.to_nat idx = Some req ->
  truthy (Request.isUsed req) = true ->
  Request.tag req = tag ->
  tag' <> tag ->
  let w1 := exec (ReqMgr_free idx tag) w in
  let w2 := exec (ReqMgr_alloc idx tag') w1 in
  outcome (ReqMgr_get idx tag) w1 = Return None /\
  outcome (ReqMgr_alloc idx tag') w1 = Return (Some (Z.to_nat idx)) /\
  table w2 !! Z.to_nat idx =
    Some (Request.mk tag' false (Some true) (Some idx) None) /\
  outcome (ReqMgr_get idx tag) w2 = Return None.
Proof.
  intros Hreach Hrange Hr Hused Htag Hne w1 w2.
  pose proof (reachable_is_unflagged w Hreach) as Hflags.
  assert (Hflag : Request.inUsed req = false).
  { unfold unflagged in Hflags. rewrite Forall_lookup in Hflags. eauto. }
  assert (Hlen : (Z.to_nat idx < length (table w))%nat)
    by (eapply lookup_lt_Some, Hr).
  destruct (free_spec idx tag req w Hrange Hr Hused Htag) as (_ & Ht1 & Hc1).
  fold w1 in Ht1, Hc1.
  assert (Hr1 : table w1 !! Z.to_nat idx =
                Some (Request.mk (tag + 1) (Request.inUsed req) (Some false)
                                 (Request.idx req) None)).
  { rewrite Ht1. by apply list_lookup_insert_eq. }
  assert (Hrange1 : out_of_range (cap_of w1) idx = false) by by rewrite Hc1.
  destruct (alloc_in_range idx tag' _ w1 Hrange1 Hr1 Hflag) as (Ho2 & Ht2 & Hc2).
  fold w2 in Ht2, Hc2.
  assert (Hr2 : table w2 !! Z.to_nat idx =
                Some (Request.mk tag' false (Some true) (Some idx) None)).
  { rewrite Ht2. apply list_lookup_insert_eq.
    rewrite Ht1, length_insert. exact Hlen. }
  assert (Hrange2 : out_of_range (cap_of w2) idx = false) by by rewrite Hc2.
  repeat split.
  - unfold outcome. by rewrite (get_spec idx tag _ w1 Hrange1 Hr1).
  - exact Ho2.
  - exact Hr2.
  - unfold outcome. rewrite (get_spec idx tag _ w2 Hrange2 Hr2). cbn.
    destruct (Z.eqb_spec tag' tag); [contradiction | done].
Qed.

Lemma stale_tag_rejected_after_free_at_busy :
  outcome (ReqMgr_get 0 7) (exec (ReqMgr_free 0 7) busy) = Return None /\
  outcome (ReqMgr_alloc 0 9) (exec (ReqMgr_free 0 7) busy) = Return (Some 0%nat) /\
  table (exec (ReqMgr_alloc 0 9) (exec (ReqMgr_free 0 7) busy)) !! 0%nat =
    Some (Request.mk 9 false (Some true) (Some 0) None) /\
  outcome (ReqMgr_get 0 7) (exec (ReqMgr_alloc 0 9) (exec (ReqMgr_free 0 7) busy))
    = Return None.
Proof.
  apply (stale_tag_rejected_after_free busy 0 7 9
           (Request.mk 7 false (Some true) (Some 0) (Some 0%nat))).
  - apply reachable_run, reachable_boot.
  - reflexivity.
  - reflexivity.
  - reflexivity.
  - reflexivity.
  - lia.
Defined.

(** ** Completion signals *)

Lemma callSendBufResolve_spec sendBuf w :
  Tunnel_callSendBufResolve sendBuf w =
    (Return tt, emit (EvLog "Tunnel.callSendBufResolve, resolve exception:") w).
Proof.
  unfold Tunnel_callSendBufResolve, try_catch, bind.
  by destruct (resolve sendBuf).
Qed.

Lemma callSendBufResolve_keeps (P : World -> Prop) sendBuf :
  (forall e w, P w -> P (emit e w)) ->
  preserves P (Tunnel_callSendBufResolve sendBuf).
Proof. intros HP w Hw. rewrite callSendBufResolve_spec. by apply HP. Qed.

Lemma callSendBufResolve_keeps_frozen R sendBuf :
  preserves (frozen R) (Tunnel_callSendBufResolve sendBuf).
Proof. by apply callSendBufResolve_keeps. Qed.

#[local] Hint Resolve callSendBufResolve_keeps_frozen : keeps.

Ltac frozen_update :=
  unfold frozen, host_readyState in *; cbn in *; repeat case_match; cbn;
  assumption.

Lemma handler_keeps_frozen R o : preserves (frozen R) (handler o).
Proof. destruct o; keep_with frozen_update. Qed.

Lemma onClosed_keeps_frozen R : preserves (frozen R) Tunnel_onClosed.
Proof. keep_with frozen_update. Qed.

Lemma reachable_none_resolved w : reachable w -> resolved w = ∅.
Proof.
  intros (ops & id & cap & now & ->).
  apply (run_invariant (frozen ∅)); [apply handler_keeps_frozen | done].
Qed.

Lemma for_each_resolve_returns q w :
  fst (for_each q Tunnel_callSendBufResolve w) = Return tt.
Proof.
  revert w. induction q as [|e q IH]; intros w; cbn; [done|].
  unfold bind. rewrite callSendBufResolve_spec. apply IH.
Qed.

Ltac queue_update :=
  unfold queue, host_readyState in *; cbn in *; repeat case_match; cbn;
  assumption.

(** C4 (the code departs from it).  The claim has the close sequence
    resolve the completion signal of every queued entry.  [onClosed] does
    empty the queue, but [callSendBufResolve] calls [sendBuf.resolve.resolve],
    a property the resolving function does not have; the [TypeError] is
    caught and logged, and the set of resolved signals is after the close
    sequence what it was before. *)
Theorem onClosed_resolves_nothing w :
  resolved (exec Tunnel_onClosed w) = resolved w /\
  queue (exec Tunnel_onClosed w) = [].
Proof.
  split.
  - by apply (onClosed_keeps_frozen (resolved w)).
  - unfold exec, Tunnel_onClosed, bind at 1, the_tunnel, gets. cbn.
    unfold bind at 1.
    pose proof (for_each_resolve_returns (Tunnel.sendBufs (tunnel w)) w) as Hr.
    destruct (for_each _ _ w) as [res w1]; cbn in Hr; subst res.
    unfold bind at 1, update at 1.
    set (w2 := set_tunnel (Tunnel.set_sendBufs []) w1).
    assert (Hq : queue w2 = []) by done.
    revert Hq. generalize w2.
    change (preserves (fun w => queue w = [])
              (ReqMgr_cleanup ;;;
               let* id := the_tunnel Tunnel.id in
               update (emit (EvTunnelClosed id)) ;;; Tunnel_close)).
    keep_with queue_update.
Qed.

(** At the failing input: the entry queued in [stalled] holds promise 1;
    after the close event the queue is empty, the socket is gone, and
    promise 1 is not resolved. *)
Example close_leaves_queued_signal_pending :
  resolve <$> queue stalled = [VResolveFn 1] /\
  queue (run [OpClose] stalled) = [] /\
  Tunnel.websocket (tunnel (run [OpClose] stalled)) = None /\
  1%nat ∉ resolved (run [OpClose] stalled).
Proof.
  split; [reflexivity|]. split; [reflexivity|]. split; [reflexivity|].
  rewrite reachable_none_resolved; [apply not_elem_of_empty|].
  do 2 apply reachable_run. apply reachable_boot.
Qed.

(** The same for an entry that did go out: a ping is enqueued (promise
    0), sent, and its drainer runs to the end; then the socket closes.
    Promise 0 is not resolved. *)
Example sent_signal_stays_pending :
  promises (run [OpKeepalive 11001 KEEPALIVE_INTERVAL; OpResume; OpClose] fresh)
    = 1%nat /\
  Tunnel.websocket
    (tunnel (run [OpKeepalive 11001 KEEPALIVE_INTERVAL; OpResume; OpClose] fresh))
    = None /\
  0%nat ∉ resolved (run [OpKeepalive 11001 KEEPALIVE_INTERVAL; OpResume; OpClose] fresh).
Proof.
  split; [reflexivity|]. split; [reflexivity|].
  rewrite reachable_none_resolved; [apply not_elem_of_empty|].
  apply reachable_run, reachable_boot.
Qed.

(** ** Keepalive *)

Ltac deaf_update :=
  unfold deaf in *; cbn in *; assumption.

#[local] Hint Resolve callSendBufResolve_keeps : keeps.

Lemma send_keeps_deaf b : preserves deaf (Tunnel_send b).
Proof. keep_with deaf_update. Qed.

Lemma run_parked_keeps_deaf : preserves deaf run_parked.
Proof. keep_with deaf_update. Qed.

Lemma sendPingMessage_keeps_deaf :
  preserves deaf (async_call Tunnel_sendPingMessage).
Proof. keep_with deaf_update. Qed.

Lemma keepalive_keeps_deaf now throttle :
  preserves deaf (Tunnel_keepalive now throttle).
Proof.
  intros w Hw. pose proof Hw as (Hgt & _ & _).
  unfold Tunnel_keepalive, bind at 1, the_tunnel at 1, gets. cbn.
  rewrite Hgt. unfold bind at 1, the_tunnel at 1, gets. cbn.
  destruct (throttle <? now - Tunnel.lastActivate (tunnel w)); [|by cbn].
  unfold bind at 1.
  pose proof (sendPingMessage_keeps_deaf w Hw) as Hw'.
  destruct (async_call Tunnel_sendPingMessage w) as [[[]|e] w']; cbn in *;
    [|exact Hw'].
  destruct Hw' as (_ & Hincr & Hws). unfold deaf; cbn.
  rewrite Hincr. by repeat split.
Qed.

Lemma silent_step_keeps_deaf o : silent o = true -> preserves deaf (handler o).
Proof.
  destruct o; try discriminate; intros _; cbn [handler].
  - apply keepalive_keeps_deaf.
  - apply run_parked_keeps_deaf.
  - keep_with deaf_update.
  - keep_with deaf_update.
  - keep_with deaf_update.
  - keep_with deaf_update.
  - keep_with deaf_update.
  - apply preserves_update. intros w Hw. exact Hw.
Qed.

Lemma boot_deaf id cap now : deaf (boot id cap now).
Proof. by repeat split. Qed.

(** C3 (the code departs from it).  The claim has a fresh tunnel that
    hears nothing closed on the tick after its fourth missed ping.  The
    constructor leaves [waitingPing] unset: the first increment turns it
    into [NaN], the test [waitingPing > 3] never succeeds, and however
    many ticks go by without inbound traffic, the socket stays in place
    and open. *)
Theorem fresh_tunnel_outlives_missed_pings ops id cap t0 :
  forallb silent ops = true ->
  Tunnel.websocket (tunnel (run ops (boot id cap t0))) =
    Some (mkWebSocket READY_STATE_OPEN).
Proof.
  intros Hops.
  enough (H : deaf (run ops (boot id cap t0))) by apply H.
  generalize (boot_deaf id cap t0). generalize (boot id cap t0).
  induction ops as [|o ops IH]; intros w Hw; [exact Hw|].
  cbn in Hops. apply andb_prop in Hops as [Ho Hops].
  cbn. apply IH; [exact Hops|].
  by apply silent_step_keeps_deaf.
Qed.

Lemma fresh_tunnel_outlives_six_ticks :
  Tunnel.websocket (tunnel (run six_ticks (boot 0 100 1000))) =
    Some (mkWebSocket READY_STATE_OPEN).
Proof. apply (fresh_tunnel_outlives_missed_pings six_ticks 0 100 1000). reflexivity. Defined.

(** The counter on those six ticks: [NaN] from the first one on, with six
    pings queued or sent. *)
Example six_ticks_count_nothing :
  Tunnel.waitingPing (tunnel (run six_ticks (boot 0 100 1000))) = NNaN /\
  length (enqueued (trace (run six_ticks (boot 0 100 1000)))) = 6%nat.
Proof. split; reflexivity. Qed.

(** Once a pong has set the counter to a number, the test works: four
    pings go out and the fifth tick closes the socket. *)
Example counter_works_after_a_pong :
  Tunnel.websocket (tunnel (run (OpMessage (frame [2]) :: take 4 six_ticks)
                                (boot 0 100 1000))) =
    Some (mkWebSocket READY_STATE_OPEN) /\
  Tunnel.websocket (tunnel (run (OpMessage (frame [2]) :: take 5 six_ticks)
                                (boot 0 100 1000))) = None.
Proof. split; reflexivity. Qed.

(** ** The egress socket's [write] *)

Lemma write_closed_discards w s o chunk :
  sockets w !! s = Some o ->
  Socketb.isClosed o = true ->
  Socketb_write s chunk w = (Return tt, w).
Proof.
  intros Hs Hc. unfold Socketb_write, bind, the_socket. by rewrite Hs, Hc.
Qed.

(** C5 (the code departs from it).  The claim has [write] on a socket that
    is not closed start the drainer when none is running.  [write] does
    append the chunk, but [startSendLoop] then calls the bare identifier
    [writeLoop], which nothing binds: the call raises [ReferenceError]
    out of [write], no drainer starts, and no chunk reaches the stream. *)
Theorem write_never_starts_drainer w s o chunk :
  sockets w !! s = Some o ->
  Socketb.isClosed o = false ->
  Socketb.inSending o = false ->
  Socketb_write s chunk w =
    (Throw (ReferenceError "writeLoop"),
     set_sockets
       (fun h => <[s := Socketb.set_chunks2Send (Socketb.chunks2Send o ++ [chunk]) o]> h)
       w).
Proof.
  intros Hs Hc Hi.
  set (o' := Socketb.set_chunks2Send (Socketb.chunks2Send o ++ [chunk]) o).
  set (w' := set_sockets (fun h => <[s := o']> h) w).
  assert (Hs' : sockets w' !! s = Some o').
  { cbn. apply list_lookup_insert_eq. eapply lookup_lt_Some, Hs. }
  unfold Socketb_write, modify_socket, bind at 1, the_socket at 1.
  rewrite Hs, Hc. unfold bind at 1, update.
  replace (set_sockets (alter _ s) w) with w'
    by (unfold w', set_sockets; by rewrite (alter_as_insert _ _ _ _ Hs)).
  assert (Hi' : Socketb.inSending o' = false) by by rewrite <- Hi.
  unfold Socketb_startSendLoop, bind, the_socket. rewrite Hs', Hi'.
  cbn [negb]. by rewrite Hs', Hi'.
Qed.

Lemma write_never_starts_drainer_at_busy :
  Socketb_write 0 (frame [1; 2; 3]) busy =
    (Throw (ReferenceError "writeLoop"),
     set_sockets
       (fun h => <[0%nat := Socketb.mk "a.b:80" 0 STATE_CONNECTING (Some 0%nat)
                              [frame [1; 2; 3]] false]> h)
       busy).
Proof.
  apply (write_never_starts_drainer busy 0
           (Socketb.mk "a.b:80" 0 STATE_CONNECTING (Some 0%nat) [] false));
    reflexivity.
Defined.

(** No socket object ever has its [inSending] set, so on a running tunnel
    every [write] to a socket that is not closed ends this way. *)
Ltac idle_update :=
  unfold idle_sockets, host_readyState in *; cbn in *; repeat case_match; cbn;
  first [ assumption
        | apply Forall_alter; [assumption | intros [] ? ?; cbn in *; assumption]
        | apply Forall_app; split; [assumption | by repeat constructor] ].

Lemma handler_keeps_idle_sockets o : preserves idle_sockets (handler o).
Proof. destruct o; keep_with idle_update. Qed.

Lemma reachable_idle_sockets w : reachable w -> idle_sockets w.
Proof.
  intros (ops & id & cap & now & ->).
  apply run_invariant; [apply handler_keeps_idle_sockets | constructor].
Qed.

(** Through the wire: [ReqData(0, 7, payload)] for the request created in
    [busy] leaves the message handler by that exception, the payload
    parked in [chunks2Send]. *)
Example data_frame_raises :
  outcome (on_message (frame [3; 0; 0; 7; 0; 1; 2; 3])) busy =
    Throw (ReferenceError "writeLoop") /\
  Socketb.chunks2Send <$> sockets (exec (on_message (frame [3; 0; 0; 7; 0; 1; 2; 3])) busy)
    = [[frame [1; 2; 3]]].
Proof. split; reflexivity. Qed.

(** ** Inbound frames *)

Lemma on_message_unfold data w :
  on_message data w =
    Tunnel_onTunnelMessage data (set_tunnel (Tunnel.set_lastActivate (clock w)) w).
Proof. reflexivity. Qed.

Lemma readUInt8_at b off x w :
  b !! off = Some x -> readUInt8 b off w = (Return (u8 x), w).
Proof. intros H. unfold readUInt8. by rewrite H. Qed.

Lemma readUInt16LE_at b off lo hi w :
  b !! off = Some lo -> b !! S off = Some hi ->
  readUInt16LE b off w = (Return (u8 lo + u8 hi * 2 ^ 8), w).
Proof. intros H1 H2. unfold readUInt16LE. by rewrite H1, H2. Qed.

Lemma readUInt16LE_cases b off w :
  (exists v, readUInt16LE b off w = (Return v, w)) \/
  readUInt16LE b off w = (Throw RangeError, w).
Proof.
  unfold readUInt16LE.
  destruct (b !! off); [destruct (b !! S off)|]; eauto.
Qed.

Lemma lookup_below {A} (l : list A) (i j : nat) (x : A) :
  l !! j = Some x -> (i <= j)%nat -> exists y, l !! i = Some y.
Proof.
  intros Hj Hij. apply lookup_lt_Some in Hj.
  destruct (lookup_lt_is_Some_2 l i) as [y Hy]; [lia | eauto].
Qed.

(** The header of a request frame whose byte 5 exists: command, [idx] and
    [tag] are read, and control reaches the branch for the command. *)
Lemma request_header data c t w :
  data !! 0%nat = Some c ->
  data !! 5%nat = Some t ->
  isRequestCmd (u8 c) = true ->
  exists idx tag,
    Tunnel_onTunnelMessage data w = Tunnel_onRequestMessage (u8 c) data w /\
    readUInt16LE data 1 w = (Return idx, w) /\
    readUInt16LE data 3 w = (Return tag, w).
Proof.
  intros H0 H5 Hc.
  destruct (lookup_below data 1 5 t H5) as [b1 H1]; [lia|].
  destruct (lookup_below data 2 5 t H5) as [b2 H2]; [lia|].
  destruct (lookup_below data 3 5 t H5) as [b3 H3]; [lia|].
  destruct (lookup_below data 4 5 t H5) as [b4 H4]; [lia|].
  exists (u8 b1 + u8 b2 * 2 ^ 8), (u8 b3 + u8 b4 * 2 ^ 8).
  split; [|split; by apply readUInt16LE_at].
  unfold Tunnel_onTunnelMessage, ArrayBuffer_length, js_lt.
  unfold bind at 1. rewrite (readUInt8_at _ _ _ _ H0). by rewrite Hc.
Qed.

Lemma created_frame_dispatch data t w :
  data !! 0%nat = Some Byte.x04 ->
  data !! 5%nat = Some t ->
  exists idx tag,
    Tunnel_onTunnelMessage data w =
      bind (address_block data (u8 t) 6)
           (fun target =>
              match target with
              | None => ret tt
              | Some (domain, port) =>
                  let* req := ReqMgr_alloc idx tag in
                  match req with
                  | None => unbound "err"
                  | Some r => Request_proxy r (domain +:+ ":" +:+ pretty port)
                  end
              end) w.
Proof.
  intros H0 H5.
  destruct (request_header data _ t w H0 H5 eq_refl) as (idx & tag & -> & Hi & Ht).
  exists idx, tag.
  unfold Tunnel_onRequestMessage, bind at 1. rewrite Hi.
  unfold bind at 1. rewrite Ht.
  change (u8 "004" =? CMD_ReqCreated) with true. cbv iota.
  unfold Tunnel_onRequestCreated, bind at 1.
  by rewrite (readUInt8_at _ _ _ _ H5).
Qed.

(** The IPv6 branch reads its groups and the port, or runs off the end of
    the frame; when it reads them all it ends in the [default] branch. *)
Lemma address_block_ipv6 data offset w :
  address_block data 2 offset w = (Throw RangeError, w) \/
  address_block data 2 offset w =
    (Return None, emit (EvLog "onRequestCreated, unsupport addressType:") w).
Proof.
  enough (H : match address_block data 2 offset w with
              | (Throw e, w') => e = RangeError /\ w' = w
              | (Return r, w') =>
                  r = None /\
                  w' = emit (EvLog "onRequestCreated, unsupport addressType:") w
              end).
  { destruct (address_block data 2 offset w) as [[r|e] w'];
      destruct H as [-> ->]; auto. }
  unfold address_block. cbn [Z.eqb Pos.eqb].
  repeat (unfold bind at 1;
          lazymatch goal with
          | |- context [readUInt16LE ?b ?o w] =>
              destruct (readUInt16LE_cases b o w) as [[? ->] | ->]; [| done]
          end).
  done.
Qed.

(** C6 (the code departs from it).  The claim has an IPv6 [ReqCreated]
    allocate the slot and start proxying to the reversed-groups target.
    The [case 2] branch has no [break]: after reading the groups and the
    port it runs into [default], which logs the address type as
    unsupported and returns.  No slot is touched and no socket is opened,
    whatever the frame carries. *)
Theorem ipv6_request_is_dropped w data :
  data !! 0%nat = Some Byte.x04 ->
  data !! 5%nat = Some Byte.x02 ->
  let w0 := set_tunnel (Tunnel.set_lastActivate (clock w)) w in
  on_message data w = (Throw RangeError, w0) \/
  on_message data w =
    (Return tt, emit (EvLog "onRequestCreated, unsupport addressType:") w0).
Proof.
  intros H0 H5 w0. rewrite on_message_unfold. fold w0.
  destruct (created_frame_dispatch data _ w0 H0 H5) as (idx & tag & ->).
  change (u8 "002") with 2.
  destruct (address_block_ipv6 data 6 w0) as [E | E]; [left | right];
    unfold bind at 1; by rewrite E.
Qed.

Lemma ipv6_request_is_dropped_at_fresh :
  on_message created_ipv6 fresh = (Throw RangeError, fresh) \/
  on_message created_ipv6 fresh =
    (Return tt, emit (EvLog "onRequestCreated, unsupport addressType:") fresh).
Proof. apply (ipv6_request_is_dropped fresh created_ipv6); reflexivity. Defined.

(** The text the branch builds before it is thrown away is the one the
    claim describes. *)
Example ipv6_text_reversed :
  join_numbers ":" [8; 7; 6; 5; 4; 3; 2; 1] = "8:7:6:5:4:3:2:1".
Proof. reflexivity. Qed.

Example ipv6_frame_opens_nothing :
  outcome (on_message created_ipv6) fresh = Return tt /\
  table (exec (on_message created_ipv6) fresh) = table fresh /\
  sockets (exec (on_message created_ipv6) fresh) = [].
Proof. repeat split; reflexivity. Qed.

(** C7 (the code departs from it).  The claim has an IPv4 [ReqCreated]
    decode its target, allocate the slot and start proxying.  The
    [case 0] branch begins by reading [message[4]], and [message] is bound
    nowhere: the handler leaves by [ReferenceError] before any target is
    built, and nothing but [lastActivate] has changed. *)
Theorem ipv4_request_raises w data :
  data !! 0%nat = Some Byte.x04 ->
  data !! 5%nat = Some Byte.x00 ->
  on_message data w =
    (Throw (ReferenceError "message"),
     set_tunnel (Tunnel.set_lastActivate (clock w)) w).
Proof.
  intros H0 H5. rewrite on_message_unfold.
  set (w0 := set_tunnel (Tunnel.set_lastActivate (clock w)) w).
  by destruct (created_frame_dispatch data _ w0 H0 H5) as (idx & tag & ->).
Qed.

Lemma ipv4_request_raises_at_fresh :
  on_message created_ipv4 fresh = (Throw (ReferenceError "message"), fresh).
Proof. apply (ipv4_request_raises fresh created_ipv4); reflexivity. Defined.

Example ipv4_frame_opens_nothing :
  table (exec (on_message created_ipv4) fresh) = table fresh /\
  sockets (exec (on_message created_ipv4) fresh) = [].
Proof. split; reflexivity. Qed.

(** The branch that does work, for contrast: a domain-name frame takes
    the slot and opens the socket. *)
Example domain_frame_opens_socket :
  table busy !! 0%nat = Some (Request.mk 7 false (Some true) (Some 0) (Some 0%nat)) /\
  Socketb.address <$> sockets busy = ["a.b:80"] /\
  trace busy = [EvConnect 0 "a.b:80"].
Proof. repeat split; reflexivity. Qed.

Lemma unknown_request_cmd data c w :
  data !! 0%nat = Some c ->
  7 <= u8 c <= 9 ->
  Tunnel_onTunnelMessage data w =
    if bool_decide (5 <= length data)%nat
    then (Return tt, emit (EvLog "Tunnel.onRequestMessage, unknown cmd :") w)
    else (Throw RangeError, w).
Proof.
  intros H0 Hc.
  assert (Hreq : isRequestCmd (u8 c) = true).
  { unfold isRequestCmd, CMD_ReqBEGIN, CMD_ReqEND.
    apply andb_true_intro. split; [apply Z.leb_le | apply Z.ltb_lt]; lia. }
  unfold Tunnel_onTunnelMessage, ArrayBuffer_length, js_lt.
  unfold bind at 1. rewrite (readUInt8_at _ _ _ _ H0), Hreq.
  unfold Tunnel_onRequestMessage, CMD_ReqCreated, CMD_ReqData,
    CMD_ReqClientFinished, CMD_ReqClientClosed.
  destruct (Z.eqb_spec (u8 c) 4); [lia|].
  destruct (Z.eqb_spec (u8 c) 3); [lia|].
  destruct (Z.eqb_spec (u8 c) 6); [lia|].
  destruct (Z.eqb_spec (u8 c) 5); [lia|].
  case_bool_decide as Hlen.
  - destruct (lookup_lt_is_Some_2 data 1) as [b1 H1]; [lia|].
    destruct (lookup_lt_is_Some_2 data 2) as [b2 H2]; [lia|].
    destruct (lookup_lt_is_Some_2 data 3) as [b3 H3]; [lia|].
    destruct (lookup_lt_is_Some_2 data 4) as [b4 H4]; [lia|].
    unfold bind.
    by rewrite (readUInt16LE_at _ _ _ _ _ H1 H2), (readUInt16LE_at _ _ _ _ _ H3 H4).
  - assert (H4 : data !! 4%nat = None) by (apply lookup_ge_None_2; lia).
    unfold bind at 1.
    destruct (readUInt16LE_cases data 1 w) as [[idx ->] | ->]; [|done].
    unfold bind at 1, readUInt16LE. rewrite H4.
    by destruct (data !! 3%nat).
Qed.

(** C10 (amended).  The claim has every frame whose command byte is 7, 8
    or 9 parsed and logged.  That holds of a frame that has its five
    header bytes: [idx] and [tag] are read and the frame is logged as an
    unknown command.  The tunnel checks no length, so on a shorter frame
    the read of the header raises [RangeError] and nothing is logged.
    Either way [lastActivate] is stamped and the request table, every
    slot, every egress socket, the send queue and the socket of the
    tunnel are as before. *)
Theorem server_only_frame_is_dropped w data c :
  data !! 0%nat = Some c ->
  7 <= u8 c <= 9 ->
  let w0 := set_tunnel (Tunnel.set_lastActivate (clock w)) w in
  (5 <= length data)%nat /\
    on_message data w =
      (Return tt, emit (EvLog "Tunnel.onRequestMessage, unknown cmd :") w0) \/
  (length data < 5)%nat /\ on_message data w = (Throw RangeError, w0).
Proof.
  intros H0 Hc w0. rewrite on_message_unfold. fold w0.
  rewrite (unknown_request_cmd data c w0 H0 Hc).
  case_bool_decide; [left | right]; split; (lia || done).
Qed.

Lemma server_only_frame_is_dropped_at_busy :
  (5 <= length server_closed_0_7)%nat /\
    on_message server_closed_0_7 busy =
      (Return tt, emit (EvLog "Tunnel.onRequestMessage, unknown cmd :") busy) \/
  (length server_closed_0_7 < 5)%nat /\
    on_message server_closed_0_7 busy = (Throw RangeError, busy).
Proof.
  apply (server_only_frame_is_dropped busy server_closed_0_7 Byte.x08).
  - reflexivity.
  - cbv; split; discriminate.
Defined.

(** C10, as the claim is written: the one-byte frame [8] has command byte
    8, and the tunnel neither reads [idx] and [tag] from it nor logs it;
    the listener is left by [RangeError]. *)
Lemma server_only_frame_too_short :
  on_message (frame [8]) busy = (Throw RangeError, busy) /\
  ~ (exists t, on_message (frame [8]) busy = (Return tt, logged t busy)).
Proof.
  assert (E : on_message (frame [8]) busy = (Throw RangeError, busy))
    by (vm_compute; reflexivity).
  split; [exact E|]. intros [t H]. rewrite E in H. discriminate H.
Qed.

(** The live request of [busy] is as it was after such a frame. *)
Example server_closed_echo_keeps_slot :
  table (exec (on_message server_closed_0_7) busy) = table busy /\
  sockets (exec (on_message server_closed_0_7) busy) = sockets busy.
Proof. split; reflexivity. Qed.

(** ** The write serializer *)

Lemma websocket_send_open e w :
  websocket_open w = true ->
  websocket_send e w = (Return tt, emit (EvWsSend e) w).
Proof.
  unfold websocket_open, websocket_send, bind, the_tunnel, gets. cbn.
  destruct (Tunnel.websocket (tunnel w)) as [h|]; [|done]. by intros ->.
Qed.

Lemma websocket_send_shut e w :
  websocket_open w = false ->
  exists err, websocket_send e w = (Throw err, w).
Proof.
  unfold websocket_open, websocket_send, bind, the_tunnel, gets. cbn.
  destruct (Tunnel.websocket (tunnel w)) as [h|]; [intros ->|]; eauto.
Qed.

(** One turn of the loop body: the entry goes to the host and the
    activation parks, or the host call raises and the loop is over. *)
Lemma guarded_send_entry snap i e w :
  snap !! i = Some e ->
  guarded (send_entry snap i) w =
    (Return tt,
     if websocket_open w
     then set_drainers (fun d => d ++ [mkActivation snap i]) (emit (EvWsSend e) w)
     else set_tunnel (Tunnel.set_inSending false)
                     (emit (EvLog "Tunnel.sendLoop exception:") w)).
Proof.
  intros He. unfold guarded, send_entry, try_catch, bind at 1. rewrite He.
  unfold bind at 1.
  destruct (websocket_open w) eqn:Hopen.
  - by rewrite (websocket_send_open e w Hopen).
  - by destruct (websocket_send_shut e w Hopen) as [err ->].
Qed.

Lemma sent_emit_send t e : sent (t ++ [EvWsSend e]) = sent t ++ [e].
Proof. unfold sent. by rewrite omap_app. Qed.

Lemma enqueued_emit_send t e : enqueued (t ++ [EvWsSend e]) = enqueued t.
Proof. unfold enqueued. rewrite omap_app. apply app_nil_r. Qed.

Lemma sent_emit_enqueue t e : sent (t ++ [EvEnqueue e]) = sent t.
Proof. unfold sent. rewrite omap_app. apply app_nil_r. Qed.

Lemma enqueued_emit_enqueue t e : enqueued (t ++ [EvEnqueue e]) = enqueued t ++ [e].
Proof. unfold enqueued. by rewrite omap_app. Qed.

Lemma sent_emit_log t m : sent (t ++ [EvLog m]) = sent t.
Proof. unfold sent. rewrite omap_app. apply app_nil_r. Qed.

Lemma enqueued_emit_log t m : enqueued (t ++ [EvLog m]) = enqueued t.
Proof. unfold enqueued. rewrite omap_app. apply app_nil_r. Qed.

Lemma sublist_drop_middle {A} (l1 l2 l3 l : list A) :
  sublist (l1 ++ l2 ++ l3) l -> sublist (l1 ++ l3) l.
Proof.
  intros H. etrans; [|exact H].
  apply sublist_app; [done|]. by apply sublist_inserts_l.
Qed.

Lemma in_loop_send_entry snap i e w :
  snap !! i = Some e ->
  in_loop snap i w ->
  serial (snd (guarded (send_entry snap i) w)).
Proof.
  intros He (Hd & Hflag & Hsub & Hall & Hnum).
  rewrite (guarded_send_entry snap i e w He). cbn [snd].
  pose proof (drop_S snap e i He) as Hdrop.
  destruct (websocket_open w) eqn:Hopen.
  - unfold serial, one_drainer, in_order, lossless, numbered, pending,
      inflight, queue, unsent, websocket_open in *; cbn in *.
    rewrite Hd. cbn. rewrite sent_emit_send, enqueued_emit_send, app_nil_r.
    rewrite Hdrop in Hsub, Hall. rewrite <- !app_assoc. cbn.
    repeat split; try done.
    + by eapply lookup_lt_Some.
    + intros _. by apply Hall.
  - unfold serial, one_drainer, in_order, lossless, numbered, pending,
      inflight, queue, unsent, websocket_open in *; cbn in *.
    rewrite Hd. cbn. rewrite sent_emit_log, enqueued_emit_log.
    repeat split; try done.
    + by eapply sublist_drop_middle.
    + intros Hopen'. congruence.
Qed.

Lemma guarded_while_head w :
  guarded while_head w =
    match Tunnel.sendBufs (tunnel w) with
    | [] => (Return tt, set_tunnel (Tunnel.set_inSending false) w)
    | e :: q =>
        guarded (send_entry (e :: q) 0) (set_tunnel (Tunnel.set_sendBufs []) w)
    end.
Proof.
  unfold guarded, while_head, try_catch, bind at 1 2, the_tunnel, gets.
  cbn [fst snd].
  destruct (Tunnel.sendBufs (tunnel w)) as [|e q].
  - by rewrite bool_decide_eq_false_2 by (cbn; lia).
  - by rewrite bool_decide_eq_true_2 by (cbn; lia).
Qed.

Lemma in_loop_while_head snap i w :
  (length snap <= i)%nat ->
  in_loop snap i w ->
  serial (snd (guarded while_head w)).
Proof.
  intros Hi (Hd & Hflag & Hsub & Hall & Hnum).
  rewrite drop_ge in Hsub, Hall by done. cbn in Hsub, Hall.
  rewrite guarded_while_head.
  destruct (Tunnel.sendBufs (tunnel w)) as [|e q] eqn:Hq.
  - unfold serial, one_drainer, in_order, lossless, numbered, pending,
      inflight, queue, websocket_open in *; cbn in *.
    rewrite Hd, Hq in *. cbn. by repeat split.
  - apply (in_loop_send_entry _ _ e); [done|].
    unfold in_loop, numbered, queue, websocket_open in *; cbn in *.
    rewrite Hq in *. rewrite app_nil_r. by repeat split.
Qed.

Lemma in_loop_for_head snap i w :
  in_loop snap i w ->
  serial (snd (guarded (for_head snap i) w)).
Proof.
  intros Hw. unfold for_head. case_bool_decide as Hi.
  - destruct (lookup_lt_is_Some_2 snap i Hi) as [e He].
    by apply (in_loop_send_entry _ _ e).
  - apply (in_loop_while_head snap i); [lia | done].
Qed.

Lemma guarded_after_return {A} (m : M A) (k : M Progress) (a : A) w w' :
  m w = (Return a, w') ->
  guarded (bind m (fun _ => k)) w = guarded k w'.
Proof. intros Hm. unfold guarded, try_catch, bind. by rewrite Hm. Qed.

Lemma async_call_world m w : snd (async_call m w) = snd (m w).
Proof. unfold async_call, try_catch. by destruct (m w) as [[[]|e] w']. Qed.

Lemma bind_ret_world {A B} (m : M A) (b : B) w :
  snd (bind m (fun _ => ret b) w) = snd (m w).
Proof. unfold bind. by destruct (m w) as [[a|e] w']. Qed.

Lemma run_parked_keeps_serial : preserves serial run_parked.
Proof.
  intros w Hw. pose proof Hw as (Hone & Hsub & Hall & Hnum).
  unfold run_parked, bind at 1, gets. cbn [fst snd].
  unfold one_drainer in Hone.
  destruct (drainers w) as [|a [|a' rest]] eqn:Hd; [done| |done].
  destruct Hone as [Hflag Hpos].
  unfold bind at 1, update. unfold resume.
  destruct (lookup_lt_is_Some_2 _ _ Hpos) as [e He]. rewrite He.
  erewrite guarded_after_return by apply callSendBufResolve_spec.
  apply in_loop_for_head.
  unfold in_loop, in_order, lossless, numbered, pending, inflight, queue,
    unsent, websocket_open in *; cbn in *.
  rewrite Hd in *. cbn in *. rewrite app_nil_r in *.
  rewrite sent_emit_log, enqueued_emit_log. by repeat split.
Qed.

Lemma numbered_next E p e :
  resolve <$> E = VResolveFn <$> seq 0 p ->
  resolve e = VResolveFn p ->
  resolve <$> (E ++ [e]) = VResolveFn <$> seq 0 (S p).
Proof.
  intros HE He. rewrite fmap_app, HE, seq_S, fmap_app. cbn. by rewrite He.
Qed.

Lemma send_keeps_serial b : preserves serial (Tunnel_send b).
Proof.
  intros w Hw. pose proof Hw as (Hone & Hsub & Hall & Hnum).
  unfold Tunnel_send, bind at 1, the_tunnel at 1, gets. cbn [fst snd].
  destruct (Tunnel.websocket (tunnel w)) as [h|] eqn:Hws.
  2:{ rewrite bind_ret_world. cbn.
      unfold serial, one_drainer, in_order, lossless, numbered, pending,
        inflight, queue, websocket_open in *; cbn in *.
      rewrite sent_emit_log, enqueued_emit_log. rewrite Hws in *.
      by repeat split. }
  destruct (readyState h =? READY_STATE_OPEN) eqn:Hopen; cbn [negb].
  2:{ rewrite bind_ret_world. cbn.
      unfold serial, one_drainer, in_order, lossless, numbered, pending,
        inflight, queue, websocket_open in *; cbn in *.
      rewrite sent_emit_log, enqueued_emit_log. rewrite Hws in *.
      by repeat split. }
  unfold bind at 1, gets. cbn [fst snd]. unfold bind at 1, update at 1.
  rewrite bind_ret_world.
  set (e := mkSendBuf b (VResolveFn (promises w)) (VRejectFn (promises w))).
  unfold Tunnel_pushSendRequest, bind at 1, update at 1.
  unfold bind at 1, update at 1.
  set (w2 := emit (EvEnqueue e) _).
  assert (Hw2 : one_drainer w2 /\
                sublist (sent (trace w2) ++ pending w2) (enqueued (trace w2)) /\
                enqueued (trace w2) = sent (trace w2) ++ pending w2 /\
                numbered w2).
  { unfold w2, one_drainer, in_order, lossless, numbered, pending, inflight,
      queue, websocket_open in *; cbn in *.
    rewrite sent_emit_enqueue, enqueued_emit_enqueue. rewrite Hws in *.
    rewrite !app_assoc. rewrite <- (app_assoc (sent (trace w))).
    repeat split.
    - exact Hone.
    - by apply sublist_app.
    - by rewrite (Hall Hopen).
    - by apply numbered_next. }
  destruct Hw2 as (Hone2 & Hsub2 & Hall2 & Hnum2).
  unfold Tunnel_startSendLoop, bind at 1, the_tunnel at 1, gets. cbn [fst snd].
  destruct (Tunnel.inSending (tunnel w2)) eqn:Hflag.
  - cbn. repeat split; try done. by intros _.
  - rewrite async_call_world.
    change (serial (snd (guarded while_head
                           (set_tunnel (Tunnel.set_inSending true) w2)))).
    apply (in_loop_while_head [] 0); [cbn; lia|].
    unfold one_drainer in Hone2.
    destruct (drainers w2) as [|a [|a' rest]] eqn:Hd;
      [|destruct Hone2; congruence|done].
    unfold in_loop, numbered, pending, inflight, queue, websocket_open in *;
      cbn in *.
    rewrite Hd in *. cbn in *. by repeat split.
Qed.

#[local] Hint Resolve send_keeps_serial run_parked_keeps_serial : keeps.

Ltac serial_unfold :=
  unfold serial, one_drainer, in_order, lossless, numbered, pending, inflight,
    queue, sent, enqueued, websocket_open in *.

Ltac serial_update :=
  serial_unfold; cbn in *; rewrite ?omap_app; cbn; rewrite ?app_nil_r;
  first [ assumption
        | repeat split; first [ tauto | discriminate ] ].

Lemma callSendBufResolve_keeps_serial e :
  preserves serial (Tunnel_callSendBufResolve e).
Proof. intros w Hw. rewrite callSendBufResolve_spec. cbn. serial_update. Qed.

#[local] Hint Resolve callSendBufResolve_keeps_serial : keeps.

Lemma host_readyState_cases rs x :
  host_readyState rs x = x \/
  READY_STATE_OPEN < rs /\
  host_readyState rs x = Tunnel.set_websocket (Some (mkWebSocket rs)) x.
Proof.
  unfold host_readyState.
  destruct (Tunnel.websocket x) as [h|]; [|by left].
  destruct ((READY_STATE_OPEN <? rs) && (readyState h <? rs)) eqn:Hrs;
    [|by left].
  apply andb_prop in Hrs as [Hrs _]. apply Z.ltb_lt in Hrs. by right.
Qed.

Lemma host_readyState_keeps_serial rs :
  preserves serial (update (set_tunnel (host_readyState rs))).
Proof.
  intros w Hw. unfold update, set_tunnel. cbn [snd].
  destruct (host_readyState_cases rs (tunnel w)) as [-> | [Hrs ->]].
  - serial_update.
  - serial_unfold; cbn in *.
    destruct Hw as (H1 & H2 & H3 & H4). repeat split; try assumption.
    intros Heq. apply Z.eqb_eq in Heq. lia.
Qed.

Lemma handler_keeps_serial o : o <> OpClose -> preserves serial (handler o).
Proof.
  destruct o; intros Ho; try done; cbn [handler];
    try apply host_readyState_keeps_serial;
    keep_with serial_update.
Qed.

(** *** The close event *)

Lemma cleanup_slot_returns i w :
  unflagged w -> is_Some (table w !! Z.to_nat i) ->
  cleanup_slot i w = (Return tt, w).
Proof.
  intros Hw [req Hr]. unfold cleanup_slot, bind, the_request. rewrite Hr.
  unfold unflagged in Hw. rewrite Forall_lookup in Hw.
  by rewrite (Hw _ _ Hr).
Qed.

Lemma cleanup_returns w :
  unflagged w -> well_formed w -> ReqMgr_cleanup w = (Return tt, w).
Proof.
  intros Hflags Hwf. unfold ReqMgr_cleanup, bind, the_cap, gets. cbn [fst snd].
  assert (Hl : forall i, i ∈ seqZ 0 (cap_of w) -> is_Some (table w !! Z.to_nat i)).
  { intros i Hi. apply elem_of_seqZ in Hi. apply lookup_lt_is_Some_2.
    rewrite Hwf. lia. }
  induction (seqZ 0 (cap_of w)) as [|i l IH]; [done|].
  cbn. unfold bind. rewrite cleanup_slot_returns by (auto; apply Hl; left).
  apply IH. intros j Hj. apply Hl. by right.
Qed.

Lemma for_each_resolve_spec q w :
  exists t, for_each q Tunnel_callSendBufResolve w =
            (Return tt, mkWorld (tunnel w) (sockets w) (clock w) (promises w)
                                (resolved w) (drainers w) (trace w ++ t)).
Proof.
  revert w. induction q as [|e q IH]; intros w.
  - exists []. rewrite app_nil_r. by destruct w.
  - cbn. unfold bind. rewrite callSendBufResolve_spec.
    destruct (IH (emit (EvLog "Tunnel.callSendBufResolve, resolve exception:") w))
      as [t ->].
    eexists. cbn. by rewrite <- app_assoc.
Qed.

Lemma Tunnel_close_shuts w : websocket_open (snd (Tunnel_close w)) = false.
Proof.
  unfold Tunnel_close, Tunnel_isWebsocketValid, bind at 1, the_tunnel, gets.
  cbn [fst snd]. unfold websocket_open.
  destruct (Tunnel.websocket (tunnel w)) as [h|] eqn:Hws.
  - rewrite bool_decide_eq_true_2 by eauto. done.
  - rewrite bool_decide_eq_false_2 by (intros [? ?]; done). cbn. by rewrite Hws.
Qed.

Lemma closeHandler_shuts w :
  unflagged w -> well_formed w ->
  websocket_open (snd (closeHandler w)) = false.
Proof.
  intros Hflags Hwf.
  unfold closeHandler, console_log, bind at 1, update at 1.
  unfold Tunnel_onClosed, bind at 1, the_tunnel at 1, gets. cbn [fst snd].
  unfold bind at 1.
  destruct (for_each_resolve_spec
              (Tunnel.sendBufs (tunnel (emit (EvLog "closeHandler, id:") w)))
              (emit (EvLog "closeHandler, id:") w)) as [t ->].
  unfold bind at 1, update at 1. unfold bind at 1.
  rewrite cleanup_returns by done.
  unfold bind at 1, the_tunnel at 1, gets. cbn [fst snd].
  unfold bind at 1, update at 1.
  apply Tunnel_close_shuts.
Qed.

Ltac orderly_update :=
  unfold orderly, one_drainer, in_order, numbered, pending, inflight,
    queue, sent, enqueued in *;
  cbn in *; rewrite ?omap_app; cbn; rewrite ?app_nil_r;
  first [ assumption | repeat split; tauto ].

Lemma callSendBufResolve_keeps_orderly e :
  preserves orderly (Tunnel_callSendBufResolve e).
Proof. intros w Hw. rewrite callSendBufResolve_spec. cbn. orderly_update. Qed.

Lemma clear_queue_keeps_orderly :
  preserves orderly (update (set_tunnel (Tunnel.set_sendBufs []))).
Proof.
  intros w (Hone & Hsub & Hnum). repeat split; try done.
  unfold in_order, pending, queue in *. cbn. rewrite app_nil_r.
  etrans; [|exact Hsub]. apply sublist_app; [done|]. by apply sublist_inserts_r.
Qed.

#[local] Hint Resolve callSendBufResolve_keeps_orderly clear_queue_keeps_orderly : keeps.

Lemma closeHandler_keeps_orderly : preserves orderly closeHandler.
Proof. keep_with orderly_update. Qed.

Lemma serial_split w : serial w <-> orderly w /\ lossless w.
Proof. unfold serial, orderly. tauto. Qed.

(** ** Running tunnels *)

Ltac well_formed_update :=
  unfold well_formed, table, cap_of, host_readyState in *; cbn in *;
  repeat case_match; cbn; rewrite ?length_alter; assumption.

Lemma handler_keeps_well_formed o : preserves well_formed (handler o).
Proof. destruct o; keep_with well_formed_update. Qed.

Lemma handler_keeps_sound o : preserves sound (handler o).
Proof.
  intros w (Hserial & Hflags & Hwf). split; [|split].
  - destruct o; try by apply handler_keeps_serial.
    apply serial_split. split.
    + apply closeHandler_keeps_orderly. by apply serial_split.
    + intros Hopen. cbn [handler] in Hopen.
      by rewrite closeHandler_shuts in Hopen.
  - by apply handler_keeps_unflagged.
  - by apply handler_keeps_well_formed.
Qed.

Lemma boot_sound id cap now : sound (boot id cap now).
Proof.
  split; [|split].
  - repeat split; try done. unfold in_order. cbn. constructor.
  - apply boot_unflagged.
  - unfold well_formed, table, cap_of, boot. cbn.
    by rewrite length_fmap, length_seqZ.
Qed.

Lemma reachable_sound w : reachable w -> sound w.
Proof.
  intros (ops & id & cap & now & ->).
  apply run_invariant; [apply handler_keeps_sound | apply boot_sound].
Qed.

Lemma numbered_NoDup w : numbered w -> NoDup (enqueued (trace w)).
Proof.
  unfold numbered. intros H. apply (NoDup_fmap_1 resolve). rewrite H.
  apply NoDup_fmap_2; [|apply NoDup_seq].
  intros p q [=]. done.
Qed.

(** C9.  On every tunnel at work: at most one [sendLoop] activation
    exists, and [inSending] is up exactly when one does; every entry is
    enqueued once; the entries handed to the socket, followed by those in
    flight and those queued, read in the order they were enqueued; and
    while the socket is open none has been skipped, so the sends are the
    enqueued entries up to those still pending. *)
Theorem sends_follow_enqueue_order w :
  reachable w ->
  (length (drainers w) <= 1)%nat /\
  (Tunnel.inSending (tunnel w) = true <-> length (drainers w) = 1%nat) /\
  NoDup (enqueued (trace w)) /\
  sublist (sent (trace w) ++ pending w) (enqueued (trace w)) /\
  (websocket_open w = true ->
   enqueued (trace w) = sent (trace w) ++ pending w).
Proof.
  intros Hw. destruct (reachable_sound w Hw) as ((Hone & Hsub & Hall & Hnum) & _).
  unfold one_drainer in Hone.
  split; [|split; [|split; [|split]]].
  - destruct (drainers w) as [|a [|a' rest]]; cbn; (lia || done).
  - destruct (drainers w) as [|a [|a' rest]]; cbn; [|tauto|done].
    rewrite Hone. split; discriminate.
  - by apply numbered_NoDup.
  - exact Hsub.
  - exact Hall.
Qed.

Lemma sends_follow_enqueue_order_when_drained :
  (length (drainers drained) <= 1)%nat /\
  (Tunnel.inSending (tunnel drained) = true <-> length (drainers drained) = 1%nat) /\
  NoDup (enqueued (trace drained)) /\
  sublist (sent (trace drained) ++ pending drained) (enqueued (trace drained)) /\
  (websocket_open drained = true ->
   enqueued (trace drained) = sent (trace drained) ++ pending drained).
Proof.
  apply (sends_follow_enqueue_order drained).
  apply reachable_run, reachable_boot.
Defined.

(** Once the drainer has left and the queue is empty on an open socket,
    the sends are exactly the enqueued entries. *)
Corollary drained_tunnel_sent_all w :
  reachable w ->
  websocket_open w = true ->
  drainers w = [] ->
  queue w = [] ->
  sent (trace w) = enqueued (trace w).
Proof.
  intros Hw Hopen Hd Hq.
  destruct (reachable_sound w Hw) as ((_ & _ & Hall & _) & _).
  rewrite (Hall Hopen). unfold pending, inflight. rewrite Hd, Hq. cbn.
  by rewrite app_nil_r.
Qed.

Example three_frames_in_order :
  buf <$> sent (trace drained) =
    [BufBytes (frame [8; 0; 0; 7; 0]); BufBytes (frame [8; 1; 0; 7; 0]);
     BufBytes (frame [2; 0; 0; 0; 0; 0; 0; 0; 0])] /\
  sent (trace drained) = enqueued (trace drained) /\
  Tunnel.inSending (tunnel drained) = false.
Proof. split; [|split]; vm_compute; reflexivity. Qed.

(** A socket closed under a parked drainer: the entry in flight is given
    up, and what was sent is still a prefix in enqueue order. *)
Example close_under_drainer :
  buf <$> enqueued (trace (run [OpClose; OpResume] stalled)) =
    [BufBytes (frame [8; 0; 0; 7; 0]); BufBytes (frame [8; 1; 0; 7; 0])] /\
  buf <$> sent (trace (run [OpClose; OpResume] stalled)) =
    [BufBytes (frame [8; 0; 0; 7; 0])] /\
  drainers (run [OpClose; OpResume] stalled) = [] /\
  Tunnel.inSending (tunnel (run [OpClose; OpResume] stalled)) = false.
Proof. split; [|split; [|split]]; vm_compute; reflexivity. Qed.

(** * Further properties *)

(** ** The request table: [get] and [free] *)

Lemma truthy_true v : truthy v = true <-> v = Some true.
Proof. destruct v as [[]|]; cbn; split; congruence. Qed.


(** X2.  [free(idx, tag)] on an index out of range, on a slot that is not
    marked in use, or with a tag other than the slot's, writes one log
    line and changes nothing. *)
Theorem free_rejected_changes_nothing w idx tag :
  out_of_range (cap_of w) idx = true \/
  (exists req, table w !! Z.to_nat idx = Some req /\
               (truthy (Request.isUsed req) = false \/ Request.tag req <> tag)) ->
  exists msg, ReqMgr_free idx tag w = (Return tt, logged [EvLog msg] w).
Proof.
  intros H. unfold ReqMgr_free, bind, the_cap, gets. cbn.
  destruct (out_of_range (cap_of w) idx) eqn:Hrange; [by eexists|].
  destruct H as [H | (req & Hr & H)]; [done|].
  unfold the_request. rewrite Hr.
  destruct H as [Hused | Htag].
  - rewrite Hused. by eexists.
  - destruct (truthy (Request.isUsed req)); cbn; [|by eexists].
    destruct (Z.eqb_spec (Request.tag req) tag); [done|]. by eexists.
Qed.

Lemma free_rejected_on_fresh_slot :
  exists msg, ReqMgr_free 0 0 fresh = (Return tt, logged [EvLog msg] fresh).
Proof.
  apply (free_rejected_changes_nothing fresh 0 0).
  right. exists (Request.new 0). split; [reflexivity | by left].
Defined.

(** ** Request frames from the client *)

(** A frame that carries the five header bytes reaches the branch of its
    command with [idx] and [tag] read from bytes 1..4. *)
Lemma request_frame_dispatch c i0 i1 t0 t1 rest w :
  isRequestCmd (u8 c) = true ->
  Tunnel_onTunnelMessage (c :: i0 :: i1 :: t0 :: t1 :: rest) w =
    (let databuf := c :: i0 :: i1 :: t0 :: t1 :: rest in
     let idx := u16 i0 i1 in
     let tag := u16 t0 t1 in
     if u8 c =? CMD_ReqCreated then Tunnel_onRequestCreated idx tag databuf 5
     else if u8 c =? CMD_ReqData then Tunnel_onReqClientData idx tag databuf 5
     else if u8 c =? CMD_ReqClientFinished then Tunnel_onReqClientFinished idx tag
     else if u8 c =? CMD_ReqClientClosed then Tunnel_onReqClientClosed idx tag
     else console_log "Tunnel.onRequestMessage, unknown cmd :") w.
Proof.
  intros Hc. unfold Tunnel_onTunnelMessage, ArrayBuffer_length, js_lt.
  unfold bind at 1, readUInt8. cbn [lookup list_lookup]. unfold ret at 1.
  rewrite Hc. reflexivity.
Qed.

Lemma set_table_ext f g w :
  f (table w) = g (table w) -> set_table f w = set_table g w.
Proof. intros H. unfold set_table, set_tunnel. fold (table w). by rewrite H. Qed.

(** What [close] asks of the host for socket [s]: the host stream is
    closed when the object still has one. *)
Lemma Socketb_close_any s o w :
  sockets w !! s = Some o ->
  Socketb_close s w =
    (Return tt,
     logged match Socketb.sock o with Some _ => [EvSockClose s] | None => [] end w).
Proof.
  intros Hs. unfold Socketb_close, try_catch, bind, the_socket. rewrite Hs.
  destruct (Socketb.sock o); [done|].
  unfold ret, logged. rewrite app_nil_r. by destruct w.
Qed.

(** X3.  [ReqClientClosed(idx, tag)] for a slot in range, marked in use
    under [tag] and holding an egress socket: the slot is left not in
    use, without a socket, and with its tag raised by one (as a number:
    65535 becomes 65536, not 0).  The host stream is closed once when the
    socket object still has it, and not at all when the object was closed
    before (its [sock] is null). *)
Theorem client_closed_frame_releases_slot w i0 i1 t0 t1 rest req s o :
  out_of_range (cap_of w) (u16 i0 i1) = false ->
  table w !! Z.to_nat (u16 i0 i1) = Some req ->
  Request.isUsed req = Some true ->
  Request.tag req = u16 t0 t1 ->
  Request.socketb req = Some s ->
  sockets w !! s = Some o ->
  on_message (Byte.x05 :: i0 :: i1 :: t0 :: t1 :: rest) w =
    (Return tt,
     set_table
       (fun q => <[Z.to_nat (u16 i0 i1) :=
                     Request.mk (u16 t0 t1 + 1) (Request.inUsed req) (Some false)
                                (Request.idx req) None]> q)
       (logged match Socketb.sock o with Some _ => [EvSockClose s] | None => [] end
               (arrived w))).
Proof.
  intros Hrange Hr Hused Htag Hsock Hs.
  rewrite on_message_unfold. fold (arrived w).
  rewrite request_frame_dispatch by done. cbn zeta.
  change (u8 "005" =? CMD_ReqCreated) with false.
  change (u8 "005" =? CMD_ReqData) with false.
  change (u8 "005" =? CMD_ReqClientFinished) with false.
  change (u8 "005" =? CMD_ReqClientClosed) with true. cbv iota.
  set (idx := u16 i0 i1) in *. set (tag := u16 t0 t1) in *.
  set (r := Z.to_nat idx) in *.
  set (t := match Socketb.sock o with Some _ => [EvSockClose s] | None => [] end).
  assert (Hlen : (r < length (table w))%nat) by (eapply lookup_lt_Some, Hr).
  unfold Tunnel_onReqClientClosed, ReqMgr_free, bind at 1, the_cap, gets.
  cbn [fst snd]. change (cap_of (arrived w)) with (cap_of w). rewrite Hrange.
  unfold bind at 1, the_request at 1. change (table (arrived w)) with (table w).
  fold r. rewrite Hr. rewrite (proj2 (truthy_true _) Hused), Htag, Z.eqb_refl.
  cbn [negb].
  unfold release, modify_request, bind at 1, update at 1.
  unfold bind at 1, update at 1.
  set (w2 := set_table _ (set_table _ (arrived w))).
  assert (Ht2 : table w2 =
                <[r := Request.mk (tag + 1) (Request.inUsed req) (Some false)
                                  (Request.idx req) (Some s)]> (table w)).
  { unfold w2, table, arrived. cbn. fold (table w).
    rewrite (alter_as_insert _ _ _ _ Hr), alter_after_insert by done.
    unfold Request.set_isUsed, Request.set_tag. cbn. by rewrite Htag, Hsock. }
  unfold Request_free, bind at 1, the_request at 1.
  rewrite Ht2, list_lookup_insert_eq by done. cbn [Request.socketb].
  unfold bind at 1.
  rewrite (Socketb_close_any s o w2) by done. fold t.
  unfold modify_request, update. f_equal.
  change (set_table (alter (Request.set_socketb None) r) (logged t w2))
    with (set_table (fun _ => alter (Request.set_socketb None) r (table w2))
                    (logged t (arrived w))).
  apply set_table_ext. rewrite Ht2.
  by rewrite alter_after_insert by done.
Qed.

Lemma client_closed_frame_releases_busy_slot :
  on_message (frame [5; 0; 0; 7; 0]) busy =
    (Return tt,
     set_table
       (fun q => <[0%nat := Request.mk 8 false (Some false) (Some 0) None]> q)
       (logged [EvSockClose 0] (arrived busy))).
Proof.
  apply (client_closed_frame_releases_slot busy
           Byte.x00 Byte.x00 Byte.x07 Byte.x00 []
           (Request.mk 7 false (Some true) (Some 0) (Some 0%nat)) 0%nat
           (Socketb.mk "a.b:80" 0 STATE_CONNECTING (Some 0%nat) [] false));
    reflexivity.
Defined.

(** ** Sixteen-bit fields *)

Lemma u8_bounds b : 0 <= u8 b <= 255.
Proof. unfold u8. pose proof (Byte.to_N_bounded b). lia. Qed.

Lemma u8_byte_of z : 0 <= z <= 255 -> u8 (byte_of z) = z.
Proof.
  intros Hz. unfold u8, byte_of.
  destruct (Byte.of_N (Z.to_N z)) as [b|] eqn:E; cbn.
  - apply Byte.to_of_N in E. rewrite E. lia.
  - apply Byte.of_N_None_iff in E. lia.
Qed.

Lemma byte_of_u8 b : byte_of (u8 b) = b.
Proof. unfold u8, byte_of. by rewrite N2Z.id, Byte.of_to_N. Qed.

Lemma u16_bounds lo hi : 0 <= u16 lo hi <= 65535.
Proof. unfold u16. pose proof (u8_bounds lo). pose proof (u8_bounds hi). lia. Qed.

Lemma readUInt16LE_at' b off lo hi v w :
  b !! off = Some lo -> b !! S off = Some hi -> u8 lo + u8 hi * 2 ^ 8 = v ->
  readUInt16LE b off w = (Return v, w).
Proof. intros H1 H2 <-. by apply readUInt16LE_at. Qed.

(** X4.  A value in [0, 65535] written by [writeUInt16LE] is read back by
    [readUInt16LE] at the offset it was written to, whatever surrounds it
    in the buffer; outside that range the write raises [RangeError]. *)
Theorem u16_written_then_read v pre post w :
  (0 <= v <= 65535 ->
   exists lo hi,
     writeUInt16LE (Some v) w = (Return [lo; hi], w) /\
     readUInt16LE (pre ++ [lo; hi] ++ post) (length pre) w = (Return v, w)) /\
  (v < 0 \/ 65535 < v -> writeUInt16LE (Some v) w = (Throw RangeError, w)).
Proof.
  split.
  - intros Hv. exists (byte_of (v mod 2 ^ 8)), (byte_of (v / 2 ^ 8)).
    split.
    + unfold writeUInt16LE.
      replace ((0 <=? v) && (v <=? 65535)) with true; [done|].
      symmetry. apply andb_true_intro. split; [apply Z.leb_le | apply Z.leb_le]; lia.
    + apply (readUInt16LE_at' _ _ (byte_of (v mod 2 ^ 8)) (byte_of (v / 2 ^ 8))).
      * unfold Bytes. by rewrite lookup_app_r, Nat.sub_diag by lia.
      * unfold Bytes. rewrite lookup_app_r by lia.
        by replace (S (length pre) - length pre)%nat with 1%nat by lia.
      * rewrite !u8_byte_of.
        -- pose proof (Z.div_mod v (2 ^ 8)). lia.
        -- split; [apply Z.div_pos; lia | apply Z.lt_succ_r, Z.div_lt_upper_bound; lia].
        -- pose proof (Z.mod_pos_bound v (2 ^ 8)). lia.
  - intros Hv. unfold writeUInt16LE.
    replace ((0 <=? v) && (v <=? 65535)) with false; [done|].
    symmetry. apply andb_false_iff.
    destruct Hv; [left; apply Z.leb_gt | right; apply Z.leb_gt]; lia.
Qed.

Lemma u16_written_then_read_513 :
  exists lo hi,
    writeUInt16LE (Some 513) fresh = (Return [lo; hi], fresh) /\
    readUInt16LE (frame [8] ++ [lo; hi] ++ frame [7; 0]) 1 fresh = (Return 513, fresh).
Proof.
  apply (proj1 (u16_written_then_read 513 (frame [8]) (frame [7; 0]) fresh)). lia.
Defined.

(** X5.  The value [readUInt16LE] reads from two bytes lies in
    [0, 65535], and [writeUInt16LE] turns it back into those two bytes. *)
Theorem u16_read_then_written buf offset lo hi w :
  buf !! offset = Some lo ->
  buf !! S offset = Some hi ->
  exists v,
    readUInt16LE buf offset w = (Return v, w) /\
    0 <= v <= 65535 /\
    writeUInt16LE (Some v) w = (Return [lo; hi], w).
Proof.
  intros Hlo Hhi. exists (u16 lo hi). split; [|split].
  - by apply readUInt16LE_at.
  - apply u16_bounds.
  - pose proof (u16_bounds lo hi) as Hb. unfold writeUInt16LE.
    replace ((0 <=? u16 lo hi) && (u16 lo hi <=? 65535)) with true
      by (symmetry; apply andb_true_intro; split; apply Z.leb_le; lia).
    pose proof (u8_bounds lo). pose proof (u8_bounds hi).
    unfold u16, ret.
    replace ((u8 lo + u8 hi * 2 ^ 8) `mod` 2 ^ 8) with (u8 lo).
    2:{ rewrite Z.mod_add by lia. by rewrite Z.mod_small by lia. }
    replace ((u8 lo + u8 hi * 2 ^ 8) `div` 2 ^ 8) with (u8 hi).
    2:{ rewrite Z.div_add by lia. by rewrite Z.div_small by lia. }
    by rewrite !byte_of_u8.
Qed.

Lemma u16_read_then_written_in_header :
  exists v,
    readUInt16LE server_closed_0_7 3 fresh = (Return v, fresh) /\
    0 <= v <= 65535 /\
    writeUInt16LE (Some v) fresh = (Return [Byte.x07; Byte.x00], fresh).
Proof.
  apply (u16_read_then_written server_closed_0_7 3 Byte.x07 Byte.x00 fresh);
    reflexivity.
Defined.

(** ** Frames that address no live request *)

Lemma in_range_lookup w idx :
  well_formed w -> out_of_range (cap_of w) idx = false ->
  is_Some (table w !! Z.to_nat idx).
Proof.
  unfold well_formed, out_of_range. intros Hwf Hrange.
  apply orb_false_elim in Hrange as [H1 H2].
  apply Z.leb_gt in H1. apply Z.ltb_ge in H2.
  apply lookup_lt_is_Some_2. rewrite Hwf. lia.
Qed.

(** [get] on a well-formed table: a log line and null, or the live slot
    and no effect at all. *)
Lemma get_cases w idx tag :
  well_formed w ->
  (exists msg, ReqMgr_get idx tag w = (Return None, logged [EvLog msg] w)) \/
  (ReqMgr_get idx tag w = (Return (Some (Z.to_nat idx)), w) /\
   exists req, table w !! Z.to_nat idx = Some req /\
               Request.isUsed req = Some true /\ Request.tag req = tag).
Proof.
  intros Hwf.
  destruct (out_of_range (cap_of w) idx) eqn:Hrange.
  { left. unfold ReqMgr_get, bind, the_cap, gets. cbn. rewrite Hrange.
    by eexists. }
  destruct (in_range_lookup w idx Hwf Hrange) as [req Hr].
  rewrite (get_spec idx tag req w Hrange Hr).
  destruct (truthy (Request.isUsed req)) eqn:Hused; cbn; [|left; by eexists].
  destruct (Z.eqb_spec (Request.tag req) tag); cbn; [|left; by eexists].
  right. split; [done|]. exists req. by rewrite <- truthy_true.
Qed.

Lemma get_stale w idx tag :
  out_of_range (cap_of w) idx = true \/
  (exists req, table w !! Z.to_nat idx = Some req /\
               (truthy (Request.isUsed req) = false \/ Request.tag req <> tag)) ->
  exists msg, ReqMgr_get idx tag w = (Return None, logged [EvLog msg] w).
Proof.
  intros H. unfold ReqMgr_get, bind, the_cap, gets. cbn.
  destruct (out_of_range (cap_of w) idx) eqn:Hrange; [by eexists|].
  destruct H as [H | (req & Hr & H)]; [done|].
  unfold the_request. rewrite Hr.
  destruct H as [Hused | Htag].
  - rewrite Hused. by eexists.
  - destruct (truthy (Request.isUsed req)); cbn; [|by eexists].
    destruct (Z.eqb_spec (Request.tag req) tag); [done|]. by eexists.
Qed.

(** X6.  [ReqData(idx, tag, payload)] whose [idx] is out of range, or
    whose slot is not marked in use, or carries another tag, is dropped:
    one log line, no write to any egress socket, no change to the table. *)
Theorem data_for_stale_slot_is_dropped w i0 i1 t0 t1 payload :
  out_of_range (cap_of w) (u16 i0 i1) = true \/
  (exists req, table w !! Z.to_nat (u16 i0 i1) = Some req /\
               (truthy (Request.isUsed req) = false \/
                Request.tag req <> u16 t0 t1)) ->
  exists msg,
    on_message (Byte.x03 :: i0 :: i1 :: t0 :: t1 :: payload) w =
      (Return tt, logged [EvLog msg] (arrived w)).
Proof.
  intros H. rewrite on_message_unfold. fold (arrived w).
  rewrite request_frame_dispatch by done. cbn zeta.
  change (u8 "003" =? CMD_ReqCreated) with false.
  change (u8 "003" =? CMD_ReqData) with true. cbv iota.
  unfold Tunnel_onReqClientData, bind.
  destruct (get_stale (arrived w) (u16 i0 i1) (u16 t0 t1) H) as [msg ->].
  by exists msg.
Qed.

Lemma data_for_old_tag_is_dropped_at_busy :
  exists msg,
    on_message (frame [3; 0; 0; 6; 0; 1; 2; 3]) busy =
      (Return tt, logged [EvLog msg] (arrived busy)).
Proof.
  apply (data_for_stale_slot_is_dropped busy
           Byte.x00 Byte.x00 Byte.x06 Byte.x00 (frame [1; 2; 3])).
  right. exists (Request.mk 7 false (Some true) (Some 0) (Some 0%nat)).
  split; [reflexivity|]. right. cbn. discriminate.
Defined.

(** X7.  [ReqClientFinished(idx, tag)] never changes the tunnel: on any
    running tunnel the table, the sockets and the send queue are as they
    were, whether or not the frame addresses a live request; the
    half-close is not passed on to the egress socket. *)
Theorem client_finished_changes_nothing w i0 i1 t0 t1 rest :
  reachable w ->
  exists t,
    Forall (fun e => is_log e = true) t /\
    on_message (Byte.x06 :: i0 :: i1 :: t0 :: t1 :: rest) w =
      (Return tt, logged t (arrived w)).
Proof.
  intros Hw. destruct (reachable_sound w Hw) as (_ & _ & Hwf).
  rewrite on_message_unfold. fold (arrived w).
  rewrite request_frame_dispatch by done. cbn zeta.
  change (u8 "006" =? CMD_ReqCreated) with false.
  change (u8 "006" =? CMD_ReqData) with false.
  change (u8 "006" =? CMD_ReqClientFinished) with true. cbv iota.
  unfold Tunnel_onReqClientFinished, bind at 1.
  destruct (get_cases (arrived w) (u16 i0 i1) (u16 t0 t1) Hwf)
    as [[msg ->] | [-> (req & Hr & _)]].
  - exists [EvLog msg]. split; [by repeat constructor | done].
  - exists []. split; [constructor|].
    unfold Request_onClientFinished, bind, the_request. rewrite Hr.
    unfold logged. rewrite app_nil_r.
    destruct (Request.socketb req); by destruct (arrived w).
Qed.

Lemma client_finished_changes_nothing_at_busy :
  exists t,
    Forall (fun e => is_log e = true) t /\
    on_message (frame [6; 0; 0; 7; 0]) busy = (Return tt, logged t (arrived busy)).
Proof.
  apply (client_finished_changes_nothing busy Byte.x00 Byte.x00 Byte.x07 Byte.x00 []).
  apply reachable_run, reachable_boot.
Defined.

(** The guard on [data.length] never holds for a binary frame, so an
    empty one reaches the read of its command byte, which raises. *)
Lemma empty_frame_raises w : on_message [] w = (Throw RangeError, arrived w).
Proof. reflexivity. Qed.

(** X8.  A frame whose command byte is 0 or 10 and above is logged and
    dropped: nothing but [lastActivate] and the log changes. *)
Theorem unknown_control_frame_is_dropped w c rest :
  u8 c = 0 \/ 10 <= u8 c ->
  exists msg,
    on_message (c :: rest) w = (Return tt, logged [EvLog msg] (arrived w)).
Proof.
  intros Hc. rewrite on_message_unfold. fold (arrived w).
  unfold Tunnel_onTunnelMessage, ArrayBuffer_length, js_lt.
  unfold bind, readUInt8. cbn [lookup list_lookup]. unfold ret at 1.
  unfold isRequestCmd, CMD_ReqBEGIN, CMD_ReqEND, CMD_None, CMD_Ping, CMD_Pong.
  destruct Hc as [-> | Hc]; [by eexists|].
  destruct (Z.leb_spec 3 (u8 c)); [|lia].
  destruct (Z.ltb_spec (u8 c) 10); [lia|]. cbn [andb].
  destruct (Z.eqb_spec (u8 c) 0); [lia|].
  destruct (Z.eqb_spec (u8 c) 1); [lia|].
  destruct (Z.eqb_spec (u8 c) 2); [lia|].
  by eexists.
Qed.

Lemma unknown_control_frame_is_dropped_at_busy :
  exists msg,
    on_message (frame [200; 1; 2]) busy = (Return tt, logged [EvLog msg] (arrived busy)).
Proof.
  apply (unknown_control_frame_is_dropped busy (byte_of 200) (frame [1; 2])).
  right. cbv. discriminate.
Defined.

(** ** [ReqCreated] with a domain name *)

(** The bytes of a [ReqCreated] frame for a domain name. *)
Lemma address_block_domain hdr len name p0 p1 rest w :
  length hdr = 6%nat ->
  length name = Z.to_nat (u8 len) ->
  address_block (hdr ++ len :: name ++ p0 :: p1 :: rest) 1 6 w =
    (Return (Some (Buffer_toString name, u16 p0 p1)), w).
Proof.
  intros Hhdr Hname. unfold address_block. cbn [Z.eqb Pos.eqb].
  unfold bind at 1, readUInt8, Bytes.
  rewrite (list_lookup_middle hdr _ len 6) by done. unfold ret at 1.
  assert (Hdrop : drop 7 (hdr ++ len :: name ++ p0 :: p1 :: rest)
                  = name ++ p0 :: p1 :: rest).
  { change (len :: name ++ p0 :: p1 :: rest)
      with ([len] ++ name ++ p0 :: p1 :: rest).
    rewrite app_assoc. apply drop_app_length'. rewrite length_app, Hhdr. done. }
  rewrite Hdrop, take_app_length' by done.
  unfold bind, readUInt16LE.
  assert (Hat : forall k x,
             (p0 :: p1 :: rest) !! k = Some x ->
             (hdr ++ len :: name ++ p0 :: p1 :: rest)
               !! (7 + Z.to_nat (u8 len) + k)%nat = Some x).
  { intros k x Hk.
    change (len :: name ++ p0 :: p1 :: rest)
      with ([len] ++ name ++ p0 :: p1 :: rest).
    rewrite !app_assoc, lookup_app_r by (rewrite !length_app, Hhdr, Hname; cbn; lia).
    rewrite !length_app, Hhdr, Hname. cbn [length].
    by replace (7 + Z.to_nat (u8 len) + k - (6 + 1 + Z.to_nat (u8 len)))%nat
      with k by lia. }
  unfold Bytes.
  replace (7 + Z.to_nat (u8 len))%nat with (7 + Z.to_nat (u8 len) + 0)%nat by lia.
  rewrite (Hat 0%nat p0) by done.
  replace (S (7 + Z.to_nat (u8 len) + 0))%nat
    with (7 + Z.to_nat (u8 len) + 1)%nat by lia.
  by rewrite (Hat 1%nat p1).
Qed.

Lemma alloc_world idx tag req w :
  out_of_range (cap_of w) idx = false ->
  table w !! Z.to_nat idx = Some req ->
  Request.inUsed req = false ->
  ReqMgr_alloc idx tag w =
    (Return (Some (Z.to_nat idx)),
     set_table
       (fun q => <[Z.to_nat idx := Request.mk tag false (Some true) (Some idx)
                                              (Request.socketb req)]> q)
       w).
Proof.
  intros Hrange Hr Hflag.
  unfold ReqMgr_alloc, bind, the_cap, gets, the_request, modify_request, update.
  cbn [fst snd]. rewrite Hrange, Hr, Hflag. f_equal.
  set (r := Z.to_nat idx) in *.
  change (set_table (alter (Request.set_isUsed (Some true)) r)
            (set_table (alter (Request.set_idx (Some idx)) r)
               (set_table (alter (Request.set_tag tag) r) w)))
    with (set_table
            (fun q => alter (Request.set_isUsed (Some true)) r
                        (alter (Request.set_idx (Some idx)) r
                           (alter (Request.set_tag tag) r q))) w).
  apply set_table_ext.
  rewrite (alter_as_insert _ _ _ _ Hr).
  rewrite !alter_after_insert by (eapply lookup_lt_Some, Hr).
  unfold Request.set_isUsed, Request.set_idx, Request.set_tag. cbn.
  by rewrite Hflag.
Qed.

(** A domain-name frame for a slot in range comes down to [proxy] on the
    slot that [alloc] has just marked. *)
Lemma domain_request_reaches_proxy w i0 i1 t0 t1 len name p0 p1 rest req :
  reachable w ->
  length name = Z.to_nat (u8 len) ->
  out_of_range (cap_of w) (u16 i0 i1) = false ->
  table w !! Z.to_nat (u16 i0 i1) = Some req ->
  on_message (Byte.x04 :: i0 :: i1 :: t0 :: t1 :: Byte.x01 :: len ::
              name ++ p0 :: p1 :: rest) w =
    Request_proxy (Z.to_nat (u16 i0 i1))
      (Buffer_toString name +:+ ":" +:+ pretty (u16 p0 p1))
      (set_table
         (fun q => <[Z.to_nat (u16 i0 i1) :=
                       Request.mk (u16 t0 t1) false (Some true) (Some (u16 i0 i1))
                                  (Request.socketb req)]> q)
         (arrived w)).
Proof.
  intros Hw Hname Hrange Hr.
  assert (Hflag : Request.inUsed req = false).
  { pose proof (reachable_is_unflagged w Hw) as Hflags.
    unfold unflagged in Hflags. rewrite Forall_lookup in Hflags. eauto. }
  rewrite on_message_unfold. fold (arrived w).
  rewrite request_frame_dispatch by done. cbn zeta.
  change (u8 "004" =? CMD_ReqCreated) with true. cbv iota.
  unfold Tunnel_onRequestCreated, bind at 1, readUInt8.
  cbn [lookup list_lookup]. unfold ret at 1.
  change (u8 "001") with 1. unfold bind at 1.
  pose proof (address_block_domain [Byte.x04; i0; i1; t0; t1; Byte.x01]
                len name p0 p1 rest (arrived w) eq_refl Hname) as Hblock.
  cbn [app] in Hblock. rewrite Hblock. clear Hblock.
  unfold bind at 1.
  by rewrite (alloc_world (u16 i0 i1) (u16 t0 t1) req (arrived w) Hrange Hr Hflag).
Qed.

(** X9.  [ReqCreated(idx, tag, domain name, port)] on a running tunnel,
    for a slot in range: the slot is marked in use under [tag] with [idx]
    stored.  When it holds no egress socket, one connection is opened to
    ["<name>:<port>"] (the name as [toString()] decodes it, the port in
    decimal), and the new socket, named by the slot, is attached to it in
    state connecting with nothing queued.  When it holds one already,
    [proxy] only logs: no connection is opened and the old socket stays
    attached under the new tag. *)
Theorem domain_request_opens_egress w i0 i1 t0 t1 len name p0 p1 rest req :
  reachable w ->
  length name = Z.to_nat (u8 len) ->
  out_of_range (cap_of w) (u16 i0 i1) = false ->
  table w !! Z.to_nat (u16 i0 i1) = Some req ->
  let r := Z.to_nat (u16 i0 i1) in
  let s := length (sockets w) in
  let addr := Buffer_toString name +:+ ":" +:+ pretty (u16 p0 p1) in
  on_message (Byte.x04 :: i0 :: i1 :: t0 :: t1 :: Byte.x01 :: len ::
              name ++ p0 :: p1 :: rest) w =
    (Return tt,
     match Request.socketb req with
     | None =>
         set_table
           (fun q => <[r := Request.mk (u16 t0 t1) false (Some true)
                                       (Some (u16 i0 i1)) (Some s)]> q)
           (set_sockets
              (fun h => h ++ [Socketb.mk addr r STATE_CONNECTING (Some s) [] false])
              (logged [EvConnect s addr] (arrived w)))
     | Some s0 =>
         set_table
           (fun q => <[r := Request.mk (u16 t0 t1) false (Some true)
                                       (Some (u16 i0 i1)) (Some s0)]> q)
           (logged [EvLog "Request.proxy failed: request already in proxying"]
                   (arrived w))
     end).
Proof.
  intros Hw Hname Hrange Hr r s addr.
  assert (Hlen : (r < length (table w))%nat) by (eapply lookup_lt_Some, Hr).
  rewrite (domain_request_reaches_proxy w i0 i1 t0 t1 len name p0 p1 rest req)
    by done.
  fold r. fold addr. set (w1 := set_table _ (arrived w)).
  assert (Hr1 : table w1 !! r =
                Some (Request.mk (u16 t0 t1) false (Some true) (Some (u16 i0 i1))
                                 (Request.socketb req))).
  { unfold w1, table, arrived. cbn. by apply list_lookup_insert_eq. }
  unfold Request_proxy, bind at 1, the_request. rewrite Hr1. cbn [Request.socketb].
  destruct (Request.socketb req) as [s0|] eqn:Hsock.
  { reflexivity. }
  unfold Socketb_new, bind, gets, update, modify_request, ret. cbn [fst snd].
  change (sockets w1) with (sockets w). fold s.
  unfold update. f_equal.
  match goal with
  | |- set_table ?f ?x = _ =>
      change (set_table f x)
        with (set_table (fun _ => alter (Request.set_socketb (Some s)) r (table w1))
                (set_sockets
                   (fun h => h ++ [Socketb.mk addr r STATE_CONNECTING (Some s) [] false])
                   (logged [EvConnect s addr] (arrived w))))
  end.
  apply set_table_ext.
  unfold w1 at 1, table at 1, arrived. cbn. fold (table w).
  by rewrite alter_after_insert by done.
Qed.

Lemma domain_request_opens_egress_at_fresh :
  on_message created_domain_0_7 fresh =
    (Return tt,
     set_table
       (fun q => <[0%nat := Request.mk 7 false (Some true) (Some 0) (Some 0%nat)]> q)
       (set_sockets
          (fun h => h ++ [Socketb.mk "a.b:80" 0 STATE_CONNECTING (Some 0%nat) [] false])
          (logged [EvConnect 0 "a.b:80"] (arrived fresh)))).
Proof.
  apply (domain_request_opens_egress fresh
           Byte.x00 Byte.x00 Byte.x07 Byte.x00 (byte_of 3)
           (frame [97; 46; 98]) (byte_of 80) Byte.x00 [] (Request.new 0)).
  - apply reachable_boot.
  - reflexivity.
  - reflexivity.
  - reflexivity.
Defined.

(** A name of ASCII bytes, which every host name is, is handed to
    [connect] as it came; other bytes are decoded as described. *)
Lemma toString_ascii name :
  Forall (fun b => u8 b <= 127) name ->
  Buffer_toString name = String.string_of_list_byte name.
Proof.
  intros H. unfold Buffer_toString. f_equal.
  induction H as [|b l Hb Hl IH]; [done|].
  cbn [utf8_decode]. unfold utf8_start.
  destruct (Z.leb_spec (u8 b) 127); [|lia]. cbn. by rewrite IH.
Qed.

Example toString_replaces_ill_formed :
  utf8_decode [] 0 128 191 (frame [97; 255; 195; 169; 226; 130; 98])
    = frame [97; 239; 191; 189; 195; 169; 239; 191; 189; 98].
Proof. reflexivity. Qed.

(** X10.  [ReqCreated] with a domain name for an [idx] at or beyond the
    capacity: [alloc] logs and returns null, and the failure branch of
    [onRequestCreated] then raises [ReferenceError] on [err] instead of
    logging; no slot is touched and no connection is opened. *)
Theorem domain_request_beyond_capacity w i0 i1 t0 t1 len name p0 p1 rest :
  length name = Z.to_nat (u8 len) ->
  cap_of w <= u16 i0 i1 ->
  on_message (Byte.x04 :: i0 :: i1 :: t0 :: t1 :: Byte.x01 :: len ::
              name ++ p0 :: p1 :: rest) w =
    (Throw (ReferenceError "err"),
     logged [EvLog "reqmgr.alloc idx exceed cap, idx:"] (arrived w)).
Proof.
  intros Hname Hcap.
  rewrite on_message_unfold. fold (arrived w).
  rewrite request_frame_dispatch by done. cbn zeta.
  change (u8 "004" =? CMD_ReqCreated) with true. cbv iota.
  unfold Tunnel_onRequestCreated, bind at 1, readUInt8.
  cbn [lookup list_lookup]. unfold ret at 1.
  change (u8 "001") with 1. unfold bind at 1.
  pose proof (address_block_domain [Byte.x04; i0; i1; t0; t1; Byte.x01]
                len name p0 p1 rest (arrived w) eq_refl Hname) as Hblock.
  cbn [app] in Hblock. rewrite Hblock. clear Hblock.
  unfold bind at 1. rewrite alloc_out_of_range; [done|].
  unfold out_of_range. apply orb_true_intro. left. by apply Z.leb_le.
Qed.

Lemma domain_request_beyond_capacity_at_fresh :
  on_message (frame [4; 2; 0; 7; 0; 1; 3; 97; 46; 98; 80; 0]) fresh =
    (Throw (ReferenceError "err"),
     logged [EvLog "reqmgr.alloc idx exceed cap, idx:"] (arrived fresh)).
Proof.
  apply (domain_request_beyond_capacity fresh
           (byte_of 2) Byte.x00 Byte.x07 Byte.x00 (byte_of 3)
           (frame [97; 46; 98]) (byte_of 80) Byte.x00 []).
  - reflexivity.
  - cbv. discriminate.
Defined.

(** X11.  [ReqCreated] with an address type of 3 or more is logged as
    unsupported and dropped: no slot is allocated, no connection opened. *)
Theorem unknown_address_type_is_dropped w i0 i1 t0 t1 t rest :
  3 <= u8 t ->
  on_message (Byte.x04 :: i0 :: i1 :: t0 :: t1 :: t :: rest) w =
    (Return tt,
     logged [EvLog "onRequestCreated, unsupport addressType:"] (arrived w)).
Proof.
  intros Ht.
  rewrite on_message_unfold. fold (arrived w).
  rewrite request_frame_dispatch by done. cbn zeta.
  change (u8 "004" =? CMD_ReqCreated) with true. cbv iota.
  unfold Tunnel_onRequestCreated, bind at 1, readUInt8.
  cbn [lookup list_lookup]. unfold ret at 1.
  unfold bind at 1, address_block.
  destruct (Z.eqb_spec (u8 t) 0); [lia|].
  destruct (Z.eqb_spec (u8 t) 1); [lia|].
  destruct (Z.eqb_spec (u8 t) 2); [lia|].
  reflexivity.
Qed.

Lemma unknown_address_type_is_dropped_at_fresh :
  on_message (frame [4; 0; 0; 7; 0; 3; 1; 2; 3]) fresh =
    (Return tt,
     logged [EvLog "onRequestCreated, unsupport addressType:"] (arrived fresh)).
Proof.
  apply (unknown_address_type_is_dropped fresh
           Byte.x00 Byte.x00 Byte.x07 Byte.x00 (byte_of 3) (frame [1; 2; 3])).
  cbv. discriminate.
Defined.

(** ** [send] and the frames the tunnel originates *)

Lemma async_call_returns m w : fst (async_call m w) = Return tt.
Proof. unfold async_call, try_catch. by destruct (m w) as [[[]|e] w']. Qed.

Lemma startSendLoop_returns w : fst (Tunnel_startSendLoop w) = Return tt.
Proof.
  unfold Tunnel_startSendLoop, bind, the_tunnel, gets. cbn [fst snd].
  destruct (Tunnel.inSending (tunnel w)); [done | apply async_call_returns].
Qed.

Ltac enqueued_update :=
  unfold enqueued in *; cbn in *; rewrite ?omap_app; cbn; rewrite ?app_nil_r;
  assumption.

Lemma callSendBufResolve_keeps_enqueued E e :
  preserves (fun w => enqueued (trace w) = E) (Tunnel_callSendBufResolve e).
Proof. intros w Hw. rewrite callSendBufResolve_spec. cbn. enqueued_update. Qed.

#[local] Hint Resolve callSendBufResolve_keeps_enqueued : keeps.

(** Neither starting the drainer nor running it on enqueues anything. *)
Lemma startSendLoop_keeps_enqueued E :
  preserves (fun w => enqueued (trace w) = E) Tunnel_startSendLoop.
Proof. keep_with enqueued_update. Qed.

Lemma run_parked_keeps_enqueued E :
  preserves (fun w => enqueued (trace w) = E) run_parked.
Proof. keep_with enqueued_update. Qed.


Lemma preserves_promises n (m : M unit) :
  preserves (fun w => promises w = n) m ->
  forall w, promises w = n -> promises (snd (m w)) = n.
Proof. intros H w Hw. by apply H. Qed.

Ltac same_update :=
  unfold same_requests, table in *; cbn in *; assumption.

Lemma callSendBufResolve_keeps_same w0 e :
  preserves (same_requests w0) (Tunnel_callSendBufResolve e).
Proof. intros w Hw. rewrite callSendBufResolve_spec. cbn. same_update. Qed.

#[local] Hint Resolve callSendBufResolve_keeps_same : keeps.

Lemma send_keeps_same w0 b : preserves (same_requests w0) (Tunnel_send b).
Proof. keep_with same_update. Qed.

Lemma run_parked_keeps_same w0 : preserves (same_requests w0) run_parked.
Proof. keep_with same_update. Qed.

Lemma same_requests_refl w : same_requests w w.
Proof. by repeat split. Qed.

(** [send] on an open socket: one entry, holding a new promise, is
    enqueued, and the promise is handed back pending. *)
Lemma send_open b w :
  websocket_open w = true ->
  fst (Tunnel_send b w) = Return (Pending (promises w)) /\
  enqueued (trace (snd (Tunnel_send b w))) = enqueued (trace w) ++ [entry_for b w] /\
  promises (snd (Tunnel_send b w)) = S (promises w).
Proof.
  unfold websocket_open. intros Hopen.
  destruct (Tunnel_send b w) as [res w'] eqn:E. cbn [fst snd].
  unfold Tunnel_send, bind at 1, the_tunnel at 1, gets in E. cbn [fst snd] in E.
  destruct (Tunnel.websocket (tunnel w)) as [h|]; [|done].
  rewrite Hopen in E. cbn [negb] in E.
  unfold bind at 1, gets in E. cbn [fst snd] in E.
  unfold bind at 1, update at 1 in E.
  fold (entry_for b w) in E. set (e := entry_for b w) in *.
  unfold Tunnel_pushSendRequest, bind at 2, update at 1 in E.
  unfold bind at 2, update at 1 in E.
  unfold bind in E. cbv beta in E.
  set (w2 := emit (EvEnqueue e) _) in E.
  assert (HE : enqueued (trace w2) = enqueued (trace w) ++ [e]).
  { unfold w2. cbn. by rewrite enqueued_emit_enqueue. }
  pose proof (startSendLoop_returns w2) as Hret.
  pose proof (startSendLoop_keeps_enqueued _ w2 HE) as Henq.
  assert (Hp : promises (snd (Tunnel_startSendLoop w2)) = S (promises w)).
  { apply (preserves_promises _ Tunnel_startSendLoop); [|done].
    keep_with ltac:(cbn in *; assumption). }
  destruct (Tunnel_startSendLoop w2) as [res3 w3].
  cbn in Hret, Henq, Hp. subst res3. cbn in E. by injection E as <- <-.
Qed.

Lemma send_shut w b :
  websocket_open w = false ->
  exists msg, Tunnel_send b w = (Return AlreadyResolved, logged [EvLog msg] w).
Proof.
  unfold websocket_open. intros Hshut.
  unfold Tunnel_send, bind at 1, the_tunnel at 1, gets. cbn [fst snd].
  destruct (Tunnel.websocket (tunnel w)) as [h|]; [rewrite Hshut|]; by eexists.
Qed.

(** X12.  [send] when the WebSocket is null or not open: one log line, an
    already-resolved promise, nothing enqueued and no promise created. *)
Theorem send_without_open_socket w b :
  websocket_open w = false ->
  exists msg, Tunnel_send b w = (Return AlreadyResolved, logged [EvLog msg] w).
Proof. apply send_shut. Qed.

Lemma send_without_open_socket_after_close :
  exists msg,
    Tunnel_send (BufPing 0) (run [OpClose] fresh) =
      (Return AlreadyResolved, logged [EvLog msg] (run [OpClose] fresh)).
Proof.
  apply (send_without_open_socket (run [OpClose] fresh) (BufPing 0)). reflexivity.
Defined.

Lemma ping_dispatch body w :
  on_message (Byte.x01 :: body) w =
    async_call (Tunnel_sendPongMessage (Byte.x01 :: body)) (arrived w).
Proof.
  rewrite on_message_unfold. fold (arrived w).
  unfold Tunnel_onTunnelMessage, ArrayBuffer_length, js_lt.
  unfold bind at 1, readUInt8. cbn [lookup list_lookup]. unfold ret at 1.
  reflexivity.
Qed.

(** X13.  A [Ping] frame on an open WebSocket is answered: exactly one
    entry is enqueued, whose buffer is the received frame with byte 0
    rewritten to [Pong]; requests, sockets and the keepalive counter are
    untouched.  On a WebSocket that is not open nothing is enqueued. *)
Theorem ping_is_answered_with_pong w body :
  let data := Byte.x01 :: body in
  let w' := exec (on_message data) w in
  outcome (on_message data) w = Return tt /\
  same_requests (arrived w) w' /\
  enqueued (trace w') =
    enqueued (trace w) ++
    (if websocket_open w then [entry_for (BufBytes (Byte.x02 :: body)) w] else []).
Proof.
  intros data w'. unfold outcome, w', exec, data.
  rewrite ping_dispatch.
  split; [apply async_call_returns|].
  rewrite async_call_world. unfold Tunnel_sendPongMessage.
  rewrite bind_ret_world.
  split.
  - apply send_keeps_same, same_requests_refl.
  - destruct (websocket_open w) eqn:Hopen.
    + by destruct (send_open (BufBytes (Byte.x02 :: body)) (arrived w) Hopen)
        as (_ & -> & _).
    + destruct (send_shut (arrived w) (BufBytes (Byte.x02 :: body)) Hopen)
        as [msg ->].
      cbn. by rewrite enqueued_emit_log, app_nil_r.
Qed.

(** ** Keepalive with a counter that holds a number *)

Lemma keepalive_over_limit w n now throttle :
  Tunnel.waitingPing (tunnel w) = NInt n -> 3 < n ->
  Tunnel_keepalive now throttle w = Tunnel_close w.
Proof.
  intros Hn Hgt. unfold Tunnel_keepalive, bind at 1, the_tunnel at 1, gets.
  cbn [fst snd]. rewrite Hn. cbn [js_gt].
  by destruct (Z.ltb_spec 3 n); [|lia].
Qed.

Lemma keepalive_idle_eq w n now throttle :
  Tunnel.waitingPing (tunnel w) = NInt n -> n <= 3 ->
  throttle < now - Tunnel.lastActivate (tunnel w) ->
  Tunnel_keepalive now throttle w =
    (Return tt,
     set_tunnel (fun x => Tunnel.set_waitingPing (js_incr (Tunnel.waitingPing x)) x)
                (snd (Tunnel_send (BufPing (clock w)) w))).
Proof.
  intros Hn Hle Hidle.
  unfold Tunnel_keepalive, bind at 1, the_tunnel at 1, gets.
  cbn [fst snd]. rewrite Hn. cbn [js_gt].
  destruct (Z.ltb_spec 3 n); [lia|].
  unfold bind at 1, the_tunnel at 1, gets. cbn [fst snd].
  destruct (Z.ltb_spec throttle (now - Tunnel.lastActivate (tunnel w))); [|lia].
  unfold bind at 1.
  pose proof (async_call_returns Tunnel_sendPingMessage w) as Hret.
  pose proof (async_call_world Tunnel_sendPingMessage w) as Hw1.
  destruct (async_call Tunnel_sendPingMessage w) as [res w1].
  cbn in Hret, Hw1. subst res. unfold update. do 2 f_equal.
  rewrite Hw1. unfold Tunnel_sendPingMessage, bind at 1, gets. cbn [fst snd].
  apply bind_ret_world.
Qed.

Lemma keepalive_idle_tick w n now throttle :
  Tunnel.waitingPing (tunnel w) = NInt n -> n <= 3 ->
  throttle < now - Tunnel.lastActivate (tunnel w) ->
  let w' := exec (Tunnel_keepalive now throttle) w in
  Tunnel.waitingPing (tunnel w') = NInt (n + 1) /\
  Tunnel.websocket (tunnel w') = Tunnel.websocket (tunnel w) /\
  Tunnel.lastActivate (tunnel w') = Tunnel.lastActivate (tunnel w) /\
  table w' = table w /\ sockets w' = sockets w /\
  enqueued (trace w') =
    enqueued (trace w) ++
    (if websocket_open w then [entry_for (BufPing (clock w)) w] else []).
Proof.
  intros Hn Hle Hidle w'. unfold w', exec.
  rewrite (keepalive_idle_eq w n) by done. cbn [snd].
  pose proof (send_keeps_same w (BufPing (clock w)) w (same_requests_refl w))
    as (Ht & Hs & Hp & Hws & Hla & _).
  set (w1 := snd (Tunnel_send (BufPing (clock w)) w)) in *.
  assert (Henq : enqueued (trace w1) =
                 enqueued (trace w) ++
                 (if websocket_open w then [entry_for (BufPing (clock w)) w] else [])).
  { unfold w1. destruct (websocket_open w) eqn:Hopen.
    - by destruct (send_open (BufPing (clock w)) w Hopen) as (_ & -> & _).
    - destruct (send_shut w (BufPing (clock w)) Hopen) as [msg ->].
      cbn. by rewrite enqueued_emit_log, app_nil_r. }
  cbn. rewrite Hp, Hn. cbn [js_incr].
  unfold table in *. cbn. by repeat split.
Qed.

Lemma keepalive_busy_tick w n now throttle :
  Tunnel.waitingPing (tunnel w) = NInt n -> n <= 3 ->
  now - Tunnel.lastActivate (tunnel w) <= throttle ->
  Tunnel_keepalive now throttle w = (Return tt, w).
Proof.
  intros Hn Hle Hbusy.
  unfold Tunnel_keepalive, bind at 1, the_tunnel at 1, gets.
  cbn [fst snd]. rewrite Hn. cbn [js_gt].
  destruct (Z.ltb_spec 3 n); [lia|].
  unfold bind at 1, the_tunnel at 1, gets. cbn [fst snd].
  by destruct (Z.ltb_spec throttle (now - Tunnel.lastActivate (tunnel w))); [lia|].
Qed.

Lemma Tunnel_close_nulls w : Tunnel.websocket (tunnel (snd (Tunnel_close w))) = None.
Proof.
  unfold Tunnel_close, Tunnel_isWebsocketValid, bind at 1, the_tunnel, gets.
  cbn [fst snd].
  destruct (Tunnel.websocket (tunnel w)) as [h|] eqn:Hws.
  - by rewrite bool_decide_eq_true_2 by eauto.
  - rewrite bool_decide_eq_false_2 by (intros [? ?]; done). done.
Qed.

(** X14.  One tick of [keepalive(now, throttle)] on a tunnel whose counter
    holds the number [n].  Above 3 the tick is [close], which nulls the
    WebSocket.  Otherwise, when the tunnel has been idle for more than
    [throttle], the counter becomes [n + 1] and (on an open WebSocket) one
    ping stamped with the clock is enqueued; when it has not, nothing
    changes. *)
Theorem keepalive_tick_with_counter w n now throttle :
  Tunnel.waitingPing (tunnel w) = NInt n ->
  let w' := exec (Tunnel_keepalive now throttle) w in
  (3 < n -> Tunnel.websocket (tunnel w') = None) /\
  (n <= 3 -> throttle < now - Tunnel.lastActivate (tunnel w) ->
   Tunnel.waitingPing (tunnel w') = NInt (n + 1) /\
   Tunnel.websocket (tunnel w') = Tunnel.websocket (tunnel w) /\
   enqueued (trace w') =
     enqueued (trace w) ++
     (if websocket_open w then [entry_for (BufPing (clock w)) w] else [])) /\
  (n <= 3 -> now - Tunnel.lastActivate (tunnel w) <= throttle -> w' = w).
Proof.
  intros Hn w'. unfold w', exec. split; [|split].
  - intros Hgt. rewrite (keepalive_over_limit w n) by done. apply Tunnel_close_nulls.
  - intros Hle Hidle.
    by destruct (keepalive_idle_tick w n now throttle Hn Hle Hidle)
      as (? & ? & _ & _ & _ & ?).
  - intros Hle Hbusy. by rewrite (keepalive_busy_tick w n) by done.
Qed.

Lemma keepalive_tick_with_counter_at_answered :
  Tunnel.waitingPing (tunnel (exec (Tunnel_keepalive 11001 10000) answered)) = NInt 1 /\
  Tunnel.websocket (tunnel (exec (Tunnel_keepalive 11001 10000) answered))
    = Tunnel.websocket (tunnel answered) /\
  enqueued (trace (exec (Tunnel_keepalive 11001 10000) answered)) =
    enqueued (trace answered) ++
    (if websocket_open answered then [entry_for (BufPing (clock answered)) answered]
     else []).
Proof.
  apply (keepalive_tick_with_counter answered 0 11001 10000); reflexivity || (cbv; discriminate).
Defined.

Lemma idle_ticks_count nows : forall w n,
  Tunnel.waitingPing (tunnel w) = NInt n ->
  n + Z.of_nat (length nows) <= 4 ->
  Forall (fun now => KEEPALIVE_INTERVAL < now - Tunnel.lastActivate (tunnel w)) nows ->
  let w' := run (ticks nows) w in
  Tunnel.waitingPing (tunnel w') = NInt (n + Z.of_nat (length nows)) /\
  Tunnel.websocket (tunnel w') = Tunnel.websocket (tunnel w) /\
  Tunnel.lastActivate (tunnel w') = Tunnel.lastActivate (tunnel w) /\
  table w' = table w /\ sockets w' = sockets w /\
  length (enqueued (trace w')) =
    (length (enqueued (trace w)) + if websocket_open w then length nows else 0)%nat.
Proof.
  induction nows as [|now nows IH]; intros w n Hn Hle Hidle.
  - cbn. rewrite Z.add_0_r. repeat split; try done. destruct (websocket_open w); lia.
  - cbn [length] in Hle. apply Forall_cons_1 in Hidle as [Hnow Hidle].
    destruct (keepalive_idle_tick w n now KEEPALIVE_INTERVAL Hn ltac:(lia) Hnow)
      as (Hn1 & Hws1 & Hla1 & Ht1 & Hs1 & He1).
    set (w1 := exec (Tunnel_keepalive now KEEPALIVE_INTERVAL) w) in *.
    rewrite <- Hla1 in Hidle.
    destruct (IH w1 (n + 1) Hn1 ltac:(lia) Hidle) as (Hn' & Hws' & Hla' & Ht' & Hs' & He').
    change (run (ticks (now :: nows)) w) with (run (ticks nows) w1). cbv zeta.
    assert (Hopen : websocket_open w1 = websocket_open w)
      by (unfold websocket_open; by rewrite Hws1).
    rewrite Hn', Hws', Hla', Ht', Hs', He', He1, Hopen, length_app.
    cbn [length]. repeat split; try done.
    + f_equal. lia.
    + destruct (websocket_open w); cbn; lia.
Qed.

(** X15.  Once a pong has set the counter to 0, keepalive does time out:
    four ticks that each find the tunnel idle for more than the interval
    send one ping each (on an open WebSocket) and leave the WebSocket in
    place with the counter at 4; the next tick, whatever its clock
    reading, calls [close] and the WebSocket is null. *)
Theorem four_pings_then_close w nows :
  Tunnel.waitingPing (tunnel w) = NInt 0 ->
  length nows = 4%nat ->
  Forall (fun now => KEEPALIVE_INTERVAL < now - Tunnel.lastActivate (tunnel w)) nows ->
  let w4 := run (ticks nows) w in
  Tunnel.waitingPing (tunnel w4) = NInt 4 /\
  Tunnel.websocket (tunnel w4) = Tunnel.websocket (tunnel w) /\
  length (enqueued (trace w4)) =
    (length (enqueued (trace w)) + if websocket_open w then 4 else 0)%nat /\
  forall now, Tunnel.websocket (tunnel (run (ticks [now]) w4)) = None.
Proof.
  intros Hn Hlen Hidle w4.
  destruct (idle_ticks_count nows w 0 Hn ltac:(lia) Hidle)
    as (Hn4 & Hws4 & _ & _ & _ & He4).
  fold w4 in Hn4, Hws4, He4. rewrite Hlen in Hn4, He4.
  repeat split; try done.
  intros now. cbn. unfold step. cbn [handler]. unfold exec.
  rewrite (keepalive_over_limit w4 4) by (done || lia).
  apply Tunnel_close_nulls.
Qed.

Lemma four_pings_then_close_at_answered :
  let w4 := run (ticks [11001; 21001; 31001; 41001]) answered in
  Tunnel.waitingPing (tunnel w4) = NInt 4 /\
  Tunnel.websocket (tunnel w4) = Tunnel.websocket (tunnel answered) /\
  length (enqueued (trace w4)) =
    (length (enqueued (trace answered)) + if websocket_open answered then 4 else 0)%nat /\
  forall now, Tunnel.websocket (tunnel (run (ticks [now]) w4)) = None.
Proof.
  apply (four_pings_then_close answered [11001; 21001; 31001; 41001]).
  - reflexivity.
  - reflexivity.
  - repeat constructor.
Defined.

(** ** After the WebSocket is gone *)

Ltac gone_update :=
  unfold gone, websocket_open, sent, enqueued in *; cbn in *;
  rewrite ?omap_app; cbn; rewrite ?app_nil_r;
  first [ assumption | repeat split; first [ tauto | discriminate ] ].

Lemma callSendBufResolve_keeps_gone S E e :
  preserves (gone S E) (Tunnel_callSendBufResolve e).
Proof. intros w Hw. rewrite callSendBufResolve_spec. cbn. gone_update. Qed.

Lemma send_keeps_gone S E b : preserves (gone S E) (Tunnel_send b).
Proof.
  intros w Hw. pose proof Hw as (Hshut & _).
  destruct (send_shut w b Hshut) as [msg ->]. cbn. gone_update.
Qed.

Lemma websocket_send_keeps_gone S E e : preserves (gone S E) (websocket_send e).
Proof.
  intros w Hw. pose proof Hw as (Hshut & _).
  by destruct (websocket_send_shut e w Hshut) as [err ->].
Qed.

Lemma host_readyState_keeps_gone S E rs :
  preserves (gone S E) (update (set_tunnel (host_readyState rs))).
Proof.
  intros w Hw. unfold update, set_tunnel. cbn [snd].
  destruct (host_readyState_cases rs (tunnel w)) as [-> | [Hrs ->]].
  - gone_update.
  - unfold gone, websocket_open in *; cbn in *.
    destruct Hw as (_ & H2 & H3). repeat split; try assumption.
    apply Z.eqb_neq. lia.
Qed.

#[local] Hint Resolve callSendBufResolve_keeps_gone send_keeps_gone
  websocket_send_keeps_gone : keeps.

Lemma handler_keeps_gone S E o : preserves (gone S E) (handler o).
Proof.
  destruct o; cbn [handler];
    try apply host_readyState_keeps_gone;
    keep_with gone_update.
Qed.

(** X16.  Once the WebSocket is null or no longer open it stays so, and
    from then on no event of the tunnel (inbound frame, tick, socket
    event, drainer continuation, close) sends or enqueues a frame. *)
Theorem nothing_leaves_after_socket_gone w ops :
  websocket_open w = false ->
  websocket_open (run ops w) = false /\
  sent (trace (run ops w)) = sent (trace w) /\
  enqueued (trace (run ops w)) = enqueued (trace w).
Proof.
  intros Hshut.
  apply (run_invariant (gone (sent (trace w)) (enqueued (trace w)))).
  - apply handler_keeps_gone.
  - by repeat split.
Qed.

Lemma nothing_leaves_after_close_of_stalled :
  websocket_open (run [OpResume; OpSockClosed 0; OpKeepalive 11001 10000]
                      (run [OpClose] stalled)) = false /\
  sent (trace (run [OpResume; OpSockClosed 0; OpKeepalive 11001 10000]
                   (run [OpClose] stalled)))
    = sent (trace (run [OpClose] stalled)) /\
  enqueued (trace (run [OpResume; OpSockClosed 0; OpKeepalive 11001 10000]
                       (run [OpClose] stalled)))
    = enqueued (trace (run [OpClose] stalled)).
Proof.
  apply (nothing_leaves_after_socket_gone (run [OpClose] stalled)
           [OpResume; OpSockClosed 0; OpKeepalive 11001 10000]).
  reflexivity.
Defined.

(** ** Events of the egress socket *)

Lemma closed_socket_alter (s : nat) (l : list Socketb.t) :
  alter (Socketb.set_chunks2Send [])
        s (alter (Socketb.set_sock None) s (alter (Socketb.set_state STATE_CLOSED) s l))
  = alter closed_socket s l.
Proof. rewrite !list_alter_alter_eq. by apply list_alter_ext. Qed.

Lemma closed_socket_alter' (s : nat) (l : list Socketb.t) :
  alter (Socketb.set_state STATE_CLOSED)
        s (alter (Socketb.set_chunks2Send []) s (alter (Socketb.set_sock None) s l))
  = alter closed_socket s l.
Proof. rewrite !list_alter_alter_eq. by apply list_alter_ext. Qed.

Lemma onClosed_unfold s w :
  exec (Socketb_onClosed s) w =
  exec (Socketb_evtCallback s EvtClosed) (set_sockets (alter closed_socket s) w).
Proof.
  unfold exec, Socketb_onClosed, modify_socket, bind, update. cbv beta iota.
  rewrite async_call_world. f_equal.
  unfold set_sockets. cbn. by rewrite closed_socket_alter.
Qed.

(** The callback of a socket that its request no longer holds. *)
Lemma evtCallback_stale s o req ev w :
  sockets w !! s = Some o ->
  table w !! Socketb.evtCallback o = Some req ->
  Request.socketb req <> Some s ->
  Socketb_evtCallback s ev w = (Return tt, w).
Proof.
  intros Hs Hr Hne.
  unfold Socketb_evtCallback, bind at 1, the_socket. rewrite Hs.
  unfold Request_callback, bind at 1, the_request. rewrite Hr.
  by rewrite bool_decide_eq_false_2.
Qed.

(** The events the closure of [Request.proxy] has no case for. *)
Lemma evtCallback_ignored s ev w :
  match ev with EvtConnected | EvtError | EvtFinish => True | _ => False end ->
  snd (Socketb_evtCallback s ev w) = w.
Proof.
  intros Hev. unfold Socketb_evtCallback, bind at 1, the_socket.
  destruct (sockets w !! s) as [o|]; [|done].
  unfold Request_callback, bind at 1, the_request.
  destruct (table w !! Socketb.evtCallback o) as [req|]; [|done].
  case_bool_decide; by destruct ev.
Qed.

Lemma evtCallback_closed_eq s o req i w :
  sockets w !! s = Some o ->
  table w !! Socketb.evtCallback o = Some req ->
  Request.socketb req = Some s ->
  Request.idx req = Some i -> 0 <= i <= 65535 ->
  0 <= Request.tag req <= 65535 ->
  snd (Socketb_evtCallback s EvtClosed w) =
  snd (Tunnel_send (BufBytes [Byte.x08; byte_of (i mod 2 ^ 8); byte_of (i / 2 ^ 8);
                              byte_of (Request.tag req mod 2 ^ 8);
                              byte_of (Request.tag req / 2 ^ 8)]) w).
Proof.
  intros Hs Hr Hsock Hidx Hi Htag.
  unfold Socketb_evtCallback, bind at 1, the_socket. rewrite Hs.
  unfold Request_callback, bind at 1, the_request. rewrite Hr.
  rewrite bool_decide_eq_true_2 by done. cbn [negb].
  unfold Request_onServerClosed. rewrite async_call_world.
  unfold Tunnel_onReqServerClosed, bind at 1, the_request.
  rewrite Hr, Hidx. unfold writeUInt16LE.
  replace ((0 <=? i) && (i <=? 65535)) with true by lia.
  replace ((0 <=? Request.tag req) && (Request.tag req <=? 65535)) with true by lia.
  unfold bind at 1, ret. unfold bind at 1. cbn [app].
  unfold bind.
  by destruct (Tunnel_send _ w) as [[p|e] w2].
Qed.

Lemma u16_of_halves v :
  0 <= v <= 65535 -> u16 (byte_of (v mod 2 ^ 8)) (byte_of (v / 2 ^ 8)) = v.
Proof.
  intros Hv. unfold u16. change (2 ^ 8) with 256.
  pose proof (Z.div_mod v 256 ltac:(lia)) as Hdm.
  pose proof (Z.mod_pos_bound v 256 ltac:(lia)) as Hm.
  assert (0 <= v / 256 <= 255)
    by (split; [apply Z.div_pos; lia
               | apply Z.lt_succ_r, Z.div_lt_upper_bound; lia]).
  rewrite !u8_byte_of by lia. lia.
Qed.

(** X17.  The [closed] event of an egress socket that its request still
    holds: the socket object is closed and emptied, and on an open
    WebSocket one five-byte [ReqServerClosed] frame is enqueued whose idx
    and tag fields read back as the slot's.  The slot itself is not
    released: the table is unchanged. *)
Theorem egress_close_is_reported w s o req i :
  sockets w !! s = Some o ->
  table w !! Socketb.evtCallback o = Some req ->
  Request.socketb req = Some s ->
  Request.idx req = Some i -> 0 <= i <= 65535 ->
  0 <= Request.tag req <= 65535 ->
  websocket_open w = true ->
  let w' := exec (Socketb_onClosed s) w in
  sockets w' = <[s := closed_socket o]> (sockets w) /\
  table w' = table w /\
  exists i0 i1 t0 t1,
    u16 i0 i1 = i /\ u16 t0 t1 = Request.tag req /\
    enqueued (trace w') =
      enqueued (trace w) ++ [entry_for (BufBytes [Byte.x08; i0; i1; t0; t1]) w].
Proof.
  intros Hs Hr Hsock Hidx Hi Htag Hopen w'. unfold w'.
  rewrite onClosed_unfold. unfold exec.
  set (w1 := set_sockets (alter closed_socket s) w).
  assert (Hs1 : sockets w1 !! s = Some (closed_socket o)).
  { unfold w1. cbn. by rewrite list_lookup_alter_eq, Hs. }
  rewrite (evtCallback_closed_eq s (closed_socket o) req i w1) by done.
  set (b := BufBytes _).
  pose proof (send_keeps_same w1 b w1 (same_requests_refl w1)) as (Ht & Hso & _).
  destruct (send_open b w1 Hopen) as (_ & Henq & _).
  rewrite Ht, Hso. split; [|split].
  - unfold w1. cbn. by apply alter_as_insert.
  - done.
  - exists (byte_of (i mod 2 ^ 8)), (byte_of (i / 2 ^ 8)),
           (byte_of (Request.tag req mod 2 ^ 8)), (byte_of (Request.tag req / 2 ^ 8)).
    split; [by apply u16_of_halves | split; [by apply u16_of_halves | exact Henq]].
Qed.

Lemma egress_close_is_reported_at_busy :
  let w' := exec (Socketb_onClosed 0) busy in
  sockets w' =
    <[0%nat := closed_socket (Socketb.mk "a.b:80" 0 STATE_CONNECTING (Some 0%nat) [] false)]>
      (sockets busy) /\
  table w' = table busy /\
  exists i0 i1 t0 t1,
    u16 i0 i1 = 0 /\ u16 t0 t1 = 7 /\
    enqueued (trace w') =
      enqueued (trace busy) ++ [entry_for (BufBytes [Byte.x08; i0; i1; t0; t1]) busy].
Proof.
  apply (egress_close_is_reported busy 0%nat
           (Socketb.mk "a.b:80" 0 STATE_CONNECTING (Some 0%nat) [] false)
           (Request.mk 7 false (Some true) (Some 0) (Some 0%nat)) 0);
    try reflexivity; cbn; lia.
Defined.

(** X18.  The [closed] event of an egress socket that its request no
    longer holds (the slot was released, or holds another socket): the
    socket object is closed and emptied and nothing else happens; no
    frame is enqueued for the peer. *)
Theorem egress_close_of_detached_socket w s o req :
  sockets w !! s = Some o ->
  table w !! Socketb.evtCallback o = Some req ->
  Request.socketb req <> Some s ->
  exec (Socketb_onClosed s) w = set_sockets (fun q => <[s := closed_socket o]> q) w.
Proof.
  intros Hs Hr Hne. rewrite onClosed_unfold. unfold exec.
  rewrite (evtCallback_stale s (closed_socket o) req).
  - cbn [snd]. unfold set_sockets. f_equal. by apply alter_as_insert.
  - cbn. by rewrite list_lookup_alter_eq, Hs.
  - exact Hr.
  - exact Hne.
Qed.

Lemma egress_close_of_detached_socket_at_released :
  exec (Socketb_onClosed 0) released =
  set_sockets
    (fun q => <[0%nat := closed_socket
                          (Socketb.mk "a.b:80" 0 STATE_CONNECTING (Some 0%nat) [] false)]> q)
    released.
Proof.
  apply (egress_close_of_detached_socket released 0%nat
           (Socketb.mk "a.b:80" 0 STATE_CONNECTING (Some 0%nat) [] false)
           (Request.mk 8 false (Some false) (Some 0) None));
    [reflexivity | reflexivity | discriminate].
Defined.

(** X19.  The events of an egress socket that the closure of
    [Request.proxy] has no case for never reach the tunnel.  [connected]
    marks the socket object connected; [error] closes and empties it;
    the end of the readable stream changes nothing.  In none of them is a
    request touched, a frame enqueued or the trace extended by the event
    itself; the socket stays attached to its request. *)
Theorem egress_lifecycle_events_stay_local w s :
  exec (Socketb_onConnected s) w =
    set_sockets (alter (Socketb.set_state STATE_CONNECTTED) s) w /\
  exec (Socketb_onError s) w = set_sockets (alter closed_socket s) w /\
  exec (Socketb_readLoop_end s) w = w.
Proof.
  split; [|split].
  - unfold exec, Socketb_onConnected, modify_socket, bind at 1, update at 1.
    set (w1 := set_sockets _ w).
    unfold bind at 1.
    pose proof (async_call_returns (Socketb_evtCallback s EvtConnected) w1) as Hret.
    pose proof (async_call_world (Socketb_evtCallback s EvtConnected) w1) as Hw.
    rewrite (evtCallback_ignored s EvtConnected w1 I) in Hw.
    destruct (async_call _ w1) as [res w2]. cbn in Hret, Hw. subst res w2.
    unfold Socketb_startSendLoop, bind, the_socket.
    destruct (sockets w1 !! s) as [o|]; [|done].
    by destruct (Socketb.inSending o).
  - unfold exec, Socketb_onError, bind at 1.
    pose proof (async_call_returns (Socketb_evtCallback s EvtError) w) as Hret.
    pose proof (async_call_world (Socketb_evtCallback s EvtError) w) as Hw.
    rewrite (evtCallback_ignored s EvtError w I) in Hw.
    destruct (async_call _ w) as [res w2]. cbn in Hret, Hw. subst res w2.
    unfold modify_socket, bind, update. cbn.
    unfold set_sockets. cbn. by rewrite closed_socket_alter'.
  - unfold exec, Socketb_readLoop_end, bind, the_socket.
    destruct (sockets w !! s) as [o|]; [|done].
    destruct (Socketb.isConnected o); [|done].
    rewrite async_call_world. by apply evtCallback_ignored.
Qed.

(** X20.  A chunk read from an egress socket is never forwarded to the
    peer.  The [data] event of a socket returns and leaves the tunnel,
    the requests, the sockets, the send queue and the trace exactly as
    they were: when the socket's request still holds it,
    [onReqServerData] raises on the unbound [len] inside its own promise,
    which nobody awaits; when it does not, the callback returns early. *)
Theorem egress_data_is_not_forwarded w s o req chunk :
  sockets w !! s = Some o ->
  table w !! Socketb.evtCallback o = Some req ->
  Socketb_readLoop_chunk s chunk w = (Return tt, w).
Proof.
  intros Hs Hr.
  unfold Socketb_readLoop_chunk, try_catch, Socketb_evtCallback, bind at 1,
    the_socket.
  rewrite Hs. unfold Request_callback, bind at 1, the_request. rewrite Hr.
  by case_bool_decide.
Qed.

Lemma egress_data_is_not_forwarded_at_busy :
  Socketb_readLoop_chunk 0 (frame [1; 2; 3]) busy = (Return tt, busy).
Proof.
  apply (egress_data_is_not_forwarded busy 0%nat
           (Socketb.mk "a.b:80" 0 STATE_CONNECTING (Some 0%nat) [] false)
           (Request.mk 7 false (Some true) (Some 0) (Some 0%nat)));
    reflexivity.
Defined.

(** ** Slots and the sockets attached to them *)

Lemma owned_same w w' :
  table w' = table w -> sockets w' = sockets w -> owned w -> owned w'.
Proof. unfold owned. by intros -> ->. Qed.

Lemma tied_mono socks socks' r req :
  (forall s o, socks !! s = Some o ->
     exists o', socks' !! s = Some o' /\ Socketb.evtCallback o' = Socketb.evtCallback o) ->
  tied socks r req -> tied socks' r req.
Proof.
  intros Hmono (Hidx & Hused & Hsock). split; [done | split; [done|]].
  intros s Hs. destruct (Hsock s Hs) as (Hu & o & Ho & Hcb). split; [done|].
  destruct (Hmono s o Ho) as (o' & Ho' & Hcb'). exists o'. split; [done | congruence].
Qed.

Lemma owned_alter_socket (f : Socketb.t -> Socketb.t) (s : nat) w :
  (forall o, Socketb.evtCallback (f o) = Socketb.evtCallback o) ->
  owned w -> owned (set_sockets (alter f s) w).
Proof.
  intros Hf Hw r req Hr. apply (tied_mono (sockets w)); [|by apply Hw].
  intros s' o Ho. cbn. destruct (decide (s = s')) as [->|Hne].
  - exists (f o). by rewrite list_lookup_alter_eq, Ho.
  - exists o. by rewrite list_lookup_alter_ne.
Qed.

Lemma owned_push_socket (x : Socketb.t) w :
  owned w -> owned (set_sockets (fun h => h ++ [x]) w).
Proof.
  intros Hw r req Hr. apply (tied_mono (sockets w)); [|by apply Hw].
  intros s o Ho. exists o. split; [|done]. cbn. by apply lookup_app_l_Some.
Qed.

Lemma owned_alter_request (f : Request.t -> Request.t) (r : nat) w :
  (forall req, table w !! r = Some req ->
     tied (sockets w) r req -> tied (sockets w) r (f req)) ->
  owned w -> owned (set_table (alter f r) w).
Proof.
  intros Hf Hw r' req'.
  change (table (set_table (alter f r) w)) with (alter f r (table w)).
  change (sockets (set_table (alter f r) w)) with (sockets w).
  destruct (decide (r = r')) as [<-|Hne].
  - rewrite list_lookup_alter_eq.
    destruct (table w !! r) as [req|] eqn:Hr; [|done].
    intros [= <-]. apply Hf; [done | by apply Hw].
  - rewrite list_lookup_alter_ne by done. apply Hw.
Qed.

Lemma tied_detach socks r req :
  tied socks r req -> tied socks r (Request.set_socketb None req).
Proof. intros (Hidx & Hused & _). by split; [|split]. Qed.

Ltac owned_update :=
  first
    [ eapply owned_same; [| | eassumption];
        unfold table, host_readyState; cbn; repeat case_match; reflexivity
    | apply owned_alter_socket; [by intros [] | assumption]
    | apply owned_alter_request; [intros; by apply tied_detach | assumption] ].

Lemma Request_free_keeps_owned r : preserves owned (Request_free r).
Proof. keep_with owned_update. Qed.

Lemma release_keeps_sockets r w : sockets (snd (release r w)) = sockets w.
Proof.
  assert (H : preserves (fun w' => sockets w' = sockets w) (release r))
    by keep_with ltac:(cbn in *; assumption).
  by apply H.
Qed.

Lemma release_keeps_owned r : preserves owned (release r).
Proof.
  intros w Hw. destruct (table w !! r) as [req|] eqn:Hl.
  - destruct (release_spec r req w Hl) as (_ & Ht & _). unfold exec in Ht.
    intros r' req'. rewrite Ht, release_keeps_sockets.
    destruct (decide (r = r')) as [<-|Hne].
    + rewrite list_lookup_insert_eq by (eapply lookup_lt_Some, Hl).
      intros [= <-]. destruct (Hw r req Hl) as (Hidx & _ & _).
      by split; [|split].
    + rewrite list_lookup_insert_ne by done. apply Hw.
  - unfold release, modify_request, bind at 1, update at 1. cbv beta iota.
    unfold bind at 1, update at 1. cbv beta iota.
    apply Request_free_keeps_owned.
    apply owned_alter_request.
    + intros req.
      change (table (set_table (alter ?f r) w)) with (alter f r (table w)).
      by rewrite list_lookup_alter_eq, Hl.
    + apply owned_alter_request; [|done]. intros req. by rewrite Hl.
Qed.

Lemma alloc_keeps_owned idx tag w :
  0 <= idx <= 65535 -> 0 <= tag <= 65535 -> owned w ->
  owned (snd (ReqMgr_alloc idx tag w)) /\
  forall r, fst (ReqMgr_alloc idx tag w) = Return (Some r) ->
    exists req, table (snd (ReqMgr_alloc idx tag w)) !! r = Some req /\
                Request.isUsed req = Some true.
Proof.
  intros Hidx Htag Hw.
  destruct (ReqMgr_alloc idx tag w) as [res w'] eqn:E. cbn [fst snd].
  unfold ReqMgr_alloc, bind at 1, the_cap, gets in E. cbn [fst snd] in E.
  destruct (out_of_range (cap_of w) idx).
  { injection E as <- <-. split; [by apply (owned_same w) | done]. }
  unfold bind at 1, the_request in E.
  destruct (table w !! Z.to_nat idx) as [req|] eqn:Hl;
    [|injection E as <- <-; by split].
  destruct (Request.inUsed req).
  { injection E as <- <-. split; [by apply (owned_same w) | done]. }
  unfold modify_request, bind, update, ret in E. cbn [fst snd] in E.
  injection E as <- <-.
  set (r := Z.to_nat idx) in *.
  set (f := fun q : Request.t =>
              Request.set_isUsed (Some true)
                (Request.set_idx (Some idx) (Request.set_tag tag q))).
  assert (Heq : set_table (alter (Request.set_isUsed (Some true)) r)
                  (set_table (alter (Request.set_idx (Some idx)) r)
                     (set_table (alter (Request.set_tag tag) r) w))
                = set_table (alter f r) w).
  { change (set_table (alter (Request.set_isUsed (Some true)) r)
              (set_table (alter (Request.set_idx (Some idx)) r)
                 (set_table (alter (Request.set_tag tag) r) w)))
      with (set_table
              (fun q => alter (Request.set_isUsed (Some true)) r
                          (alter (Request.set_idx (Some idx)) r
                             (alter (Request.set_tag tag) r q))) w).
    apply set_table_ext. by rewrite !list_alter_alter_eq. }
  rewrite Heq. split.
  - apply owned_alter_request; [|done].
    intros req' _ (_ & _ & Hsock).
    assert (Hr : idx = Z.of_nat r) by (unfold r; lia).
    split; [|split]; cbn.
    + intros i [= <-]. done.
    + intros _. rewrite <- Hr. repeat split; lia.
    + intros s Hs. destruct (Hsock s Hs) as (_ & Ho). done.
  - intros r' [= <-]. exists (f req). split; [|done].
    change (table (set_table (alter f r) w)) with (alter f r (table w)).
    by rewrite list_lookup_alter_eq, Hl.
Qed.

Lemma proxy_keeps_owned r addr w :
  owned w ->
  (exists req, table w !! r = Some req /\ Request.isUsed req = Some true) ->
  owned (snd (Request_proxy r addr w)).
Proof.
  intros Hw (req & Hl & Hu).
  unfold Request_proxy, bind at 1, the_request. rewrite Hl.
  destruct (Request.socketb req) as [s|] eqn:Hs.
  { by apply (owned_same w). }
  unfold Socketb_new, modify_request, bind, gets, update, ret. cbn [fst snd].
  set (x := Socketb.mk addr r STATE_CONNECTING (Some (length (sockets w))) [] false).
  apply owned_alter_request.
  - intros req' Hl' (Hidx & Hused & _). split; [done | split; [done|]].
    cbn. intros s' [= <-].
    assert (Hu' : Request.isUsed req' = Some true).
    { unfold table in Hl', Hl. cbn in Hl'. rewrite Hl in Hl'. by injection Hl' as <-. }
    split; [done|]. exists x. split; [|done].
    by rewrite lookup_app_r, Nat.sub_diag by done.
  - apply owned_push_socket. by apply (owned_same w).
Qed.

Lemma preserves_bind_u16 {B} (P : World -> Prop) b off (k : Z -> M B) :
  (forall v, 0 <= v <= 65535 -> preserves P (k v)) ->
  preserves P (bind (readUInt16LE b off) k).
Proof.
  intros Hk w Hw. unfold bind, readUInt16LE.
  destruct (b !! off) as [lo|]; [|done].
  destruct (b !! S off) as [hi|]; [|done].
  apply Hk; [apply (u16_bounds lo hi) | done].
Qed.

Lemma address_block_keeps_owned data t off :
  preserves owned (address_block data t off).
Proof. unfold address_block. keep_with owned_update. Qed.

Lemma onRequestCreated_keeps_owned idx tag data off :
  0 <= idx <= 65535 -> 0 <= tag <= 65535 ->
  preserves owned (Tunnel_onRequestCreated idx tag data off).
Proof.
  intros Hidx Htag. unfold Tunnel_onRequestCreated.
  apply preserves_bind; [keep_with owned_update | intros addressType].
  apply preserves_bind; [apply address_block_keeps_owned | intros [[domain port]|]];
    [|apply preserves_ret].
  intros w Hw. unfold bind.
  destruct (alloc_keeps_owned idx tag w Hidx Htag Hw) as [Hw' Hres].
  destruct (ReqMgr_alloc idx tag w) as [[[r|]|e] w']; cbn [fst snd] in *; try done.
  apply proxy_keeps_owned; [done | by apply Hres].
Qed.

#[local] Hint Resolve release_keeps_owned : keeps.

Lemma onRequestMessage_keeps_owned cmd data :
  preserves owned (Tunnel_onRequestMessage cmd data).
Proof.
  unfold Tunnel_onRequestMessage.
  apply preserves_bind_u16; intros idx Hidx.
  apply preserves_bind_u16; intros tag Htag.
  destruct (cmd =? CMD_ReqCreated); [by apply onRequestCreated_keeps_owned|].
  keep_with owned_update.
Qed.

#[local] Hint Resolve onRequestMessage_keeps_owned : keeps.

Lemma handler_keeps_owned o : preserves owned (handler o).
Proof. destruct o; keep_with owned_update. Qed.

Lemma boot_owned id cap now : owned (boot id cap now).
Proof.
  intros r req. unfold table, boot, Tunnel_new, ReqMgr.new. cbn.
  rewrite list_lookup_fmap. destruct (seqZ 0 cap !! r) as [i|]; [|done].
  intros [= <-]. by split; [|split].
Qed.

Lemma reachable_owned w : reachable w -> owned w.
Proof.
  intros (ops & id & cap & now & ->).
  apply run_invariant; [apply handler_keeps_owned | apply boot_owned].
Qed.

(** X21.  On every running tunnel, a slot that holds an egress socket is
    in use, stores its own position as [idx], has position and tag within
    sixteen bits, and the socket it holds exists and calls back into this
    very slot. *)
Theorem attached_socket_belongs_to_its_slot w r req s :
  reachable w ->
  table w !! r = Some req ->
  Request.socketb req = Some s ->
  Request.isUsed req = Some true /\
  Request.idx req = Some (Z.of_nat r) /\
  Z.of_nat r <= 65535 /\ 0 <= Request.tag req <= 65535 /\
  exists o, sockets w !! s = Some o /\ Socketb.evtCallback o = r.
Proof.
  intros Hw Hr Hs.
  destruct (reachable_owned w Hw r req Hr) as (_ & Hused & Hsock).
  destruct (Hsock s Hs) as (Hu & Ho).
  destruct (Hused Hu) as (Hidx & Hle & Htag). done.
Qed.

Lemma attached_socket_belongs_to_its_slot_at_busy :
  Request.isUsed (Request.mk 7 false (Some true) (Some 0) (Some 0%nat)) = Some true /\
  Request.idx (Request.mk 7 false (Some true) (Some 0) (Some 0%nat)) = Some (Z.of_nat 0) /\
  Z.of_nat 0 <= 65535 /\
  0 <= Request.tag (Request.mk 7 false (Some true) (Some 0) (Some 0%nat)) <= 65535 /\
  exists o, sockets busy !! 0%nat = Some o /\ Socketb.evtCallback o = 0%nat.
Proof.
  apply (attached_socket_belongs_to_its_slot busy 0%nat
           (Request.mk 7 false (Some true) (Some 0) (Some 0%nat)) 0%nat).
  - apply (reachable_run [OpMessage created_domain_0_7]), reachable_boot.
  - reflexivity.
  - reflexivity.
Defined.

(** X22.  On every running tunnel no egress socket is held by two slots:
    the callback of a socket is answered by at most one request. *)
Theorem no_socket_is_shared w r1 r2 req1 req2 s :
  reachable w ->
  table w !! r1 = Some req1 -> table w !! r2 = Some req2 ->
  r1 <> r2 ->
  Request.socketb req1 = Some s -> Request.socketb req2 <> Some s.
Proof.
  intros Hw Hr1 Hr2 Hne Hs1 Hs2. apply Hne.
  destruct (reachable_owned w Hw r1 req1 Hr1) as (_ & _ & Hsock1).
  destruct (reachable_owned w Hw r2 req2 Hr2) as (_ & _ & Hsock2).
  destruct (Hsock1 s Hs1) as (_ & o1 & Ho1 & <-).
  destruct (Hsock2 s Hs2) as (_ & o2 & Ho2 & <-).
  congruence.
Qed.

Lemma no_socket_is_shared_by_two_requests :
  Request.socketb (Request.mk 7 false (Some true) (Some 1) (Some 1%nat)) <> Some 0%nat.
Proof.
  apply (no_socket_is_shared
           (run [OpMessage created_domain_0_7; OpMessage created_domain_1_7] fresh)
           0%nat 1%nat
           (Request.mk 7 false (Some true) (Some 0) (Some 0%nat))
           (Request.mk 7 false (Some true) (Some 1) (Some 1%nat)) 0%nat).
  - apply reachable_run, reachable_boot.
  - reflexivity.
  - reflexivity.
  - discriminate.
  - reflexivity.
Defined.

(** ** [ReqData] for a live request *)

Lemma write_parks_chunk w s o chunk :
  sockets w !! s = Some o ->
  Socketb.isClosed o = false ->
  Socketb.inSending o = false ->
  Socketb_write s chunk w =
    (Throw (ReferenceError "writeLoop"),
     set_sockets
       (fun h => <[s := Socketb.set_chunks2Send (Socketb.chunks2Send o ++ [chunk]) o]> h)
       w).
Proof.
  intros Hs Hc Hi.
  unfold Socketb_write, modify_socket, bind at 1, the_socket at 1.
  rewrite Hs, Hc. unfold bind at 1, update.
  assert (Hw : set_sockets (alter (fun o0 => Socketb.set_chunks2Send
                                     (Socketb.chunks2Send o0 ++ [chunk]) o0) s) w
               = set_sockets
                   (fun h => <[s := Socketb.set_chunks2Send
                                      (Socketb.chunks2Send o ++ [chunk]) o]> h) w)
    by (unfold set_sockets; by rewrite (alter_as_insert _ _ _ _ Hs)).
  rewrite Hw.
  set (o' := Socketb.set_chunks2Send (Socketb.chunks2Send o ++ [chunk]) o).
  set (w' := set_sockets (fun h => <[s := o']> h) w).
  assert (Hs' : sockets w' !! s = Some o').
  { cbn. apply list_lookup_insert_eq. eapply lookup_lt_Some, Hs. }
  assert (Hi' : Socketb.inSending o' = false) by by rewrite <- Hi.
  unfold Socketb_startSendLoop, bind, the_socket. rewrite Hs', Hi'.
  cbn [negb]. by rewrite Hs', Hi'.
Qed.

(** X23.  [ReqData(idx, tag, payload)] that names a live slot (in range,
    in use, tag equal) holding an egress socket with no drainer running:
    the bytes after the five-byte header are appended, as one chunk, to
    the socket's queue, and the handler is left by the [ReferenceError]
    of [startSendLoop]; when the socket object is closed the payload is
    discarded instead.  The table is not touched either way. *)
Theorem data_frame_parks_payload w i0 i1 t0 t1 payload req s o :
  out_of_range (cap_of w) (u16 i0 i1) = false ->
  table w !! Z.to_nat (u16 i0 i1) = Some req ->
  Request.isUsed req = Some true ->
  Request.tag req = u16 t0 t1 ->
  Request.socketb req = Some s ->
  sockets w !! s = Some o ->
  Socketb.inSending o = false ->
  on_message (Byte.x03 :: i0 :: i1 :: t0 :: t1 :: payload) w =
    if Socketb.isClosed o then (Return tt, arrived w)
    else
      (Throw (ReferenceError "writeLoop"),
       set_sockets
         (fun h => <[s := Socketb.set_chunks2Send
                            (Socketb.chunks2Send o ++ [payload]) o]> h)
         (arrived w)).
Proof.
  intros Hrange Hr Hused Htag Hsock Hs Hi.
  rewrite on_message_unfold. fold (arrived w).
  rewrite request_frame_dispatch by done. cbn zeta.
  change (u8 "003" =? CMD_ReqCreated) with false.
  change (u8 "003" =? CMD_ReqData) with true. cbv iota.
  unfold Tunnel_onReqClientData, bind at 1.
  rewrite (get_spec (u16 i0 i1) (u16 t0 t1) req (arrived w)) by done.
  rewrite Hused, Htag, Z.eqb_refl. cbn [truthy negb].
  unfold Request_onClientData, bind at 1, the_request.
  change (table (arrived w)) with (table w). rewrite Hr, Hsock.
  change (drop 5 (Byte.x03 :: i0 :: i1 :: t0 :: t1 :: payload)) with payload.
  destruct (Socketb.isClosed o) eqn:Hc.
  - by apply write_closed_discards with o.
  - by apply write_parks_chunk.
Qed.

Lemma data_frame_parks_payload_at_busy :
  on_message (frame [3; 0; 0; 7; 0; 1; 2; 3]) busy =
    (Throw (ReferenceError "writeLoop"),
     set_sockets
       (fun h => <[0%nat := Socketb.mk "a.b:80" 0 STATE_CONNECTING (Some 0%nat)
                              [frame [1; 2; 3]] false]> h)
       (arrived busy)).
Proof.
  apply (data_frame_parks_payload busy
           Byte.x00 Byte.x00 Byte.x07 Byte.x00 (frame [1; 2; 3])
           (Request.mk 7 false (Some true) (Some 0) (Some 0%nat)) 0%nat
           (Socketb.mk "a.b:80" 0 STATE_CONNECTING (Some 0%nat) [] false));
    reflexivity.
Defined.

(** ** Truncated frames and the pong *)

(** X24.  A request frame (command 3 to 9) shorter than its five-byte
    header leaves the message listener by [RangeError]: the arrival is
    stamped and nothing else changes. *)
Theorem truncated_request_frame_raises w c rest :
  isRequestCmd (u8 c) = true ->
  (length rest < 4)%nat ->
  on_message (c :: rest) w = (Throw RangeError, arrived w).
Proof.
  intros Hc Hlen. rewrite on_message_unfold. fold (arrived w).
  unfold Tunnel_onTunnelMessage, ArrayBuffer_length, js_lt.
  unfold bind at 1, readUInt8. cbn [lookup list_lookup]. unfold ret at 1.
  rewrite Hc. unfold Tunnel_onRequestMessage, bind, readUInt16LE.
  destruct rest as [|i0 [|i1 [|t0 [|t1 rest]]]]; cbn in *; try done. lia.
Qed.

Lemma truncated_request_frame_raises_at_busy :
  on_message (frame [5; 0; 0; 7]) busy = (Throw RangeError, arrived busy).
Proof.
  apply (truncated_request_frame_raises busy Byte.x05 (frame [0; 0; 7]));
    [reflexivity | cbn; lia].
Defined.

(** X25.  A [Pong] frame, whatever follows its command byte, gives the
    keepalive counter the number 0, also when it held none before, and
    stamps the arrival; requests, sockets, queue and WebSocket are
    untouched. *)
Theorem pong_resets_counter w body :
  on_message (Byte.x02 :: body) w =
    (Return tt, set_tunnel (Tunnel.set_waitingPing (NInt 0)) (arrived w)).
Proof.
  rewrite on_message_unfold. fold (arrived w).
  unfold Tunnel_onTunnelMessage, ArrayBuffer_length, js_lt.
  unfold bind at 1, readUInt8. cbn [lookup list_lookup]. unfold ret at 1.
  reflexivity.
Qed.

(** ** The close event, step by step *)

Lemma logged_cons e t w : logged (e :: t) w = logged t (emit e w).
Proof. unfold logged, emit. cbn. by rewrite <- app_assoc. Qed.

Lemma for_each_resolve_eq q w :
  for_each q Tunnel_callSendBufResolve w =
    (Return tt,
     logged (replicate (length q)
               (EvLog "Tunnel.callSendBufResolve, resolve exception:")) w).
Proof.
  revert w. induction q as [|e q IH]; intros w.
  - cbn. unfold ret, logged. rewrite app_nil_r. by destruct w.
  - cbn [for_each length replicate]. unfold bind.
    rewrite callSendBufResolve_spec, IH. by rewrite logged_cons.
Qed.

Lemma closeHandler_eq w :
  unflagged w -> well_formed w ->
  closeHandler w =
    (Return tt,
     let w4 :=
       emit (EvTunnelClosed (Tunnel.id (tunnel w)))
         (set_tunnel (Tunnel.set_sendBufs [])
            (logged (EvLog "closeHandler, id:" ::
                     replicate (length (queue w))
                       (EvLog "Tunnel.callSendBufResolve, resolve exception:")) w)) in
     match Tunnel.websocket (tunnel w) with
     | Some _ => set_tunnel (Tunnel.set_websocket None) (emit EvWsClose w4)
     | None => w4
     end).
Proof.
  intros Hflags Hwf.
  unfold closeHandler, console_log, bind at 1, update at 1. cbv beta iota.
  unfold Tunnel_onClosed, bind at 1, the_tunnel at 1, gets. cbv beta iota.
  unfold bind at 1. rewrite for_each_resolve_eq. cbv beta iota.
  unfold bind at 1, update at 1. cbv beta iota.
  unfold bind at 1. rewrite cleanup_returns by (unfold unflagged, well_formed in *; done).
  cbv beta iota.
  unfold bind at 1, the_tunnel at 1, gets. cbv beta iota.
  unfold bind at 1, update at 1. cbv beta iota.
  rewrite <- logged_cons. cbn [snd tunnel set_tunnel logged emit Tunnel.id Tunnel.set_sendBufs].
  unfold Tunnel_close, Tunnel_isWebsocketValid, bind at 1, the_tunnel, gets.
  cbn [fst snd]. unfold queue.
  destruct (Tunnel.websocket (tunnel w)) as [h|] eqn:Hws; cbn.
  - rewrite Hws. rewrite bool_decide_eq_true_2 by eauto. done.
  - rewrite Hws. rewrite bool_decide_eq_false_2 by (intros [? ?]; done). done.
Qed.

Lemma notified_logs n msg : notified (replicate n (EvLog msg)) = [].
Proof. induction n; [done | by cbn]. Qed.

Lemma host_closes_logs n msg : host_closes (replicate n (EvLog msg)) = 0%nat.
Proof. unfold host_closes. induction n; [done | by cbn]. Qed.

(** X26.  The close event on a running tunnel, in full: the send queue is
    emptied, the manager's [onTunnelClosed] is called exactly once, with
    this tunnel, the host's [close] is called once if the WebSocket was
    still in place and not at all otherwise, and the WebSocket is null
    afterwards.  Requests, egress sockets, open promises and a parked
    drainer are left as they were. *)
Theorem close_event_in_full w :
  reachable w ->
  let w' := exec closeHandler w in
  outcome closeHandler w = Return tt /\
  queue w' = [] /\
  Tunnel.websocket (tunnel w') = None /\
  notified (trace w') = notified (trace w) ++ [Tunnel.id (tunnel w)] /\
  host_closes (trace w') =
    (host_closes (trace w) +
     match Tunnel.websocket (tunnel w) with Some _ => 1 | None => 0 end)%nat /\
  table w' = table w /\ sockets w' = sockets w /\
  drainers w' = drainers w /\ resolved w' = resolved w.
Proof.
  intros Hw w'. unfold w', outcome, exec.
  destruct (reachable_sound w Hw) as (_ & Hflags & Hwf).
  rewrite (closeHandler_eq w Hflags Hwf). cbn [fst snd]. cbv zeta.
  set (n := length (queue w)).
  assert (Hn : notified (trace w ++ EvLog "closeHandler, id:" ::
                 replicate n (EvLog "Tunnel.callSendBufResolve, resolve exception:"))
               = notified (trace w)).
  { unfold notified. rewrite omap_app. cbn. fold (notified (replicate n
      (EvLog "Tunnel.callSendBufResolve, resolve exception:"))).
    by rewrite notified_logs, app_nil_r. }
  assert (Hc : host_closes (trace w ++ EvLog "closeHandler, id:" ::
                 replicate n (EvLog "Tunnel.callSendBufResolve, resolve exception:"))
               = host_closes (trace w)).
  { unfold host_closes. rewrite omap_app, length_app. cbn.
    fold (host_closes (replicate n
      (EvLog "Tunnel.callSendBufResolve, resolve exception:"))).
    rewrite host_closes_logs. lia. }
  destruct (Tunnel.websocket (tunnel w)) as [h|] eqn:Hws.
  - split; [done|]. split; [done|]. split; [done|]. split; [|split].
    + cbn. unfold notified in *. rewrite !omap_app. cbn.
      rewrite omap_app in Hn. cbn in Hn. rewrite Hn. by rewrite app_nil_r.
    + cbn. unfold host_closes in *. rewrite !omap_app, !length_app. cbn.
      rewrite omap_app, length_app in Hc. cbn in Hc. lia.
    + done.
  - split; [done|]. split; [done|]. split; [by cbn|]. split; [|split].
    + cbn. unfold notified in *. rewrite !omap_app. cbn.
      rewrite omap_app in Hn. cbn in Hn. by rewrite Hn.
    + cbn. unfold host_closes in *. rewrite !omap_app, !length_app. cbn.
      rewrite omap_app, length_app in Hc. cbn in Hc. lia.
    + done.
Qed.

Lemma close_event_in_full_at_stalled :
  let w' := exec closeHandler stalled in
  outcome closeHandler stalled = Return tt /\
  queue w' = [] /\
  Tunnel.websocket (tunnel w') = None /\
  notified (trace w') = notified (trace stalled) ++ [Tunnel.id (tunnel stalled)] /\
  host_closes (trace w') =
    (host_closes (trace stalled) +
     match Tunnel.websocket (tunnel stalled) with Some _ => 1 | None => 0 end)%nat /\
  table w' = table stalled /\ sockets w' = sockets stalled /\
  drainers w' = drainers stalled /\ resolved w' = resolved stalled.
Proof.
  apply (close_event_in_full stalled).
  apply reachable_run, reachable_boot.
Defined.

(** ** The manager and its registry *)

Lemma js_put_fresh k v l :
  Forall (fun p => p.1 < k) l -> js_put k v l = l ++ [(k, v)].
Proof.
  induction 1 as [|[k' v'] l Hk Hl IH]; [done|]. cbn in *.
  destruct (Z.ltb_spec k k'); [lia|].
  destruct (Z.eqb_spec k k'); [lia|]. by rewrite IH.
Qed.

Lemma elem_of_js_put p k v l : p ∈ js_put k v l -> p = (k, v) \/ p ∈ l.
Proof.
  induction l as [|[k' v'] l IH]; cbn.
  - intros ->%list_elem_of_singleton. by left.
  - destruct (k <? k').
    { intros [->|H]%elem_of_cons; [by left | by right]. }
    destruct (k =? k').
    { intros [->|H]%elem_of_cons; [by left | right; by right]. }
    intros [->|H]%elem_of_cons; [right; by left|].
    destruct (IH H); [by left | right; by right].
Qed.

Lemma closed_fold ids m :
  let m' := foldl (fun m id => TunMgr_onTunnelClosed id m) m ids in
  TunMgr.index m' = TunMgr.index m /\
  TunMgr.keepalive m' = TunMgr.keepalive m /\
  TunMgr.tunnels m' `sublist_of` TunMgr.tunnels m.
Proof.
  revert m. induction ids as [|id ids IH]; intros m; cbn; [done|].
  destruct (IH (TunMgr_onTunnelClosed id m)) as (Hi & Hk & Hs).
  split; [by rewrite Hi | split; [by rewrite Hk|]].
  etrans; [exact Hs|]. apply sublist_filter.
Qed.

Ltac identity_update :=
  unfold host_readyState in *; cbn in *; repeat case_match; cbn; assumption.

Lemma handler_keeps_identity k c o :
  preserves (fun w => Tunnel.id (tunnel w) = k /\ Tunnel.reqCap (tunnel w) = c)
            (handler o).
Proof. destruct o; keep_with identity_update. Qed.

Lemma keepalive_returns now throttle w :
  fst (Tunnel_keepalive now throttle w) = Return tt.
Proof.
  unfold Tunnel_keepalive, bind at 1, the_tunnel at 1, gets. cbn [fst snd].
  destruct (js_gt (Tunnel.waitingPing (tunnel w)) 3).
  - unfold Tunnel_close, Tunnel_isWebsocketValid, bind at 1, the_tunnel, gets.
    cbn [fst snd]. by case_bool_decide.
  - unfold bind at 1, the_tunnel at 1, gets. cbn [fst snd].
    destruct (throttle <? now - Tunnel.lastActivate (tunnel w)); [|done].
    unfold bind.
    pose proof (async_call_returns Tunnel_sendPingMessage w) as Hret.
    destruct (async_call Tunnel_sendPingMessage w) as [res w1].
    cbn in Hret. by subst res.
Qed.

Lemma keepalive_is_step now w :
  Tunnel_keepalive now KEEPALIVE_INTERVAL w =
    (Return tt, step w (OpKeepalive now KEEPALIVE_INTERVAL)).
Proof.
  pose proof (keepalive_returns now KEEPALIVE_INTERVAL w) as Hret.
  unfold step, exec. cbn [handler].
  destruct (Tunnel_keepalive now KEEPALIVE_INTERVAL w) as [res w1].
  cbn in Hret. by subst res.
Qed.

(** The loop of the interval callback runs to its end, and turns each
    object an entry names into its state after [keepalive]. *)
Lemma tick_loop_spec now entries : forall objs,
  NoDup entries.*2 ->
  Forall (fun p => (p.2 < length objs)%nat) entries ->
  length (tick_loop now entries objs) = length objs /\
  forall r w, objs !! r = Some w ->
    tick_loop now entries objs !! r =
      Some (if bool_decide (r ∈ entries.*2)
            then step w (OpKeepalive now KEEPALIVE_INTERVAL) else w).
Proof.
  induction entries as [|[k r0] entries IH]; intros objs Hnd Hin.
  - split; [done|]. intros r w Hr. cbn.
    by rewrite bool_decide_eq_false_2 by apply not_elem_of_nil.
  - cbn [fmap list_fmap snd] in Hnd.
    pose proof (NoDup_cons_1_1 _ _ Hnd) as Hr0. apply NoDup_cons_1_2 in Hnd.
    apply Forall_cons_1 in Hin as [Hlt Hin]. cbn [snd] in Hlt.
    destruct (lookup_lt_is_Some_2 objs r0 Hlt) as [w0 Hw0].
    cbn [tick_loop]. rewrite Hw0, keepalive_is_step.
    set (w0' := step w0 (OpKeepalive now KEEPALIVE_INTERVAL)).
    destruct (IH (<[r0 := w0']> objs) Hnd) as [Hlen Hlook].
    { rewrite length_insert. exact Hin. }
    rewrite length_insert in Hlen. split; [done|].
    intros r w Hr. cbn [fmap list_fmap snd].
    destruct (decide (r = r0)) as [->|Hne].
    + rewrite (Hlook r0 w0') by (by apply list_lookup_insert_eq).
      rewrite bool_decide_eq_false_2 by done.
      rewrite bool_decide_eq_true_2 by (by left).
      rewrite Hw0 in Hr. by injection Hr as <-.
    + rewrite (Hlook r w) by (by rewrite list_lookup_insert_ne).
      f_equal. rewrite (bool_decide_ext (r ∈ r0 :: entries.*2) (r ∈ entries.*2)); [done|].
      rewrite elem_of_cons. split; [intros [?|?]; done | by right].
Qed.

Lemma start_registry_ok : registry_ok start.
Proof.
  unfold registry_ok, start. cbn. split; [done|]. split.
  { intros k r H. by apply not_elem_of_nil in H. }
  split; [constructor|]. split; [|done].
  intros r w H. done.
Qed.

Lemma registry_keys_below sc :
  registry_ok sc ->
  Forall (fun p => p.1 < TunMgr.index (mgr sc)) (TunMgr.tunnels (mgr sc)).
Proof.
  intros (Hidx & Hreg & _). apply list.Forall_forall. intros [k r] Hkr.
  destruct (Hreg k r Hkr) as [-> Hlt]. cbn. lia.
Qed.

Lemma fetch_keeps_registry h now sc :
  registry_ok sc -> registry_ok (snd (TunMgr_fetch h now sc)).
Proof.
  intros Hsc. pose proof (registry_keys_below sc Hsc) as Hbelow.
  destruct Hsc as (Hidx & Hreg & Hnd & Hobj & Hka & Hint).
  unfold TunMgr_fetch.
  destruct (match h with
            | Some h0 => bool_decide (h0 = "") || negb (bool_decide (h0 = "websocket"))
            | None => true
            end); [done|].
  cbn [snd]. unfold registry_ok. cbn [mgr objects intervals TunMgr.tunnels
    TunMgr.index TunMgr.keepalive].
  rewrite (js_put_fresh _ _ _ Hbelow), length_app. cbn [length].
  split; [lia|]. split; [|split; [|split; [|split]]].
  - intros k r [Hkr | [= -> ->]%list_elem_of_singleton]%elem_of_app.
    + destruct (Hreg k r Hkr). split; [done | lia].
    + split; [done | lia].
  - rewrite fmap_app. apply list.NoDup_app. split; [done|]. split; [|apply list.NoDup_singleton].
    intros k Hk ->%list_elem_of_singleton.
    apply list_elem_of_fmap in Hk as ([k' r] & Hk' & Hkr). cbn in Hk'. subst k'.
    rewrite list.Forall_forall in Hbelow. specialize (Hbelow _ Hkr). cbn in Hbelow. lia.
  - intros r w [Hr | [Hlen Hw]]%lookup_app_Some.
    + by apply Hobj.
    + apply list_lookup_singleton_Some in Hw as [Hz <-].
      assert (r = length (objects sc)) as -> by lia.
      split; [done|]. split; [done|]. apply reachable_boot.
  - symmetry. apply bool_decide_eq_true_2. lia.
  - rewrite Hint. by destruct (TunMgr.keepalive (mgr sc)).
Qed.

Lemma deliver_keeps_registry r o sc :
  registry_ok sc -> registry_ok (deliver r o sc).
Proof.
  intros Hsc. unfold deliver.
  destruct (objects sc !! r) as [w|] eqn:Hr; [|done].
  destruct Hsc as (Hidx & Hreg & Hnd & Hobj & Hka & Hint).
  destruct (closed_fold (notified (drop (length (trace w)) (trace (step w o)))) (mgr sc))
    as (Hi & Hk & Hsub).
  unfold registry_ok. cbn [mgr objects intervals].
  rewrite Hi, Hk, length_insert.
  split; [done|]. split; [|split; [|split; [|done]]].
  - intros k r' Hkr. apply Hreg. by eapply elem_of_sublist.
  - eapply sublist_NoDup; [exact Hnd|]. by apply fmap_sublist.
  - intros r' w'. destruct (decide (r = r')) as [<-|Hne].
    + rewrite list_lookup_insert_eq by (eapply lookup_lt_Some, Hr).
      intros [= <-]. destruct (Hobj r w Hr) as (Hid & Hcap & Hreach).
      destruct (handler_keeps_identity _ _ o w (conj Hid Hcap)) as [Hid' Hcap'].
      split; [done|]. split; [done|].
      apply (reachable_run [o]), Hreach.
    + rewrite list_lookup_insert_ne by done. apply Hobj.
Qed.

Lemma registry_refs sc :
  registry_ok sc ->
  NoDup (TunMgr.tunnels (mgr sc)).*2 /\
  Forall (fun p => (p.2 < length (objects sc))%nat) (TunMgr.tunnels (mgr sc)).
Proof.
  intros (Hidx & Hreg & Hnd & _). split.
  - apply NoDup_fmap_2_strong; [|by apply NoDup_fmap_1 in Hnd].
    intros [k1 r1] [k2 r2] H1 H2. cbn. intros <-.
    destruct (Hreg _ _ H1) as [-> _]. by destruct (Hreg _ _ H2) as [-> _].
  - apply list.Forall_forall. intros [k r] Hkr. by destruct (Hreg k r Hkr).
Qed.

Lemma tick_keeps_registry now sc :
  registry_ok sc -> registry_ok (interval_callback now sc).
Proof.
  intros Hsc. destruct (registry_refs sc Hsc) as [Hnd2 Hin].
  destruct (tick_loop_spec now _ (objects sc) Hnd2 Hin) as [Hlen Hlook].
  destruct Hsc as (Hidx & Hreg & Hnd & Hobj & Hka & Hint).
  unfold registry_ok, interval_callback. cbn [mgr objects intervals].
  rewrite Hlen. split; [done|]. split; [done|]. split; [done|]. split; [|done].
  intros r w' Hr'.
  destruct (lookup_lt_is_Some_2 (objects sc) r) as [w Hr].
  { apply lookup_lt_Some in Hr'. by rewrite Hlen in Hr'. }
  rewrite (Hlook r w Hr) in Hr'. injection Hr' as <-.
  destruct (Hobj r w Hr) as (Hid & Hcap & Hreach).
  destruct (bool_decide (r ∈ (TunMgr.tunnels (mgr sc)).*2)); [|done].
  destruct (handler_keeps_identity _ _ (OpKeepalive now KEEPALIVE_INTERVAL) w
              (conj Hid Hcap)) as [Hid' Hcap'].
  split; [done|]. split; [done|].
  apply (reachable_run [OpKeepalive now KEEPALIVE_INTERVAL]), Hreach.
Qed.

Lemma mgr_step_keeps_registry o sc : registry_ok sc -> registry_ok (mgr_step sc o).
Proof.
  intros Hsc. destruct o as [h now|now|r o]; cbn [mgr_step].
  - by apply fetch_keeps_registry.
  - case_bool_decide; [by apply tick_keeps_registry | done].
  - destruct o; try done; by apply deliver_keeps_registry.
Qed.

Lemma mgr_run_invariant (P : Scene -> Prop) :
  (forall o sc, P sc -> P (mgr_step sc o)) ->
  forall ops sc, P sc -> P (mgr_run ops sc).
Proof.
  intros Hstep ops. induction ops as [|o ops IH]; intros sc Hsc; cbn; [done|].
  apply IH, Hstep, Hsc.
Qed.

Lemma run_registry_ok ops : registry_ok (mgr_run ops start).
Proof.
  apply mgr_run_invariant; [apply mgr_step_keeps_registry | apply start_registry_ok].
Qed.

(** X27.  Whatever requests, interval firings and tunnel events the
    manager has met: [index] counts the tunnels constructed so far; every
    entry of the registry is filed under a key below [index] and holds
    the tunnel whose id is that key, built with capacity 100; no key is
    filed twice; and the interval has been set up exactly once if any
    tunnel was ever accepted, and not at all otherwise. *)
Theorem registry_files_tunnels_by_id ops :
  let sc := mgr_run ops start in
  TunMgr.index (mgr sc) = Z.of_nat (length (objects sc)) /\
  (forall k r, (k, r) ∈ TunMgr.tunnels (mgr sc) ->
     0 <= k < TunMgr.index (mgr sc) /\
     exists w, objects sc !! r = Some w /\
               Tunnel.id (tunnel w) = k /\ Tunnel.reqCap (tunnel w) = 100) /\
  NoDup (TunMgr.tunnels (mgr sc)).*1 /\
  intervals sc = if bool_decide (0 < TunMgr.index (mgr sc)) then 1%nat else 0%nat.
Proof.
  intros sc.
  destruct (run_registry_ok ops) as (Hidx & Hreg & Hnd & Hobj & Hka & Hint).
  fold sc in Hidx, Hreg, Hnd, Hobj, Hka, Hint.
  split; [done|]. split; [|split; [done|]].
  - intros k r Hkr. destruct (Hreg k r Hkr) as [-> Hlt]. split; [lia|].
    destruct (lookup_lt_is_Some_2 (objects sc) r Hlt) as [w Hw].
    exists w. by destruct (Hobj r w Hw) as (? & ? & _).
  - rewrite Hint, Hka, Hidx.
    destruct (objects sc); cbn; [done|].
    rewrite bool_decide_eq_true_2 by lia. by rewrite bool_decide_eq_true_2 by lia.
Qed.

Lemma close_notifies w :
  unflagged w -> well_formed w ->
  notified (drop (length (trace w)) (trace (step w OpClose))) = [Tunnel.id (tunnel w)].
Proof.
  intros Hflags Hwf. unfold step, exec. cbn [handler].
  rewrite (closeHandler_eq w Hflags Hwf). cbn [snd]. cbv zeta.
  set (n := length (queue w)).
  assert (Hlogs : forall t,
    notified (drop (length (trace w))
                ((trace w ++ EvLog "closeHandler, id:" ::
                    replicate n (EvLog "Tunnel.callSendBufResolve, resolve exception:"))
                 ++ t)) = notified t).
  { intros t. rewrite <- app_assoc, drop_app_length.
    unfold notified. rewrite omap_app. cbn.
    fold (notified (replicate n
      (EvLog "Tunnel.callSendBufResolve, resolve exception:"))).
    by rewrite notified_logs. }
  destruct (Tunnel.websocket (tunnel w)) as [h|]; cbn.
  - rewrite <- app_assoc. by rewrite Hlogs.
  - by rewrite Hlogs.
Qed.

(** The key [k] is spent: below [index] and not in the registry. *)
Lemma spent_key_stays_out k o sc :
  (k < TunMgr.index (mgr sc) /\ forall v, (k, v) ∉ TunMgr.tunnels (mgr sc)) ->
  k < TunMgr.index (mgr (mgr_step sc o)) /\
  forall v, (k, v) ∉ TunMgr.tunnels (mgr (mgr_step sc o)).
Proof.
  intros [Hlt Hout].
  assert (Hdel : forall r o', 
    k < TunMgr.index (mgr (deliver r o' sc)) /\
    forall v, (k, v) ∉ TunMgr.tunnels (mgr (deliver r o' sc))).
  { intros r o'. unfold deliver. destruct (objects sc !! r) as [w|]; [|done].
    cbn [mgr].
    destruct (closed_fold (notified (drop (length (trace w)) (trace (step w o'))))
                (mgr sc)) as (Hi & _ & Hsub).
    rewrite Hi. split; [done|]. intros v Hv. apply (Hout v).
    by eapply elem_of_sublist. }
  destruct o as [h now|now|r o]; cbn [mgr_step].
  - unfold TunMgr_fetch.
    destruct (match h with
              | Some h0 => bool_decide (h0 = "") || negb (bool_decide (h0 = "websocket"))
              | None => true
              end); [done|].
    cbn. split; [lia|]. intros v [[= -> _]|Hv]%elem_of_js_put; [lia|].
    by apply (Hout v).
  - by case_bool_decide.
  - destruct o; try done; apply Hdel.
Qed.

(** X28.  The close event of a tunnel in the registry removes its entry,
    and only its entry; and whatever the manager meets afterwards, that
    key is never filed again: ids are not reused. *)
Theorem closed_tunnel_leaves_registry ops ops' k r :
  let sc := mgr_run ops start in
  (k, r) ∈ TunMgr.tunnels (mgr sc) ->
  let sc' := mgr_step sc (MEvent r OpClose) in
  TunMgr.tunnels (mgr sc') = js_delete k (TunMgr.tunnels (mgr sc)) /\
  forall v, (k, v) ∉ TunMgr.tunnels (mgr (mgr_run ops' sc')).
Proof.
  intros sc Hkr sc'.
  pose proof (run_registry_ok ops) as Hok. fold sc in Hok.
  pose proof (registry_keys_below sc Hok) as Hbelow.
  destruct Hok as (Hidx & Hreg & Hnd & Hobj & Hka & Hint).
  destruct (Hreg k r Hkr) as [Hk Hlt].
  destruct (lookup_lt_is_Some_2 (objects sc) r Hlt) as [w Hw].
  destruct (Hobj r w Hw) as (Hid & _ & Hreach).
  destruct (reachable_sound w Hreach) as (_ & Hflags & Hwf).
  assert (Hsc' : mgr sc' =
                 TunMgr.mk (js_delete k (TunMgr.tunnels (mgr sc)))
                           (TunMgr.index (mgr sc)) (TunMgr.keepalive (mgr sc))).
  { unfold sc'. cbn [mgr_step]. unfold deliver. rewrite Hw. cbn [mgr].
    rewrite (close_notifies w Hflags Hwf). cbn. by rewrite Hid, <- Hk. }
  split; [by rewrite Hsc'|].
  apply (mgr_run_invariant
           (fun s => k < TunMgr.index (mgr s) /\
                     forall v, (k, v) ∉ TunMgr.tunnels (mgr s))).
  - intros o s. apply spent_key_stays_out.
  - rewrite Hsc'. cbn. split.
    + rewrite list.Forall_forall in Hbelow. apply (Hbelow _ Hkr).
    + intros v Hv. unfold js_delete in Hv.
      apply list_elem_of_filter in Hv as [Hne _]. by apply Hne.
Qed.

Lemma closed_tunnel_leaves_registry_after_accept :
  let sc := mgr_run [MFetch (Some "websocket") 1000] start in
  let sc' := mgr_step sc (MEvent 0 OpClose) in
  TunMgr.tunnels (mgr sc') = js_delete 0 (TunMgr.tunnels (mgr sc)) /\
  forall v, (0, v) ∉ TunMgr.tunnels
                       (mgr (mgr_run [MFetch (Some "websocket") 2000; MTick 12000] sc')).
Proof.
  apply (closed_tunnel_leaves_registry
           [MFetch (Some "websocket") 1000]
           [MFetch (Some "websocket") 2000; MTick 12000] 0 0%nat).
  cbn. apply list_elem_of_singleton. reflexivity.
Defined.

(** X29.  A firing of the manager's interval calls
    [keepalive(now, KEEPALIVE_INTERVAL)] once on every tunnel the registry
    holds, none of the calls cutting the loop short, and on no other
    tunnel: one that its close event has removed is not ticked again. *)
Theorem tick_visits_registered_tunnels ops now r w :
  let sc := mgr_run ops start in
  objects sc !! r = Some w ->
  objects (mgr_step sc (MTick now)) !! r =
    Some (if bool_decide (r ∈ (TunMgr.tunnels (mgr sc)).*2)
          then step w (OpKeepalive now KEEPALIVE_INTERVAL) else w).
Proof.
  intros sc Hw.
  pose proof (run_registry_ok ops) as Hok. fold sc in Hok.
  destruct (registry_refs sc Hok) as [Hnd2 Hin].
  destruct Hok as (_ & _ & _ & _ & Hka & Hint).
  cbn [mgr_step].
  assert (Hpos : (0 < length (objects sc))%nat) by (apply lookup_lt_Some in Hw; lia).
  rewrite bool_decide_eq_true_2 in Hka by done. rewrite Hka in Hint.
  rewrite bool_decide_eq_true_2 by lia.
  unfold interval_callback. cbn [objects].
  by apply tick_loop_spec.
Qed.

Lemma tick_visits_registered_tunnels_after_accept :
  let sc := mgr_run [MFetch (Some "websocket") 1000] start in
  objects (mgr_step sc (MTick 11001)) !! 0%nat =
    Some (if bool_decide (0%nat ∈ (TunMgr.tunnels (mgr sc)).*2)
          then step (boot 0 100 1000) (OpKeepalive 11001 KEEPALIVE_INTERVAL)
          else boot 0 100 1000).
Proof.
  apply (tick_visits_registered_tunnels [MFetch (Some "websocket") 1000] 11001 0%nat
           (boot 0 100 1000)).
  reflexivity.
Defined.

(** X30.  [fetch] on the manager, in any state it can be in.  Unless the
    [Upgrade] header is exactly [websocket], the answer is 426 and nothing
    changes.  Otherwise the answer is 101 and one tunnel is constructed:
    its id is the old [index], its capacity 100, its WebSocket accepted
    and open; it is filed last in the registry under its id, [index] is
    advanced by one, and exactly one interval exists afterwards. *)
Theorem upgrade_gate ops h now :
  let sc := mgr_run ops start in
  let next := length (objects sc) in
  TunMgr_fetch h now sc =
    if bool_decide (h = Some "websocket") then
      (Response101 next,
       mkScene (TunMgr.mk (TunMgr.tunnels (mgr sc) ++ [(TunMgr.index (mgr sc), next)])
                          (TunMgr.index (mgr sc) + 1) true)
               (objects sc ++ [boot (TunMgr.index (mgr sc)) 100 now])
               1)
    else (Response426, sc).
Proof.
  intros sc next.
  pose proof (run_registry_ok ops) as Hok. fold sc in Hok.
  pose proof (registry_keys_below sc Hok) as Hbelow.
  destruct Hok as (_ & _ & _ & _ & _ & Hint).
  unfold TunMgr_fetch. destruct h as [h|]; [|done].
  destruct (decide (h = "websocket")) as [->|Hne].
  - rewrite (bool_decide_eq_true_2 (Some "websocket" = Some "websocket")) by done.
    rewrite (bool_decide_eq_false_2 ("websocket" = "")) by done.
    rewrite (bool_decide_eq_true_2 ("websocket" = "websocket")) by done.
    cbn [orb negb]. rewrite (js_put_fresh _ _ _ Hbelow).
    do 2 f_equal. rewrite Hint. by destruct (TunMgr.keepalive (mgr sc)).
  - rewrite (bool_decide_eq_false_2 (Some h = Some "websocket")) by congruence.
    rewrite (bool_decide_eq_false_2 (h = "websocket")) by done.
    cbn [negb]. by rewrite orb_true_r.
Qed.
